(** * TCPchat: the connection protocol engine of cmd/server/main.go

    A shallow embedding of the server's per-connection engine
    ([handleConn], [sendHistory], [handleCommand]) together with models of
    the Go library functions it calls ([strings.Fields],
    [strings.TrimSpace], [fmt.Sscanf] with the verb [%d], ...), followed by
    the properties of the specification stated over that embedding.

    - Go strings are byte sequences: they are lists of [ascii] here, one
      [ascii] per byte; runes are decoded from them as the library does.
    - The Go type [int] is taken to be 64 bits wide (every 64-bit GOARCH).
    - The database behind the global [db] is a pair of tables that is
      passed along; every call of the store takes the fault the storage
      engine may answer with.
    - A connection is the list of lines its reader delivers, each with
      what the surroundings contribute to the pass of the loop that
      handles it (the time, the faults of the store, the outcome of the
      write); every [conn.Write] call is recorded with its result.
    - A time is an instant together with the offset of its zone; the
      store orders the message log by the text that the sqlite3 driver
      stores for a time.
    - bcrypt and the formatting of a time are parameters.
    - The lines the server prints on its own standard output, and the
      opening of the database and of the listener in [main], are left
      out.  The accept loop of [main], with one goroutine for each
      connection, is the sequence of events of [serverStep].
    - The client of cmd/client/main.go is embedded as well ([client]):
      the initial message and the interactive loop, with every
      [conn.Write] call recorded with its result; what it prints is left
      out. *)

From Stdlib Require Import ZArith String Ascii Bool List Lia.
From Stdlib Require Import DecimalString.
From Stdlib Require DecimalPos.
From Stdlib Require Import Sorting.Sorted Sorting.Permutation.
Import ListNotations.

Local Open Scope Z_scope.

(** ** Go strings *)

Definition gostring : Type := list ascii.

(** A string literal of the source. *)
Definition str (s : string) : gostring := list_ascii_of_string s.

(** [s[i]] as a number. *)
Definition byteval (c : ascii) : Z := Z.of_N (N_of_ascii c).

(** The line terminator of the protocol. *)
Definition nl : gostring := ["010"%char].

Fixpoint streq (a b : gostring) : bool :=
  match a, b with
  | [], [] => true
  | x :: a', y :: b' => Ascii.eqb x y && streq a' b'
  | _, _ => false
  end.

(** ** Package unicode/utf8 *)

Module utf8.

Definition RuneError : Z := 0xFFFD.
Definition RuneSelf : Z := 0x80.
Definition UTFMax : nat := 4.

Definition maskx : Z := 0x3F.
Definition mask2 : Z := 0x1F.
Definition mask3 : Z := 0x0F.
Definition mask4 : Z := 0x07.
Definition locb : Z := 0x80.
Definition hicb : Z := 0xBF.

(** One entry of the table [first]: an ASCII byte ([as]), an invalid
    leading byte ([xx]), or a leading byte with the size of its
    sequence and the accepted range of the second byte. *)
Inductive firstInfo : Type :=
| AS
| XX
| Lead (sz : nat) (lo hi : Z).

Definition first (s0 : Z) : firstInfo :=
  if s0 <? 0x80 then AS
  else if s0 <? 0xC2 then XX
  else if s0 <? 0xE0 then Lead 2 locb hicb
  else if s0 =? 0xE0 then Lead 3 0xA0 hicb
  else if s0 <? 0xED then Lead 3 locb hicb
  else if s0 =? 0xED then Lead 3 locb 0x9F
  else if s0 <? 0xF0 then Lead 3 locb hicb
  else if s0 =? 0xF0 then Lead 4 0x90 hicb
  else if s0 <? 0xF4 then Lead 4 locb hicb
  else if s0 =? 0xF4 then Lead 4 locb 0x8F
  else XX.

Definition outside (lo hi x : Z) : bool := (x <? lo) || (hi <? x).

(** [utf8.DecodeRuneInString]: the first rune of [s] and its width in
    bytes; [(RuneError, 1)] for an invalid or incomplete encoding. *)
Definition DecodeRuneInString (s : gostring) : Z * nat :=
  match s with
  | [] => (RuneError, 0%nat)
  | c0 :: t =>
    let s0 := byteval c0 in
    match first s0 with
    | AS => (s0, 1%nat)
    | XX => (RuneError, 1%nat)
    | Lead sz lo hi =>
      if (length s <? sz)%nat then (RuneError, 1%nat) else
      match t with
      | [] => (RuneError, 1%nat)
      | c1 :: t1 =>
        let s1 := byteval c1 in
        if outside lo hi s1 then (RuneError, 1%nat) else
        if (sz <=? 2)%nat
        then (Z.lor (Z.shiftl (Z.land s0 mask2) 6) (Z.land s1 maskx), 2%nat)
        else
        match t1 with
        | [] => (RuneError, 1%nat)
        | c2 :: t2 =>
          let s2 := byteval c2 in
          if outside locb hicb s2 then (RuneError, 1%nat) else
          if (sz <=? 3)%nat
          then (Z.lor (Z.lor (Z.shiftl (Z.land s0 mask3) 12)
                             (Z.shiftl (Z.land s1 maskx) 6))
                      (Z.land s2 maskx), 3%nat)
          else
          match t2 with
          | [] => (RuneError, 1%nat)
          | c3 :: _ =>
            let s3 := byteval c3 in
            if outside locb hicb s3 then (RuneError, 1%nat) else
            (Z.lor (Z.lor (Z.lor (Z.shiftl (Z.land s0 mask4) 18)
                                 (Z.shiftl (Z.land s1 maskx) 12))
                          (Z.shiftl (Z.land s2 maskx) 6))
                   (Z.land s3 maskx), 4%nat)
          end
        end
      end
    end
  end.

(** [utf8.RuneStart]: [b] is not a continuation byte. *)
Definition RuneStart (b : Z) : bool := negb (Z.land b 0xC0 =? 0x80).

(** The backward search of [DecodeLastRuneInString] for the start of the
    last rune: from [start], at most [n] further bytes to the left. *)
Fixpoint findStart (s : gostring) (start n : nat) : nat :=
  match n with
  | O => pred start
  | S n' =>
    match start with
    | O => O
    | S start' =>
      if RuneStart (byteval (nth start' s "000"%char)) then start'
      else findStart s start' n'
    end
  end.

(** [utf8.DecodeLastRuneInString]. *)
Definition DecodeLastRuneInString (s : gostring) : Z * nat :=
  let e := length s in
  match e with
  | O => (RuneError, 0%nat)
  | S start =>
    let r := byteval (nth start s "000"%char) in
    if r <? RuneSelf then (r, 1%nat) else
    let start' := findStart s start (UTFMax - 1) in
    let '(r', size) := DecodeRuneInString (skipn start' s) in
    if (start' + size =? e)%nat then (r', size) else (RuneError, 1%nat)
  end.

End utf8.

(** The iteration [for i, r := range s]: every rune of [s] with the bytes
    it was decoded from.  [skip] counts the bytes of the current rune that
    are still to be passed over. *)
Fixpoint runesFrom (skip : nat) (s : gostring) : list (Z * gostring) :=
  match s with
  | [] => []
  | _ :: rest =>
    match skip with
    | S k => runesFrom k rest
    | O =>
      let '(r, n) := utf8.DecodeRuneInString s in
      (r, firstn n s) :: runesFrom (n - 1) rest
    end
  end.

Definition runes (s : gostring) : list (Z * gostring) := runesFrom 0 s.

(** ** Package unicode *)

Module unicode.

(** [unicode.IsSpace]: the Latin-1 spaces and the table [White_Space]. *)
Definition IsSpace (r : Z) : bool :=
  ((0x09 <=? r) && (r <=? 0x0D))
  || (r =? 0x20) || (r =? 0x85) || (r =? 0xA0) || (r =? 0x1680)
  || ((0x2000 <=? r) && (r <=? 0x200A))
  || (r =? 0x2028) || (r =? 0x2029) || (r =? 0x202F) || (r =? 0x205F)
  || (r =? 0x3000).

End unicode.

(** ** Package strings *)

Module strings.

(** [strings.FieldsFunc]: [cur] is the field being read, if any (the
    source keeps its start index). *)
Fixpoint fieldsLoop (f : Z -> bool) (rs : list (Z * gostring))
         (cur : option gostring) : list gostring :=
  match rs with
  | [] => match cur with Some w => [w] | None => [] end
  | (r, bs) :: rs' =>
    if f r then
      match cur with
      | Some w => w :: fieldsLoop f rs' None
      | None => fieldsLoop f rs' None
      end
    else
      fieldsLoop f rs' (Some (match cur with Some w => w ++ bs | None => bs end))
  end.

Definition FieldsFunc (s : gostring) (f : Z -> bool) : list gostring :=
  fieldsLoop f (runes s) None.

(** [strings.Fields]: split around runs of white space, as defined by
    [unicode.IsSpace]. *)
Definition Fields (s : gostring) : list gostring :=
  FieldsFunc s unicode.IsSpace.

(** [strings.indexFunc]: byte index of the first rune [r] with
    [f r = truth], or [-1]. *)
Fixpoint indexLoop (f : Z -> bool) (truth : bool)
         (rs : list (Z * gostring)) (i : nat) : Z :=
  match rs with
  | [] => -1
  | (r, bs) :: rs' =>
    if Bool.eqb (f r) truth then Z.of_nat i
    else indexLoop f truth rs' (i + length bs)
  end.

Definition indexFunc (s : gostring) (f : Z -> bool) (truth : bool) : Z :=
  indexLoop f truth (runes s) 0.

(** [strings.lastIndexFunc]: the loop runs from [i = len(s)] downwards,
    one rune (decoded backwards) at a time; [skip] counts the bytes of
    the rune just decoded that are still to be passed over. *)
Fixpoint lastIndexLoop (f : Z -> bool) (truth : bool) (s : gostring)
         (i skip : nat) : Z :=
  match i with
  | O => -1
  | S i' =>
    match skip with
    | S k => lastIndexLoop f truth s i' k
    | O =>
      let '(r, size) := utf8.DecodeLastRuneInString (firstn i s) in
      if Bool.eqb (f r) truth then Z.of_nat (i - size)
      else lastIndexLoop f truth s i' (size - 1)
    end
  end.

Definition lastIndexFunc (s : gostring) (f : Z -> bool) (truth : bool) : Z :=
  lastIndexLoop f truth s (length s) 0.

Definition TrimLeftFunc (s : gostring) (f : Z -> bool) : gostring :=
  let i := indexFunc s f false in
  if i =? -1 then [] else skipn (Z.to_nat i) s.

Definition TrimRightFunc (s : gostring) (f : Z -> bool) : gostring :=
  let i := lastIndexFunc s f false in
  let i' :=
    if (0 <=? i) && (utf8.RuneSelf <=? byteval (nth (Z.to_nat i) s "000"%char))
    then i + Z.of_nat (snd (utf8.DecodeRuneInString (skipn (Z.to_nat i) s)))
    else i + 1 in
  firstn (Z.to_nat i') s.

Definition TrimFunc (s : gostring) (f : Z -> bool) : gostring :=
  TrimRightFunc (TrimLeftFunc s f) f.

(** [strings.TrimSpace]: all leading and trailing white space removed,
    as defined by Unicode.  (The library first strips ASCII spaces byte
    by byte and falls back on [TrimFunc] and [TrimRightFunc]; the string
    returned is the same.) *)
Definition TrimSpace (s : gostring) : gostring :=
  TrimFunc s unicode.IsSpace.

Fixpoint HasPrefix (s prefix : gostring) {struct prefix} : bool :=
  match prefix, s with
  | [], _ => true
  | p :: prefix', c :: s' => Ascii.eqb c p && HasPrefix s' prefix'
  | _ :: _, [] => false
  end.

Definition TrimPrefix (s prefix : gostring) : gostring :=
  if HasPrefix s prefix then skipn (length prefix) s else s.

Fixpoint Join (elems : list gostring) (sep : gostring) : gostring :=
  match elems with
  | [] => []
  | [e] => e
  | e :: rest => e ++ sep ++ Join rest sep
  end.

End strings.

(** ** Package strconv *)

Module strconv.

Definition digitVal (c : ascii) : Z := byteval c - 48.

(** The value of a run of decimal digits, most significant first. *)
Definition decimal (ds : gostring) : Z :=
  fold_left (fun acc c => 10 * acc + digitVal c) ds 0.

(** [strconv.ParseInt(tok, 10, 64)] on a token made of an optional sign
    and decimal digits (the only tokens [fmt] hands over for [%d]):
    [None] is the range error. *)
Definition ParseInt (neg : bool) (ds : gostring) : option Z :=
  let v := if neg then - decimal ds else decimal ds in
  if (- 2 ^ 63 <=? v) && (v <=? 2 ^ 63 - 1) then Some v else None.

End strconv.

(** ** Package fmt *)

Module fmt.

Definition isDigit (c : ascii) : bool :=
  (48 <=? byteval c) && (byteval c <=? 57).

(** [ss.SkipSpace] with [nlIsSpace = false]: [None] is the scan
    error "unexpected newline".  The spaces of [fmt] are those of
    [unicode.IsSpace]. *)
Fixpoint skipSpaceLoop (rs : list (Z * gostring)) : option (list (Z * gostring)) :=
  match rs with
  | [] => Some []
  | (r, bs) :: rs' =>
    if (r =? 13) && (match rs' with (10, _) :: _ => true | _ => false end)
    then skipSpaceLoop rs'
    else if r =? 10 then None
    else if unicode.IsSpace r then skipSpaceLoop rs'
    else Some rs
  end.

Definition SkipSpace (s : gostring) : option gostring :=
  match skipSpaceLoop (runes s) with
  | None => None
  | Some rs => Some (concat (map snd rs))
  end.

(** The digits [ss.scanNumber] accepts, and what is left unread. *)
Fixpoint scanNumber (s : gostring) : gostring * gostring :=
  match s with
  | c :: s' =>
    if isDigit c then let '(ds, rest) := scanNumber s' in (c :: ds, rest)
    else ([], s)
  | [] => ([], [])
  end.

(** [ss.scanInt] for the verb [%d] and 64 bits: skip spaces, accept
    one sign, read the digits, convert.  [None] is any scan error. *)
Definition scanInt (s : gostring) : option (Z * gostring) :=
  match SkipSpace s with
  | None => None
  | Some [] => None                         (* notEOF *)
  | Some ((c :: s1) as s0) =>
    let '(neg, s2) :=
      if Ascii.eqb c "+" then (false, s1)
      else if Ascii.eqb c "-" then (true, s1)
      else (false, s0) in
    match scanNumber s2 with
    | ([], _) => None                       (* EOF, or "expected integer" *)
    | (ds, rest) =>
      match strconv.ParseInt neg ds with
      | None => None
      | Some v => Some (v, rest)
      end
    end
  end.

(** [fmt.Sscanf(s, "%d", &v)] with [v] an [int]: the value stored in
    [v] when the returned error is nil, and [None] when it is not.  What
    follows the digits in [s] is left unread and is not an error. *)
Definition Sscanf_d (s : gostring) : option Z :=
  match scanInt s with
  | None => None
  | Some (v, _) => Some v
  end.

(** [fmt.Sprintf("%d", v)]. *)
Definition Sprintf_d (v : Z) : gostring :=
  str (NilZero.string_of_int (Z.to_int v)).

End fmt.

(** Arithmetic on the Go type [int]: two's complement, 64 bits. *)
Definition wrap (z : Z) : Z := (z + 2 ^ 63) mod 2 ^ 64 - 2 ^ 63.
Definition int_add (a b : Z) : Z := wrap (a + b).
Definition int_mul (a b : Z) : Z := wrap (a * b).

(** ** cmd/server/main.go: data *)

(** A Go [error], by its message [err.Error()]. *)
Definition error : Type := gostring.

(** A [time.Time]: an instant, in nanoseconds since the Unix epoch, and
    the offset of its zone east of UTC, in minutes (the zones in use
    have offsets of whole minutes).  [time.Now()] is in the local zone,
    with the offset that zone has at that instant. *)
Record time : Type :=
  { unixNano : Z;
    zoneOffset : Z }.

(** A number used as a time is that many seconds after the epoch, in
    UTC. *)
Definition seconds (s : Z) : time :=
  {| unixNano := s * 10 ^ 9; zoneOffset := 0 |}.
Coercion seconds : Z >-> time.

(** A call that returns normally with a value, or panics. *)
Inductive go (A : Type) : Type :=
| Ret (a : A)
| Panic (msg : gostring).
Arguments Ret {A} a.
Arguments Panic {A} msg.

Module User.
Record t : Type := Build
  { ID : Z;                 (* gorm:"primaryKey" *)
    Name : gostring;        (* gorm:"uniqueIndex" *)
    Password : gostring;
    CreatedAt : time }.
End User.

Module Message.
Record t : Type := Build
  { ID : Z;                 (* gorm:"primaryKey" *)
    UserID : option Z;      (* *uint, nil when the sender is anonymous *)
    UserName : gostring;
    Addr : gostring;
    Text : gostring;
    CreatedAt : time }.
End Message.

(** The database behind the global [db]: the two tables that
    [AutoMigrate] creates, rows in insertion order. *)
Record DB : Type :=
  { users : list User.t;
    messages : list Message.t }.

(** ** The text of a time in the database

    The sqlite3 driver binds a [time.Time] as the text
    [t.Format("2006-01-02 15:04:05.999999999-07:00")]: the wall clock
    of the zone of [t], then that zone's offset.  The column holds this
    text, and sqlite compares it byte by byte. *)

Module sqlite3.

(** Year, month and day of the day [days] after 1970-01-01, in the
    proleptic Gregorian calendar, as [Time.Date] gives them. *)
Definition civil (days : Z) : Z * Z * Z :=
  let z := days + 719468 in
  let era := z / 146097 in
  let doe := z - era * 146097 in
  let yoe := (doe - doe / 1460 + doe / 36524 - doe / 146096) / 365 in
  let doy := doe - (365 * yoe + yoe / 4 - yoe / 100) in
  let mp := (5 * doy + 2) / 153 in
  let d := doy - (153 * mp + 2) / 5 + 1 in
  let m := if mp <? 10 then mp + 3 else mp - 9 in
  let y := yoe + era * 400 + (if m <=? 2 then 1 else 0) in
  (y, m, d).

(** [appendInt(b, x, width)] of package time: the sign if [x] is
    negative, then the decimal digits, padded with zeros to [width]. *)
Definition appendInt (x : Z) (width : nat) : gostring :=
  let ds := str (NilZero.string_of_uint (N.to_uint (Z.to_N (Z.abs x)))) in
  (if x <? 0 then ["-"%char] else [])
    ++ repeat "0"%char (width - length ds) ++ ds.

Fixpoint dropZeros (s : gostring) : gostring :=
  match s with
  | c :: s' => if Ascii.eqb c "0" then dropZeros s' else s
  | [] => []
  end.

(** The fraction [.999999999]: nothing for a whole second, else the
    point and the nine digits without their trailing zeros. *)
Definition appendNano (nanosec : Z) : gostring :=
  if nanosec =? 0 then []
  else "."%char :: rev (dropZeros (rev (appendInt nanosec 9))).

(** The zone as [-07:00]. *)
Definition appendZone (zone : Z) : gostring :=
  (if zone <? 0 then "-"%char else "+"%char)
    :: appendInt (Z.abs zone / 60) 2 ++ ":"%char
    :: appendInt (Z.abs zone mod 60) 2.

(** The text stored for [t]. *)
Definition timestamp (t : time) : gostring :=
  let sec := unixNano t / 10 ^ 9 + 60 * zoneOffset t in
  let '(y, m, d) := civil (sec / 86400) in
  let rem := sec mod 86400 in
  appendInt y 4 ++ "-"%char :: appendInt m 2 ++ "-"%char :: appendInt d 2
    ++ " "%char :: appendInt (rem / 3600) 2
    ++ ":"%char :: appendInt (rem mod 3600 / 60) 2
    ++ ":"%char :: appendInt (rem mod 60) 2
    ++ appendNano (unixNano t mod 10 ^ 9) ++ appendZone (zoneOffset t).

(** The collation [BINARY] on texts: [a] is not after [b] when the
    bytes are compared as [memcmp] does, a proper prefix coming
    first. *)
Fixpoint textLe (a b : gostring) : bool :=
  match a, b with
  | [], _ => true
  | _ :: _, [] => false
  | x :: a', y :: b' =>
    if byteval x <? byteval y then true
    else if byteval y <? byteval x then false
    else textLe a' b'
  end.

End sqlite3.

(** ** The store: the gorm calls of the server

    Every call takes the I/O fault of the storage engine for that call, if
    any ([None]: the engine answers). *)

Module gorm.

Definition ErrRecordNotFound : error := str "record not found".
Definition ErrUniqueName : error := str "UNIQUE constraint failed: users.name".

(** The next value of an auto-increment primary key. *)
Definition nextID (ids : list Z) : Z := 1 + fold_right Z.max 0 ids.

(** [db.Where("name = ?", name).First(&u)]. *)
Definition FirstUserByName (fault : option error) (d : DB) (name : gostring)
  : User.t + error :=
  match fault with
  | Some e => inr e
  | None =>
    match find (fun u => streq (User.Name u) name) (users d) with
    | Some u => inl u
    | None => inr ErrRecordNotFound
    end
  end.

(** [db.Create(&u)] for a user: the row gets its primary key; the unique
    index on the name rejects a second row with the same name. *)
Definition CreateUser (fault : option error) (d : DB) (u : User.t)
  : DB * User.t * option error :=
  match fault with
  | Some e => (d, u, Some e)
  | None =>
    if existsb (fun x => streq (User.Name x) (User.Name u)) (users d)
    then (d, u, Some ErrUniqueName)
    else
      let u' := User.Build (nextID (map User.ID (users d))) (User.Name u)
                           (User.Password u) (User.CreatedAt u) in
      ({| users := users d ++ [u']; messages := messages d |}, u', None)
  end.

(** [db.Find(&users)]. *)
Definition FindUsers (fault : option error) (d : DB) : list User.t + error :=
  match fault with
  | Some e => inr e
  | None => inl (users d)
  end.

(** [db.Create(&msg)] for a message. *)
Definition CreateMessage (fault : option error) (d : DB) (m : Message.t)
  : DB * option error :=
  match fault with
  | Some e => (d, Some e)
  | None =>
    let m' := Message.Build (nextID (map Message.ID (messages d)))
                            (Message.UserID m) (Message.UserName m)
                            (Message.Addr m) (Message.Text m)
                            (Message.CreatedAt m) in
    ({| users := users d; messages := messages d ++ [m'] |}, None)
  end.

(** [ORDER BY created_at asc]: the rows by the text stored in the
    column; rows with the same text keep their insertion order. *)
Fixpoint insertByCreatedAt (m : Message.t) (l : list Message.t) : list Message.t :=
  match l with
  | [] => [m]
  | x :: l' =>
    if sqlite3.textLe (sqlite3.timestamp (Message.CreatedAt m))
                      (sqlite3.timestamp (Message.CreatedAt x))
    then m :: l
    else x :: insertByCreatedAt m l'
  end.

Definition orderByCreatedAt (l : list Message.t) : list Message.t :=
  fold_right insertByCreatedAt [] l.

(** [db.Order("created_at asc").Find(&msgs)]. *)
Definition FindMessagesOrdered (fault : option error) (d : DB)
  : list Message.t + error :=
  match fault with
  | Some e => inr e
  | None => inl (orderByCreatedAt (messages d))
  end.

End gorm.

(** ** cmd/server/main.go: the reply to a payload line

    Lines 141-192 of [handleConn]: the reply computed from the trimmed
    line.  [tokens[0]] panics when [tokens] is empty. *)

Definition replyFor (line : gostring) : go gostring :=
  let tokens := strings.Fields line in
  match tokens with
  | [] => Panic (str "index out of range [0] with length 0")
  | t0 :: _ =>
    if streq t0 (str "echo") then
      if (2 <=? length tokens)%nat
      then Ret (strings.Join (skipn 1 tokens) (str " "))
      else Ret []
    else if streq t0 (str "add") then
      match tokens with
      | [_; a; b] =>
        match fmt.Sscanf_d a, fmt.Sscanf_d b with
        | Some ai, Some bi => Ret (fmt.Sprintf_d (int_add ai bi))
        | _, _ => Ret (str "ERR: add expects two integers")
        end
      | _ => Ret (str "ERR: add expects two arguments")
      end
    else if streq t0 (str "mul") then
      match tokens with
      | [_; a; b] =>
        match fmt.Sscanf_d a, fmt.Sscanf_d b with
        | Some ai, Some bi => Ret (fmt.Sprintf_d (int_mul ai bi))
        | _, _ => Ret (str "ERR: mul expects two integers")
        end
      | _ => Ret (str "ERR: mul expects two arguments")
      end
    else if strings.HasPrefix line (str "bytes ") then
      let rest := strings.TrimPrefix line (str "bytes ") in
      Ret (fmt.Sprintf_d (Z.of_nat (length rest)))
    else if strings.HasPrefix line (str "words ") then
      let rest := strings.TrimPrefix line (str "words ") in
      Ret (fmt.Sprintf_d (Z.of_nat (length (strings.Fields rest))))
    else
      Ret (line ++ str " from server")
  end.

(** ** cmd/server/main.go: the connection engine *)

(** What the surroundings contribute to one pass of the read loop. *)
Record Env : Type :=
  { now : time;                  (* time.Now() *)
    queryErr : option error;     (* fault of the store's lookup, if any *)
    createErr : option error;    (* fault of the store's insert, if any *)
    salt : gostring;             (* the randomness bcrypt draws *)
    writeErr : option error }.   (* failure of conn.Write, if any *)

(** The per-connection state: the shared database, the local
    [currentUser], and every [conn.Write] call so far with its result. *)
Record State : Type :=
  { db : DB;
    currentUser : option User.t;
    written : list (gostring * option error) }.

(** How one pass of the loop ends. *)
Inductive Outcome : Type :=
| Continue              (* next iteration *)
| Return                (* the function returns: the connection closes *)
| Panicked.

Definition Write (st : State) (data : gostring) (err : option error) : State :=
  {| db := db st; currentUser := currentUser st;
     written := written st ++ [(data, err)] |}.

(** ** Package bufio *)

Module bufio.

(** [reader.ReadString('\n')] on the bytes that are still to come: the
    line with its terminator and what remains, or an error when the
    stream ends before a line feed. *)
Fixpoint ReadString (stream : gostring) : option (gostring * gostring) :=
  match stream with
  | [] => None
  | c :: t =>
    if Ascii.eqb "010" c then Some ([c], t)
    else
      match ReadString t with
      | Some (l, rest) => Some (c :: l, rest)
      | None => None
      end
  end.

(** The lines that successive calls of [ReadString] deliver up to the
    call that fails; [cur] is the part of the current line already
    passed. *)
Fixpoint linesOf (cur stream : gostring) : list gostring :=
  match stream with
  | [] => []
  | c :: t =>
    if Ascii.eqb "010" c then (cur ++ [c]) :: linesOf [] t
    else linesOf (cur ++ [c]) t
  end.

End bufio.

(** ** cmd/client/main.go

    A connection of the client is the list of its [conn.Write] calls,
    each with its failure, if any. *)

Module client.

(** [sendLine(conn, s)]: one write of [s] and a line feed.  A failure is
    printed and has no other effect. *)
Definition sendLine (conn : list (gostring * option error)) (s : gostring)
           (werr : option error) : list (gostring * option error) :=
  conn ++ [(s ++ nl, werr)].

(** The interactive loop of [main].  [inputs] are the lines
    [stdin.ReadString] delivers, each with the failure of the write of
    its pass, if that pass writes; the read after the last of them
    fails.  [alive] bounds the passes the process lives: the goroutine
    that prints what the server sends ends the process when the server
    closes the connection. *)
Fixpoint inputLoop (alive : nat) (inputs : list (gostring * option error))
         (conn : list (gostring * option error))
  : list (gostring * option error) :=
  match alive with
  | O => conn
  | S alive' =>
    match inputs with
    | [] => conn
    | (raw, werr) :: rest =>
      let line := strings.TrimSpace raw in
      if streq line [] then inputLoop alive' rest conn
      else if streq line (str "exit") then conn
      else inputLoop alive' rest (sendLine conn line werr)
    end
  end.

(** [main()] with [os.Args = args]: what it writes on the connection.
    [dialErr] is the failure of [net.DialTimeout], [werr0] that of the
    write of the initial message. *)
Definition main (args : list gostring) (dialErr werr0 : option error)
           (alive : nat) (inputs : list (gostring * option error))
  : list (gostring * option error) :=
  let initialMsg :=
    if (2 <=? length args)%nat then strings.Join (skipn 1 args) (str " ")
    else [] in
  match dialErr with
  | Some _ => []
  | None =>
    match alive with
    | O => []
    | S alive' =>
      let conn :=
        if negb (streq initialMsg []) then sendLine [] initialMsg werr0
        else [] in
      inputLoop alive' inputs conn
    end
  end.

End client.

(** ** Vocabulary of the statements *)

(** A token: a non-empty string none of whose runes is white space, the
    strings that [strings.Fields] yields. *)
Definition isToken (a : gostring) : bool :=
  negb (streq a [])
  && forallb (fun rb => negb (unicode.IsSpace (fst rb))) (runes a).

(** A valid base-10 integer token: an optional sign, then digits. *)
Definition isIntToken (a : gostring) : bool :=
  match a with
  | [] => false
  | c :: ds =>
    if Ascii.eqb c "+" || Ascii.eqb c "-"
    then negb (streq ds []) && forallb fmt.isDigit ds
    else forallb fmt.isDigit a
  end.

(** An ASCII byte that is no white space. *)
Definition plainByte (c : ascii) : bool :=
  (byteval c <? 0x80) && negb (unicode.IsSpace (byteval c)).

(** The field under construction, extended by [w]. *)
Definition ext (cur : option gostring) (w : gostring) : gostring :=
  match cur with
  | Some x => x ++ w
  | None => w
  end.

(** No line feed among the bytes of [w]. *)
Definition noNL (w : gostring) : bool :=
  negb (existsb (Ascii.eqb "010"%char) w).

(** An error message, if there is one, is a single line. *)
Definition errNoNL (e : option error) : bool :=
  match e with
  | Some msg => noNL msg
  | None => true
  end.

(** The session is bound to an identity. *)
Definition authenticated (st : State) : bool :=
  match currentUser st with
  | Some _ => true
  | None => false
  end.

(** A credential entry with this name exists. *)
Definition nameExists (d : DB) (name : gostring) : bool :=
  existsb (fun u => streq (User.Name u) name) (users d).

(** A record carries an author's name exactly when it carries an
    author. *)
Definition attributed (m : Message.t) : bool :=
  match Message.UserID m with
  | Some _ => negb (streq (Message.UserName m) [])
  | None => streq (Message.UserName m) []
  end.

Definition namedUser (u : User.t) : bool := negb (streq (User.Name u) []).

(** Every user has a name, every record of the log is [attributed], and
    so is what the session would write. *)
Definition consistent (st : State) : bool :=
  forallb namedUser (users (db st))
  && forallb attributed (messages (db st))
  && match currentUser st with
     | Some u => namedUser u
     | None => true
     end.

(** ** Concrete surroundings

    Stand-ins for bcrypt and for the clock, and a quiet environment,
    for the statements that are evaluated on concrete input. *)

Definition plainHash (slt pw : gostring) : gostring := slt ++ str "$" ++ pw.

Definition plainCheck (hash pw : gostring) : bool :=
  streq (skipn (length hash - length pw - 1) hash) (str "$" ++ pw).

Definition digit (d : Z) : ascii := ascii_of_N (Z.to_N (48 + d)).

(** Hours and minutes of the wall clock of a time, as [15:04]. *)
Definition clock (t : time) : gostring :=
  let m := (unixNano t / 10 ^ 9 / 60 + zoneOffset t) mod 1440 in
  [digit (m / 60 / 10); digit (m / 60 mod 10); ":"%char;
   digit (m mod 60 / 10); digit (m mod 60 mod 10)].

(** The surroundings at instant [t] with no fault of the store, and the
    given outcome of the write. *)
Definition envAt (t : time) (w : option error) : Env :=
  {| now := t; queryErr := None; createErr := None;
     salt := str "salt"; writeErr := w |}.

Definition emptyDB : DB := {| users := []; messages := [] |}.

Definition noFault : nat -> option error := fun _ => None.

Section Server.

(** bcrypt: the hash of a password under a salt, and the check of a
    password against a stored hash. *)
Variable bcryptHash : gostring -> gostring -> gostring.
Variable bcryptCheck : gostring -> gostring -> bool.

(** [t.Format(timeLayout)] with [timeLayout = "15:04"]. *)
Variable Format : time -> gostring.

Definition ErrPasswordTooLong : error :=
  str "bcrypt: password length exceeds 72 bytes".

(** [bcrypt.GenerateFromPassword(pw, bcrypt.DefaultCost)]. *)
Definition GenerateFromPassword (slt pw : gostring) : gostring + error :=
  if (72 <? length pw)%nat then inr ErrPasswordTooLong
  else inl (bcryptHash slt pw).

(** [bcrypt.CompareHashAndPassword(hash, pw) == nil]. *)
Definition CompareHashAndPassword (hash pw : gostring) : bool :=
  bcryptCheck hash pw.

(** The names [handleCommand] lists: every user but the current one. *)
Fixpoint otherNames (cur : option User.t) (us : list User.t) : list gostring :=
  match us with
  | [] => []
  | u :: us' =>
    match cur with
    | Some c =>
      if User.ID u =? User.ID c then otherNames cur us'
      else User.Name u :: otherNames cur us'
    | None => User.Name u :: otherNames cur us'
    end
  end.

(** [handleCommand(line, &currentUser, remote)]: the pair it returns,
    the new value of [currentUser] and the new database. *)
Definition handleCommand (env : Env) (line : gostring)
           (cur : option User.t) (remote : gostring) (d : DB)
  : go (gostring * option error * option User.t * DB) :=
  let parts := strings.Fields line in
  match parts with
  | [] => Panic (str "index out of range [0] with length 0")
  | p0 :: _ =>
    let cmd := strings.TrimPrefix p0 (str "/") in
    if streq cmd (str "setname") then
      match parts with
      | [_; name; pw] =>
        match gorm.FirstUserByName (queryErr env) d name with
        | inl _ => Ret ([], Some (str "name already taken"), cur, d)
        | inr _ =>
          match GenerateFromPassword (salt env) pw with
          | inr e => Ret ([], Some e, cur, d)
          | inl h =>
            let u := User.Build 0 name h (now env) in
            match gorm.CreateUser (createErr env) d u with
            | (d', _, Some e) => Ret ([], Some e, cur, d')
            | (d', u', None) =>
              Ret (str "OK: registered and logged in as " ++ name, None,
                   Some u', d')
            end
          end
        end
      | _ => Ret ([], Some (str "usage: /setname <name> <password>"), cur, d)
      end
    else if streq cmd (str "connect") then
      match parts with
      | [_; name; pw] =>
        match gorm.FirstUserByName (queryErr env) d name with
        | inr _ => Ret ([], Some (str "no such user"), cur, d)
        | inl u =>
          if CompareHashAndPassword (User.Password u) pw
          then Ret (str "OK: logged in as " ++ name, None, Some u, d)
          else Ret ([], Some (str "invalid password"), cur, d)
        end
      | _ => Ret ([], Some (str "usage: /connect <name> <password>"), cur, d)
      end
    else if streq cmd (str "list") then
      match gorm.FindUsers (queryErr env) d with
      | inr e => Ret ([], Some e, cur, d)
      | inl us =>
        let out := otherNames cur us in
        match out with
        | [] => Ret (str "(no other users)", None, cur, d)
        | _ => Ret (strings.Join out (str ", "), None, cur, d)
        end
      end
    else
      Ret ([], Some (str "unknown command: " ++ cmd), cur, d)
  end.

(** The line [sendHistory] writes for one record. *)
Definition historyLine (m : Message.t) : gostring :=
  let displayName :=
    if streq (Message.UserName m) [] then Message.Addr m
    else Message.UserName m in
  Format (Message.CreatedAt m) ++ str " " ++ displayName ++ str " "
    ++ Message.Text m ++ nl.

(** The loop of [sendHistory]: [werr k] is the failure, if any, of the
    [k]-th write of the connection. *)
Fixpoint sendLoop (werr : nat -> option error) (msgs : list Message.t)
         (st : State) : State * option error :=
  match msgs with
  | [] => (st, None)
  | m :: msgs' =>
    let e := werr (length (written st)) in
    let st' := Write st (historyLine m) e in
    match e with
    | Some err => (st', Some err)
    | None => sendLoop werr msgs' st'
    end
  end.

(** [sendHistory(conn)]. *)
Definition sendHistory (fault : option error) (werr : nat -> option error)
           (st : State) : State * option error :=
  match gorm.FindMessagesOrdered fault (db st) with
  | inr e => (st, Some e)
  | inl msgs => sendLoop werr msgs st
  end.

(** The record [handleConn] stores for a payload line. *)
Definition newMessage (line remote : gostring) (t : time)
           (cur : option User.t) : Message.t :=
  match cur with
  | Some u => Message.Build 0 (Some (User.ID u)) (User.Name u) remote line t
  | None => Message.Build 0 None [] remote line t
  end.

(** One pass of the read loop of [handleConn], for a line [raw] that
    [reader.ReadString] returned without error. *)
Definition body (remote : gostring) (st : State) (raw : gostring) (env : Env)
  : State * Outcome :=
  let line := strings.TrimSpace raw in
  if streq line [] then (st, Continue)
  else if strings.HasPrefix line (str "/") then
    match handleCommand env line (currentUser st) remote (db st) with
    | Panic _ => (st, Panicked)
    | Ret (resp, err, cur', d') =>
      let st' := {| db := d'; currentUser := cur'; written := written st |} in
      match err with
      | Some e =>
        (Write st' (str "ERR: " ++ e ++ nl) (writeErr env), Continue)
      | None =>
        if negb (streq resp [])
        then (Write st' (resp ++ nl) (writeErr env), Continue)
        else (st', Continue)
      end
    end
  else
    let msg := newMessage line remote (now env) (currentUser st) in
    let '(d', _) := gorm.CreateMessage (createErr env) (db st) msg in
    let st' := {| db := d'; currentUser := currentUser st;
                  written := written st |} in
    match replyFor line with
    | Panic _ => (st', Panicked)
    | Ret reply =>
      let st'' := Write st' (reply ++ nl) (writeErr env) in
      match writeErr env with
      | Some _ => (st'', Return)
      | None => (st'', Continue)
      end
    end.

(** The read loop: [reads] are the lines the reader delivers, each with
    the surroundings of its pass; the read after the last of them
    fails.  The result is the state after every pass, the way the loop
    ended, and the lines that were never read. *)
Fixpoint loop (remote : gostring) (reads : list (gostring * Env))
         (st : State) : list State * Outcome * list (gostring * Env) :=
  match reads with
  | [] => ([], Return, [])
  | (raw, env) :: rest =>
    match body remote st raw env with
    | (st', Continue) =>
      let '(tr, out, unread) := loop remote rest st' in
      (st' :: tr, out, unread)
    | (st', out) => ([st'], out, rest)
    end
  end.

(** The state in which the read loop starts: history sent (or not),
    nobody logged in. *)
Definition startState (fault : option error) (werr : nat -> option error)
           (d : DB) : State :=
  fst (sendHistory fault werr
         {| db := d; currentUser := None; written := [] |}).

(** [handleConn(conn)] on a connection from [remote]. *)
Definition handleConn (remote : gostring) (fault : option error)
           (werr : nat -> option error) (reads : list (gostring * Env))
           (d : DB) : list State * Outcome * list (gostring * Env) :=
  loop remote reads (startState fault werr d).

(** Creation times in non-decreasing order. *)
Definition createdLe (m1 m2 : Message.t) : Prop :=
  unixNano (Message.CreatedAt m1) <= unixNano (Message.CreatedAt m2).

(** Stored time stamps in non-decreasing order, as sqlite compares
    them. *)
Definition storedLe (m1 m2 : Message.t) : Prop :=
  sqlite3.textLe (sqlite3.timestamp (Message.CreatedAt m1))
                 (sqlite3.timestamp (Message.CreatedAt m2)) = true.

(** The name [sendHistory] displays for a record: the author's name if
    the record has one, else the origin address. *)
Definition displayNameOf (m : Message.t) : gostring :=
  match Message.UserName m with
  | [] => Message.Addr m
  | _ :: _ => Message.UserName m
  end.

(** The string starts as an integer does: an optional sign, then a
    digit. *)
Definition startsInt (a : gostring) : bool :=
  match a with
  | [] => false
  | c :: t =>
    if Ascii.eqb c "+" || Ascii.eqb c "-"
    then match t with d :: _ => fmt.isDigit d | [] => false end
    else fmt.isDigit c
  end.

(** The number an integer token denotes. *)
Definition intValue (a : gostring) : Z :=
  match a with
  | [] => 0
  | c :: ds =>
    if Ascii.eqb c "-" then - strconv.decimal ds
    else if Ascii.eqb c "+" then strconv.decimal ds
    else strconv.decimal a
  end.

(** The range of the Go type [int]. *)
Definition inInt (z : Z) : bool := (- 2 ^ 63 <=? z) && (z <=? 2 ^ 63 - 1).

(** The keys of the users table are pairwise distinct, and so are its
    names. *)
Definition uniqueUsers (d : DB) : Prop :=
  NoDup (map User.ID (users d)) /\ NoDup (map User.Name (users d)).

(** The session's user is an entry of the users table, and the author of
    every record of the log is the key and the name of an entry. *)
Definition refsValid (st : State) : Prop :=
  (forall c, currentUser st = Some c -> In c (users (db st)))
  /\ (forall m id,
         In m (messages (db st)) -> Message.UserID m = Some id ->
         exists u, In u (users (db st)) /\ User.ID u = id
                   /\ User.Name u = Message.UserName m).

(** [s2] has the tables and the writes of [s1], and possibly more after
    them. *)
Definition extends (s1 s2 : State) : Prop :=
  (exists us, users (db s2) = users (db s1) ++ us)
  /\ (exists ms, messages (db s2) = messages (db s1) ++ ms)
  /\ (exists ws, written s2 = written s1 ++ ws).

(** A line that is empty once trimmed. *)
Definition blank (rd : gostring * Env) : bool :=
  streq (strings.TrimSpace (fst rd)) [].

(** One line: bytes without a line feed, then the line feed.  This is
    what [ReadString('\n')] returns when it returns no error. *)
Fixpoint oneLine (s : gostring) : bool :=
  match s with
  | [] => false
  | c :: t =>
    match t with
    | [] => Ascii.eqb "010" c
    | _ :: _ => negb (Ascii.eqb "010" c) && oneLine t
    end
  end.

(** No name, address, text or formatted time in the database holds a
    line feed. *)
Definition cleanDB (d : DB) : bool :=
  forallb (fun u => noNL (User.Name u)) (users d)
  && forallb (fun m => noNL (Message.UserName m) && noNL (Message.Addr m)
                       && noNL (Message.Text m)
                       && noNL (Format (Message.CreatedAt m)))
             (messages d).

Definition cleanUser (cur : option User.t) : bool :=
  match cur with
  | Some c => noNL (User.Name c)
  | None => true
  end.

(** The database is clean, so is the name of the session's user, and
    every write so far was one line. *)
Definition cleanState (st : State) : bool :=
  cleanDB (db st) && cleanUser (currentUser st)
  && forallb (fun w => oneLine (fst w)) (written st).

(** A read that delivers one line, at a time that formats without line
    feed, while the store's faults, if any, have one-line messages. *)
Definition cleanRead (rd : gostring * Env) : bool :=
  oneLine (fst rd) && noNL (Format (now (snd rd)))
  && errNoNL (queryErr (snd rd)) && errNoNL (createErr (snd rd)).

(** [b] is a continuation byte of UTF-8. *)
Definition isCont (b : Z) : bool := (0x80 <=? b) && (b <? 0xC0).

(** Position [p] of [y] is the end of [y] or holds no continuation
    byte. *)
Definition startAt (y : gostring) (p : nat) : bool :=
  match skipn p y with
  | c :: _ => negb (isCont (byteval c))
  | [] => true
  end.

(** A read as it is when the client forwards it: the trimmed line and a
    line feed. *)
Definition forwarded (rd : gostring * Env) : gostring * Env :=
  (strings.TrimSpace (fst rd) ++ nl, snd rd).

(** ** cmd/server/main.go: the server as a whole

    [main] accepts connections for ever and runs [handleConn] for each
    of them in a goroutine of its own; the goroutines share the one
    database.  A run of the server is a sequence of events, each being
    one step of one goroutine: the start of a connection, with the
    replay of the history, or one pass of the read loop of a
    connection.  A step reads or changes the database at most once,
    except the registration, which looks the name up and then inserts
    it; an insertion by another goroutine between the two makes the
    unique index reject the insert, which is the step with that fault
    of the store. *)

(** A connection of the running server: its origin, the [currentUser]
    of its goroutine, what was written on it, and whether
    [handleConn] has returned. *)
Record Conn : Type :=
  { origin : gostring;
    user : option User.t;
    sent : list (gostring * option error);
    returned : bool }.

(** The running server: the database, the connections in the order in
    which they were accepted, and whether a goroutine has panicked
    (which ends the process). *)
Record Server : Type :=
  { store : DB;
    conns : list Conn;
    crashed : bool }.

Inductive Event : Type :=
| Accepted (remote : gostring) (fault : option error)
           (werr : nat -> option error)    (* [go handleConn(conn)] starts *)
| LineRead (i : nat) (raw : gostring) (env : Env)
                                           (* connection [i] reads a line *)
| ReadFailed (i : nat).                    (* the read of connection [i] fails *)

(** The state of [handleConn] for connection [c] of the server [s]. *)
Definition view (s : Server) (c : Conn) : State :=
  {| db := store s; currentUser := user c; written := sent c |}.

Definition replaceConn (i : nat) (c : Conn) (cs : list Conn) : list Conn :=
  firstn i cs ++ c :: skipn (S i) cs.

Definition serverStep (s : Server) (ev : Event) : Server :=
  if crashed s then s else
  match ev with
  | Accepted remote fault werr =>
    let st := startState fault werr (store s) in
    {| store := db st;
       conns := conns s ++ [{| origin := remote; user := currentUser st;
                               sent := written st; returned := false |}];
       crashed := false |}
  | LineRead i raw env =>
    match nth_error (conns s) i with
    | Some c =>
      if returned c then s else
      let '(st, out) := body (origin c) (view s c) raw env in
      {| store := db st;
         conns := replaceConn i
                    {| origin := origin c; user := currentUser st;
                       sent := written st;
                       returned := match out with
                                   | Continue => false
                                   | _ => true
                                   end |}
                    (conns s);
         crashed := match out with Panicked => true | _ => false end |}
    | None => s
    end
  | ReadFailed i =>
    match nth_error (conns s) i with
    | Some c =>
      {| store := store s;
         conns := replaceConn i
                    {| origin := origin c; user := user c; sent := sent c;
                       returned := true |}
                    (conns s);
         crashed := false |}
    | None => s
    end
  end.

(** [main()] on the database [d] that it opens: the server after the
    given events. *)
Definition main (d : DB) (events : list Event) : Server :=
  fold_left serverStep events {| store := d; conns := []; crashed := false |}.

(** Every author recorded in the log is the key and the name of an
    entry of the users table. *)
Definition authorsValid (d : DB) : Prop :=
  forall m id,
    In m (messages d) -> Message.UserID m = Some id ->
    exists u, In u (users d) /\ User.ID u = id
              /\ User.Name u = Message.UserName m.

(** An event that brings no line feed but the one that ends the line
    read. *)
Definition cleanEvent (ev : Event) : bool :=
  match ev with
  | Accepted remote _ _ => noNL remote
  | LineRead _ raw env => cleanRead (raw, env)
  | ReadFailed _ => true
  end.

(** The later server has what the earlier one has: the rows of both
    tables, and every connection, with its origin and its writes; a
    session that was bound is bound, and a connection whose goroutine
    had returned is as it was. *)
Definition grows (s1 s2 : Server) : Prop :=
  (exists us, users (store s2) = users (store s1) ++ us)
  /\ (exists ms, messages (store s2) = messages (store s1) ++ ms)
  /\ forall i c1,
      nth_error (conns s1) i = Some c1 ->
      exists c2,
        nth_error (conns s2) i = Some c2
        /\ origin c2 = origin c1
        /\ (exists ws, sent c2 = sent c1 ++ ws)
        /\ (user c1 <> None -> user c2 <> None)
        /\ (returned c1 = true -> c2 = c1).

(** The verbs whose reply is computed from the fields of the line. *)
Definition fieldVerb (t : gostring) : bool :=
  streq t (str "echo") || streq t (str "add") || streq t (str "mul").

(** * Properties *)

(** ** The models on concrete input *)

Example Fields_ex :
  strings.Fields (str "  add 3x   5 ") = [str "add"; str "3x"; str "5"].
Proof. vm_compute. reflexivity. Qed.

Example TrimSpace_ex :
  strings.TrimSpace
    ([" "; "009"; ascii_of_nat 194; ascii_of_nat 160]%char ++ str "hi  you"
       ++ [ascii_of_nat 226; ascii_of_nat 128; ascii_of_nat 137] ++ nl)
  = str "hi  you".
Proof. vm_compute. reflexivity. Qed.

Example TrimSpace_utf8_end :
  strings.TrimSpace (str "  h" ++ [ascii_of_nat 195; ascii_of_nat 169] ++ str " " ++ nl)
  = str "h" ++ [ascii_of_nat 195; ascii_of_nat 169].
Proof. vm_compute. reflexivity. Qed.

Example TrimSpace_truncated_end :
  strings.TrimSpace (str "a" ++ [ascii_of_nat 226; ascii_of_nat 128] ++ str "  ")
  = str "a" ++ [ascii_of_nat 226; ascii_of_nat 128].
Proof. vm_compute. reflexivity. Qed.

Example TrimSpace_blank :
  strings.TrimSpace (str "   " ++ [ascii_of_nat 194; ascii_of_nat 160] ++ nl) = [].
Proof. vm_compute. reflexivity. Qed.

Example Fields_nbsp :
  strings.Fields (str "a" ++ [ascii_of_nat 194; ascii_of_nat 160] ++ str "b"
                      ++ [ascii_of_nat 160] ++ str "c")
  = [str "a"; str "b" ++ [ascii_of_nat 160] ++ str "c"].
Proof. vm_compute. reflexivity. Qed.

Example Sscanf_ex1 : fmt.Sscanf_d (str "-42") = Some (-42).
Proof. vm_compute. reflexivity. Qed.

Example Sscanf_ex2 : fmt.Sscanf_d (str "x3") = None.
Proof. vm_compute. reflexivity. Qed.

Example Sscanf_ex3 : fmt.Sscanf_d (str "9223372036854775808") = None.
Proof. vm_compute. reflexivity. Qed.

Example Sscanf_ex4 : fmt.Sscanf_d (str "+") = None.
Proof. vm_compute. reflexivity. Qed.

Example int_add_ex : int_add (2 ^ 63 - 1) 1 = - 2 ^ 63.
Proof. vm_compute. reflexivity. Qed.

Example reply_add : replyFor (str "add 3 5") = Ret (str "8").
Proof. vm_compute. reflexivity. Qed.

Example reply_mul : replyFor (str "mul -3 5") = Ret (str "-15").
Proof. vm_compute. reflexivity. Qed.

Example reply_add_x : replyFor (str "add 3 x") = Ret (str "ERR: add expects two integers").
Proof. vm_compute. reflexivity. Qed.

Example timestamp_epoch :
  sqlite3.timestamp 0 = str "1970-01-01 00:00:00+00:00".
Proof. vm_compute. reflexivity. Qed.

Example timestamp_fraction :
  sqlite3.timestamp {| unixNano := 951868799 * 10 ^ 9 + 250000000;
                       zoneOffset := -330 |}
  = str "2000-02-29 18:29:59.25-05:30".
Proof. vm_compute. reflexivity. Qed.

Example timestamp_before_epoch :
  sqlite3.timestamp {| unixNano := -1; zoneOffset := 60 |}
  = str "1970-01-01 00:59:59.999999999+01:00".
Proof. vm_compute. reflexivity. Qed.

Example timestamp_year_one :
  sqlite3.timestamp (-62135596800) = str "0001-01-01 00:00:00+00:00".
Proof. vm_compute. reflexivity. Qed.

Example timestamp_march :
  sqlite3.timestamp 1709251200 = str "2024-03-01 00:00:00+00:00"
  /\ sqlite3.timestamp (-2203848000) = str "1900-03-01 12:00:00+00:00"
  /\ sqlite3.timestamp 253402300799 = str "9999-12-31 23:59:59+00:00".
Proof. vm_compute. repeat split. Qed.

Example reply_bytes : replyFor (str "bytes hello world") = Ret (str "11").
Proof. vm_compute. reflexivity. Qed.

Example reply_words : replyFor (str "words hello world") = Ret (str "2").
Proof. vm_compute. reflexivity. Qed.

Example reply_echo0 : replyFor (str "echo") = Ret [].
Proof. vm_compute. reflexivity. Qed.

Example reply_echo3 : replyFor (str "echo a  b c") = Ret (str "a b c").
Proof. vm_compute. reflexivity. Qed.

Example reply_other : replyFor (str "foo bar") = Ret (str "foo bar from server").
Proof. vm_compute. reflexivity. Qed.


(** ** Strings, bytes and runes *)

Lemma streq_refl (a : gostring) : streq a a = true.
Proof.
  induction a as [|c a IH]; simpl; [reflexivity|].
  now rewrite Ascii.eqb_refl, IH.
Qed.

Lemma streq_eq (a b : gostring) : streq a b = true <-> a = b.
Proof.
  split; [|intros ->; apply streq_refl].
  revert b; induction a as [|c a IH]; intros [|d b]; simpl; try discriminate; auto.
  intros H; apply andb_true_iff in H as [H1 H2].
  apply Ascii.eqb_eq in H1; apply IH in H2; congruence.
Qed.

Lemma streq_neq (a b : gostring) : streq a b = false <-> a <> b.
Proof.
  split.
  - intros H E; apply streq_eq in E; congruence.
  - intros H; destruct (streq a b) eqn:E; [apply streq_eq in E; contradiction|reflexivity].
Qed.

Lemma streq_nil (a : gostring) : streq a [] = true <-> a = [].
Proof. apply (streq_eq a []). Qed.

Lemma streq_nil_false (a : gostring) : a <> [] -> streq a [] = false.
Proof. apply (streq_neq a []). Qed.

Lemma byteval_range (c : ascii) : 0 <= byteval c < 256.
Proof.
  unfold byteval; pose proof (N_ascii_bounded c); lia.
Qed.

Lemma first_Lead (z : Z) (sz : nat) (lo hi : Z) :
  utf8.first z = utf8.Lead sz lo hi ->
  (sz = 2 \/ sz = 3 \/ sz = 4)%nat /\ 0x80 <= lo /\ 0xC2 <= z.
Proof.
  unfold utf8.first, utf8.locb, utf8.hicb.
  repeat match goal with
         | |- context [if ?b then _ else _] => destruct b eqn:?
         end; intros H; inversion H; subst; lia.
Qed.

Lemma first_AS (z : Z) : utf8.first z = utf8.AS <-> z < 0x80.
Proof.
  unfold utf8.first.
  repeat match goal with
         | |- context [if ?b then _ else _] => destruct b eqn:?
         end; split; intros H; try discriminate; try reflexivity; lia.
Qed.

Lemma Decode_ascii (c : ascii) (t : gostring) :
  byteval c < 0x80 ->
  utf8.DecodeRuneInString (c :: t) = (byteval c, 1%nat).
Proof.
  intros H; apply first_AS in H; unfold utf8.DecodeRuneInString; now rewrite H.
Qed.

Ltac split_ifs :=
  repeat match goal with
         | |- context [if ?b then _ else _] => destruct b eqn:?
         end.

(** The width of a decoded rune is at least one byte and at most the
    bytes there are. *)
Lemma Decode_size (s : gostring) (r : Z) (n : nat) :
  s <> [] -> utf8.DecodeRuneInString s = (r, n) -> (1 <= n <= length s)%nat.
Proof.
  intros Hne; unfold utf8.DecodeRuneInString.
  destruct s as [|c0 t]; [congruence|].
  destruct (utf8.first (byteval c0)) eqn:F.
  - intros H; inversion H; simpl; lia.
  - intros H; inversion H; simpl; lia.
  - apply first_Lead in F as [Hsz _].
    destruct t as [|c1 [|c2 [|c3 t]]]; simpl length;
      destruct Hsz as [-> | [-> | ->]]; simpl;
      split_ifs; intros H; inversion H; lia.
Qed.

(** Decoding looks at the bytes of the rune only: what follows a
    complete, valid encoding does not matter, and a string that decodes
    differently once bytes are appended starts with an incomplete
    encoding. *)
Lemma Decode_ext (x y : gostring) :
  x <> [] ->
  utf8.DecodeRuneInString (x ++ y) = utf8.DecodeRuneInString x
  \/ utf8.DecodeRuneInString x = (utf8.RuneError, 1%nat).
Proof.
  intros Hne; unfold utf8.DecodeRuneInString.
  destruct x as [|c0 x]; [congruence|].
  rewrite <- app_comm_cons.
  destruct (utf8.first (byteval c0)) eqn:F; auto.
  apply first_Lead in F as [Hsz _].
  destruct x as [|c1 [|c2 [|c3 x]]]; simpl;
    destruct Hsz as [-> | [-> | ->]]; simpl;
    split_ifs; auto.
Qed.

Lemma runesFrom_skip (t : gostring) :
  forall k, (k <= length t)%nat -> runesFrom k t = runes (skipn k t).
Proof.
  induction t as [|c t IH]; intros k Hk.
  - simpl in Hk; now replace k with 0%nat by lia.
  - destruct k as [|k]; [reflexivity|].
    simpl in *; apply IH; lia.
Qed.

(** One step of the iteration over the runes of a string. *)
Lemma runes_cons (c : ascii) (t : gostring) :
  runes (c :: t) =
  (fst (utf8.DecodeRuneInString (c :: t)),
   firstn (snd (utf8.DecodeRuneInString (c :: t))) (c :: t))
    :: runes (skipn (snd (utf8.DecodeRuneInString (c :: t))) (c :: t)).
Proof.
  unfold runes at 1; cbn [runesFrom].
  destruct (utf8.DecodeRuneInString (c :: t)) as [r n] eqn:D.
  assert (Hn : (1 <= n <= length (c :: t))%nat)
    by (eapply Decode_size; [discriminate | exact D]).
  cbn [fst snd]; f_equal.
  destruct n as [|n]; [lia|].
  simpl in *; rewrite Nat.sub_0_r; apply runesFrom_skip; lia.
Qed.

Lemma runes_ascii (c : ascii) (t : gostring) :
  byteval c < 0x80 -> runes (c :: t) = (byteval c, [c]) :: runes t.
Proof.
  intros H; rewrite runes_cons, Decode_ascii by assumption; reflexivity.
Qed.

Lemma IsSpace_RuneError : unicode.IsSpace utf8.RuneError = false.
Proof. reflexivity. Qed.

(** A field that has been started is always delivered. *)
Lemma fieldsLoop_started (f : Z -> bool) (rs : list (Z * gostring)) (w : gostring) :
  strings.fieldsLoop f rs (Some w) <> [].
Proof.
  revert w; induction rs as [|[r bs] rs IH]; intros w; simpl.
  - discriminate.
  - destruct (f r); [discriminate | apply IH].
Qed.

(** A string that starts with a rune that is no space has a field. *)
Lemma Fields_nonempty (s : gostring) :
  s <> [] ->
  unicode.IsSpace (fst (utf8.DecodeRuneInString s)) = false ->
  strings.Fields s <> [].
Proof.
  intros Hne Hsp; destruct s as [|c t]; [congruence|].
  unfold strings.Fields, strings.FieldsFunc.
  rewrite runes_cons; cbn [strings.fieldsLoop]; rewrite Hsp.
  apply fieldsLoop_started.
Qed.

(** [indexFunc] with [truth = false] stops in front of a rune on which
    [f] is false. *)
Lemma indexLoop_found (f : Z -> bool) :
  forall (n : nat) (s : gostring) (i0 : nat),
    (length s <= n)%nat ->
    strings.indexLoop f false (runes s) i0 <> -1 ->
    exists k : nat,
      strings.indexLoop f false (runes s) i0 = Z.of_nat (i0 + k)
      /\ (k < length s)%nat
      /\ f (fst (utf8.DecodeRuneInString (skipn k s))) = false.
Proof.
  induction n as [|n IH]; intros s i0 Hlen H.
  - destruct s; [simpl in H; congruence | simpl in Hlen; lia].
  - destruct s as [|c t]; [simpl in H; congruence|].
    revert H; rewrite runes_cons; cbn [strings.indexLoop].
    destruct (utf8.DecodeRuneInString (c :: t)) as [r m] eqn:D.
    assert (Hm : (1 <= m <= length (c :: t))%nat)
      by (eapply Decode_size; [discriminate | exact D]).
    cbn [fst snd].
    destruct (f r) eqn:Fr; cbn [Bool.eqb].
    + intros H.
      rewrite length_firstn, Nat.min_l in * by lia.
      destruct (IH (skipn m (c :: t)) (i0 + m)%nat) as (k & E & Hk & Hf).
      * rewrite length_skipn; cbn [length] in *; lia.
      * exact H.
      * rewrite length_skipn in Hk.
        exists (m + k)%nat; repeat split.
        -- rewrite E; f_equal; lia.
        -- lia.
        -- rewrite Nat.add_comm, <- skipn_skipn; exact Hf.
    + intros _; exists 0%nat; repeat split.
      * f_equal; lia.
      * simpl; lia.
      * simpl skipn; rewrite D; exact Fr.
Qed.

(** What [TrimLeftFunc] returns is empty or starts with a rune on which
    [f] is false. *)
Lemma TrimLeftFunc_head (s : gostring) (f : Z -> bool) :
  strings.TrimLeftFunc s f <> [] ->
  f (fst (utf8.DecodeRuneInString (strings.TrimLeftFunc s f))) = false.
Proof.
  unfold strings.TrimLeftFunc, strings.indexFunc.
  destruct (strings.indexLoop f false (runes s) 0 =? -1) eqn:E; [congruence|].
  apply Z.eqb_neq in E.
  destruct (indexLoop_found f (length s) s 0 (le_n _) E) as (k & Ek & _ & Hf).
  rewrite Ek, Nat.add_0_l, Nat2Z.id; intros _; exact Hf.
Qed.

(** What [TrimRightFunc] returns is a prefix of its argument. *)
Lemma TrimRightFunc_prefix (s : gostring) (f : Z -> bool) :
  exists k : nat, strings.TrimRightFunc s f = firstn k s.
Proof. unfold strings.TrimRightFunc; eexists; reflexivity. Qed.

(** A non-empty prefix of a string that starts with a rune that is no
    space starts with such a rune too. *)
Lemma prefix_head_nospace (s : gostring) (k : nat) :
  firstn k s <> [] ->
  unicode.IsSpace (fst (utf8.DecodeRuneInString s)) = false ->
  unicode.IsSpace (fst (utf8.DecodeRuneInString (firstn k s))) = false.
Proof.
  intros Hne Hs.
  destruct (Decode_ext (firstn k s) (skipn k s) Hne) as [E | E].
  - rewrite firstn_skipn in E; now rewrite <- E.
  - now rewrite E.
Qed.

(** After trimming, a line is empty or has a first field. *)
Lemma Fields_TrimSpace (raw : gostring) :
  strings.TrimSpace raw <> [] -> strings.Fields (strings.TrimSpace raw) <> [].
Proof.
  unfold strings.TrimSpace, strings.TrimFunc; intros Hne.
  destruct (TrimRightFunc_prefix (strings.TrimLeftFunc raw unicode.IsSpace)
                                 unicode.IsSpace) as [k Ek].
  rewrite Ek in *.
  apply Fields_nonempty; [exact Hne|].
  apply prefix_head_nospace; [exact Hne|].
  apply TrimLeftFunc_head.
  intros E; rewrite E in Hne; destruct k; simpl in Hne; congruence.
Qed.

(** ** Tokens *)

Lemma Decode_ext_ascii (x : gostring) (c : ascii) (y : gostring) :
  x <> [] -> byteval c < 0x80 ->
  utf8.DecodeRuneInString (x ++ c :: y) = utf8.DecodeRuneInString x.
Proof.
  intros Hne Hc; unfold utf8.DecodeRuneInString.
  destruct x as [|c0 x]; [congruence|].
  rewrite <- app_comm_cons.
  destruct (utf8.first (byteval c0)) eqn:F; auto.
  apply first_Lead in F as (Hsz & Hlo & _).
  assert (O1 : utf8.outside lo hi (byteval c) = true)
    by (unfold utf8.outside; apply orb_true_iff; left; apply Z.ltb_lt; lia).
  assert (O2 : utf8.outside utf8.locb utf8.hicb (byteval c) = true)
    by (unfold utf8.outside, utf8.locb; apply orb_true_iff; left; apply Z.ltb_lt; lia).
  destruct x as [|c1 [|c2 [|c3 x]]]; simpl;
    destruct Hsz as [-> | [-> | ->]]; simpl;
    repeat first [ rewrite O1 | rewrite O2
                 | match goal with
                   | |- context [if ?b then _ else _] => destruct b eqn:?
                   end ]; auto.
Qed.

Lemma runesFrom_app_ascii (c : ascii) (y : gostring) :
  byteval c < 0x80 ->
  forall (a : gostring) (k : nat),
    (k <= length a)%nat ->
    runesFrom k (a ++ c :: y) = runesFrom k a ++ runes (c :: y).
Proof.
  intros Hc; induction a as [|a0 a IH]; intros k Hk.
  - simpl in Hk; replace k with 0%nat by lia; reflexivity.
  - destruct k as [|k].
    + rewrite <- app_comm_cons; cbn [runesFrom].
      rewrite app_comm_cons, Decode_ext_ascii by (assumption || discriminate).
      destruct (utf8.DecodeRuneInString (a0 :: a)) as [r n] eqn:D.
      assert (Hn : (1 <= n <= length (a0 :: a))%nat)
        by (eapply Decode_size; [discriminate | exact D]).
      rewrite <- app_comm_cons, <- app_comm_cons; f_equal.
      * f_equal; rewrite app_comm_cons, firstn_app.
        replace (n - length (a0 :: a))%nat with 0%nat by lia.
        now rewrite firstn_O, app_nil_r.
      * apply IH; simpl in Hn; lia.
    + simpl in *; apply IH; lia.
Qed.

(** The runes of a string followed by an ASCII byte are the runes of the
    string, then those of the rest. *)
Lemma runes_app_ascii (a : gostring) (c : ascii) (y : gostring) :
  byteval c < 0x80 -> runes (a ++ c :: y) = runes a ++ runes (c :: y).
Proof.
  intros Hc; apply (runesFrom_app_ascii c y Hc a 0); lia.
Qed.

(** The bytes of the runes of a string are the string. *)
Lemma runes_concat :
  forall (n : nat) (s : gostring),
    (length s <= n)%nat -> concat (map snd (runes s)) = s.
Proof.
  induction n as [|n IH]; intros s Hlen.
  - destruct s; [reflexivity | simpl in Hlen; lia].
  - destruct s as [|c t]; [reflexivity|].
    rewrite runes_cons.
    destruct (utf8.DecodeRuneInString (c :: t)) as [r m] eqn:D.
    assert (Hm : (1 <= m <= length (c :: t))%nat)
      by (eapply Decode_size; [discriminate | exact D]).
    cbn [fst snd map concat].
    rewrite IH, firstn_skipn; [reflexivity|].
    rewrite length_skipn; cbn [length] in *; lia.
Qed.

Lemma ext_app (cur : option gostring) (u v : gostring) :
  ext (Some (ext cur u)) v = ext cur (u ++ v).
Proof. destruct cur; simpl; [now rewrite app_assoc | reflexivity]. Qed.

(** Runes that are no spaces all join the field under construction. *)
Lemma fieldsLoop_nospace (f : Z -> bool) (R : list (Z * gostring)) :
  forall (rs : list (Z * gostring)) (cur : option gostring),
    rs <> [] ->
    forallb (fun rb => negb (f (fst rb))) rs = true ->
    strings.fieldsLoop f (rs ++ R) cur =
    strings.fieldsLoop f R (Some (ext cur (concat (map snd rs)))).
Proof.
  induction rs as [|[r bs] rs IH]; intros cur Hne Hall; [congruence|].
  simpl in Hall; apply andb_true_iff in Hall as [Hr Hall].
  apply negb_true_iff in Hr.
  rewrite <- app_comm_cons; cbn [strings.fieldsLoop]; rewrite Hr.
  destruct rs as [|rb rs].
  - simpl; rewrite app_nil_r; destruct cur; reflexivity.
  - rewrite IH by (discriminate || assumption).
    change (Some (match cur with Some w => w ++ bs | None => bs end))
      with (Some (ext cur bs)).
    now rewrite ext_app.
Qed.

Lemma isToken_runes (a : gostring) :
  isToken a = true ->
  a <> [] /\ runes a <> []
  /\ forallb (fun rb => negb (unicode.IsSpace (fst rb))) (runes a) = true.
Proof.
  unfold isToken; intros H; apply andb_true_iff in H as [H1 H2].
  apply negb_true_iff, streq_neq in H1.
  repeat split; auto.
  destruct a as [|c t]; [now elim H1|].
  rewrite runes_cons; discriminate.
Qed.

(** A token followed by a blank: the token is delivered as one field. *)
Lemma fields_token_blank (a rest : gostring) (cur : option gostring) :
  isToken a = true ->
  strings.fieldsLoop unicode.IsSpace (runes (a ++ str " " ++ rest)) cur =
  ext cur a :: strings.fieldsLoop unicode.IsSpace (runes rest) None.
Proof.
  intros Ha; apply isToken_runes in Ha as (_ & Hne & Hall).
  change (str " " ++ rest) with (" "%char :: rest).
  rewrite runes_app_ascii by reflexivity.
  rewrite fieldsLoop_nospace by assumption.
  rewrite (runes_concat (length a)) by lia.
  rewrite runes_ascii by reflexivity.
  reflexivity.
Qed.

(** A token at the end of the line is the last field. *)
Lemma fields_token_end (a : gostring) (cur : option gostring) :
  isToken a = true ->
  strings.fieldsLoop unicode.IsSpace (runes a) cur = [ext cur a].
Proof.
  intros Ha; apply isToken_runes in Ha as (_ & Hne & Hall).
  rewrite <- (app_nil_r (runes a)).
  rewrite fieldsLoop_nospace by assumption.
  rewrite (runes_concat (length a)) by lia.
  reflexivity.
Qed.

(** The fields of a line made of a word of the source and two tokens. *)
Lemma Fields_word_two_tokens (w a b : gostring) :
  isToken w = true -> isToken a = true -> isToken b = true ->
  strings.Fields (w ++ str " " ++ a ++ str " " ++ b) = [w; a; b].
Proof.
  intros Hw Ha Hb; unfold strings.Fields, strings.FieldsFunc.
  rewrite (fields_token_blank w _ None Hw).
  rewrite (fields_token_blank a _ None Ha).
  rewrite (fields_token_end b None Hb).
  reflexivity.
Qed.

Ltac cmp_decide :=
  repeat match goal with
         | |- context [?a =? ?b] =>
           replace (a =? b) with false by (symmetry; apply Z.eqb_neq; lia)
         | |- context [?a <=? ?b] =>
           first [ replace (a <=? b) with false by (symmetry; apply Z.leb_gt; lia)
                 | replace (a <=? b) with true by (symmetry; apply Z.leb_le; lia) ]
         end.

Lemma isDigit_range (c : ascii) : fmt.isDigit c = true -> 48 <= byteval c <= 57.
Proof.
  unfold fmt.isDigit; intros H; apply andb_true_iff in H as [H1 H2].
  apply Z.leb_le in H1, H2; lia.
Qed.

Lemma digit_nospace (r : Z) : 48 <= r <= 57 -> unicode.IsSpace r = false.
Proof. intros H; unfold unicode.IsSpace; cmp_decide; reflexivity. Qed.

Lemma plain_runes (a : gostring) :
  forallb plainByte a = true ->
  forallb (fun rb => negb (unicode.IsSpace (fst rb))) (runes a) = true.
Proof.
  induction a as [|c a IH]; intros H; [reflexivity|].
  cbn [forallb] in H; apply andb_true_iff in H as [Hc Ha].
  unfold plainByte in Hc; apply andb_true_iff in Hc as [Hlt Hsp].
  apply Z.ltb_lt in Hlt.
  rewrite runes_ascii by exact Hlt.
  cbn [forallb fst]; rewrite Hsp; apply IH, Ha.
Qed.

Lemma plain_isToken (a : gostring) :
  a <> [] -> forallb plainByte a = true -> isToken a = true.
Proof.
  intros Hne Ha; unfold isToken.
  now rewrite (streq_nil_false a Hne), plain_runes.
Qed.

Lemma isDigit_plain (c : ascii) : fmt.isDigit c = true -> plainByte c = true.
Proof.
  intros H; apply isDigit_range in H; unfold plainByte.
  rewrite (digit_nospace _ H).
  apply andb_true_iff; split; [apply Z.ltb_lt; lia | reflexivity].
Qed.

Lemma digits_plain (ds : gostring) :
  forallb fmt.isDigit ds = true -> forallb plainByte ds = true.
Proof.
  induction ds as [|d ds IH]; intros H; [reflexivity|].
  cbn [forallb] in *; apply andb_true_iff in H as [Hd Hds].
  now rewrite (isDigit_plain d Hd), IH.
Qed.

(** A valid integer token is a token. *)
Lemma isIntToken_isToken (a : gostring) : isIntToken a = true -> isToken a = true.
Proof.
  destruct a as [|c ds]; [discriminate|]; unfold isIntToken.
  intros H; apply plain_isToken; [discriminate|].
  destruct (Ascii.eqb c "+" || Ascii.eqb c "-") eqn:E.
  - apply andb_true_iff in H as [_ H].
    cbn [forallb]; rewrite (digits_plain ds H), andb_true_r.
    apply orb_true_iff in E as [E | E]; apply Ascii.eqb_eq in E; subst c; reflexivity.
  - now apply digits_plain.
Qed.

(** ** The reply to a payload line *)

Lemma int_add_comm (x y : Z) : int_add x y = int_add y x.
Proof. unfold int_add; now rewrite Z.add_comm. Qed.

Lemma int_mul_comm (x y : Z) : int_mul x y = int_mul y x.
Proof. unfold int_mul; now rewrite Z.mul_comm. Qed.

Lemma replyFor_add (a b : gostring) :
  isToken a = true -> isToken b = true ->
  replyFor (str "add " ++ a ++ str " " ++ b) =
  match fmt.Sscanf_d a, fmt.Sscanf_d b with
  | Some ai, Some bi => Ret (fmt.Sprintf_d (int_add ai bi))
  | _, _ => Ret (str "ERR: add expects two integers")
  end.
Proof.
  intros Ha Hb; unfold replyFor.
  change (str "add " ++ a ++ str " " ++ b)
    with (str "add" ++ str " " ++ a ++ str " " ++ b).
  rewrite Fields_word_two_tokens by (reflexivity || assumption).
  reflexivity.
Qed.

Lemma replyFor_mul (a b : gostring) :
  isToken a = true -> isToken b = true ->
  replyFor (str "mul " ++ a ++ str " " ++ b) =
  match fmt.Sscanf_d a, fmt.Sscanf_d b with
  | Some ai, Some bi => Ret (fmt.Sprintf_d (int_mul ai bi))
  | _, _ => Ret (str "ERR: mul expects two integers")
  end.
Proof.
  intros Ha Hb; unfold replyFor.
  change (str "mul " ++ a ++ str " " ++ b)
    with (str "mul" ++ str " " ++ a ++ str " " ++ b).
  rewrite Fields_word_two_tokens by (reflexivity || assumption).
  reflexivity.
Qed.

(** C8. For all tokens [a] and [b] (integer tokens in particular), the
    reply to the payload line [add a b] is the reply to [add b a], and the
    reply to [mul a b] is the reply to [mul b a]. *)
Theorem add_mul_commute (a b : gostring) :
  isToken a = true -> isToken b = true ->
  replyFor (str "add " ++ a ++ str " " ++ b)
  = replyFor (str "add " ++ b ++ str " " ++ a)
  /\ replyFor (str "mul " ++ a ++ str " " ++ b)
     = replyFor (str "mul " ++ b ++ str " " ++ a).
Proof.
  intros Ha Hb.
  rewrite !replyFor_add, !replyFor_mul by assumption.
  destruct (fmt.Sscanf_d a) as [ai|], (fmt.Sscanf_d b) as [bi|]; try (split; reflexivity).
  now rewrite (int_add_comm ai bi), (int_mul_comm ai bi).
Qed.

Lemma add_mul_commute_witness :
  isToken (str "3") = true /\ isToken (str "5") = true
  /\ replyFor (str "add 3 5") = replyFor (str "add 5 3")
  /\ replyFor (str "mul 3 5") = replyFor (str "mul 5 3").
Proof.
  split; [reflexivity|]; split; [reflexivity|].
  apply (add_mul_commute (str "3") (str "5")); reflexivity.
Defined.

Lemma Fields_word_rest (w rest : gostring) :
  isToken w = true ->
  strings.Fields (w ++ str " " ++ rest) = w :: strings.Fields rest.
Proof.
  intros Hw; unfold strings.Fields, strings.FieldsFunc.
  now rewrite (fields_token_blank w rest None Hw).
Qed.

(** C9. The reply to a payload line that begins with the literal prefix
    [bytes ] is the byte length of everything after the prefix; the reply
    to one that begins with [words ] is the number of white-space
    delimited tokens after the prefix. *)
Theorem bytes_words_reply (rest : gostring) :
  replyFor (str "bytes " ++ rest)
  = Ret (str (NilZero.string_of_uint (N.to_uint (N.of_nat (length rest)))))
  /\ replyFor (str "words " ++ rest)
     = Ret (str (NilZero.string_of_uint
                   (N.to_uint (N.of_nat (length (strings.Fields rest)))))).
Proof.
  assert (Hd : forall n : nat,
             fmt.Sprintf_d (Z.of_nat n)
             = str (NilZero.string_of_uint (N.to_uint (N.of_nat n)))).
  { intros n; unfold fmt.Sprintf_d; rewrite <- nat_N_Z.
    destruct (N.of_nat n); reflexivity. }
  split; unfold replyFor.
  - change (str "bytes " ++ rest) with (str "bytes" ++ str " " ++ rest).
    rewrite Fields_word_rest by reflexivity.
    rewrite <- Hd; reflexivity.
  - change (str "words " ++ rest) with (str "words" ++ str " " ++ rest).
    rewrite Fields_word_rest by reflexivity.
    rewrite <- Hd; reflexivity.
Qed.

(** ** What the verb [%d] accepts *)

(** Nothing is skipped in front of a digit. *)
Lemma SkipSpace_digit (c : ascii) (t : gostring) :
  fmt.isDigit c = true -> fmt.SkipSpace (c :: t) = Some (c :: t).
Proof.
  intros H; apply isDigit_range in H.
  unfold fmt.SkipSpace; rewrite runes_ascii by lia.
  cbn [fmt.skipSpaceLoop].
  rewrite (digit_nospace _ H).
  replace (byteval c =? 13) with false by (symmetry; apply Z.eqb_neq; lia).
  replace (byteval c =? 10) with false by (symmetry; apply Z.eqb_neq; lia).
  cbn [andb map snd concat app].
  now rewrite (runes_concat (length t)) by lia.
Qed.

(** The digits are read up to the first byte that is none. *)
Lemma scanNumber_app (ds junk : gostring) :
  forallb fmt.isDigit ds = true ->
  match junk with [] => true | c :: _ => negb (fmt.isDigit c) end = true ->
  fmt.scanNumber (ds ++ junk) = (ds, junk).
Proof.
  intros Hds Hj; induction ds as [|d ds IH]; simpl in *.
  - destruct junk as [|c junk]; [reflexivity|].
    apply negb_true_iff in Hj; simpl; now rewrite Hj.
  - apply andb_true_iff in Hds as [Hd Hds].
    now rewrite Hd, IH.
Qed.

(** Every string that starts with digits is scanned without error, as the
    number its leading digits denote: what follows the digits is not
    looked at. *)
Lemma Sscanf_d_prefix (ds junk : gostring) :
  ds <> [] -> forallb fmt.isDigit ds = true ->
  match junk with [] => true | c :: _ => negb (fmt.isDigit c) end = true ->
  fmt.Sscanf_d (ds ++ junk) =
  if strconv.decimal ds <=? 2 ^ 63 - 1 then Some (strconv.decimal ds) else None.
Proof.
  intros Hne Hds Hj.
  destruct ds as [|d ds]; [congruence|].
  pose proof Hds as Hd; simpl in Hd; apply andb_true_iff in Hd as [Hd _].
  pose proof (isDigit_range d Hd) as Hr.
  unfold fmt.Sscanf_d, fmt.scanInt.
  rewrite <- app_comm_cons, SkipSpace_digit by exact Hd.
  assert (E1 : Ascii.eqb d "+" = false).
  { destruct (Ascii.eqb d "+") eqn:E; [|reflexivity].
    apply Ascii.eqb_eq in E; subst d; change (byteval "+") with 43 in Hr; lia. }
  assert (E2 : Ascii.eqb d "-" = false).
  { destruct (Ascii.eqb d "-") eqn:E; [|reflexivity].
    apply Ascii.eqb_eq in E; subst d; change (byteval "-") with 45 in Hr; lia. }
  rewrite E1, E2, app_comm_cons, (scanNumber_app (d :: ds) junk Hds Hj).
  unfold strconv.ParseInt.
  assert (Hpos : 0 <= strconv.decimal (d :: ds)).
  { unfold strconv.decimal.
    assert (G : forall l acc, forallb fmt.isDigit l = true -> 0 <= acc ->
                0 <= fold_left (fun a c => 10 * a + strconv.digitVal c) l acc).
    { induction l as [|x l IHl]; intros acc Hl Hacc; cbn [fold_left]; [exact Hacc|].
      cbn [forallb] in Hl; apply andb_true_iff in Hl as [Hx Hl].
      apply IHl; [exact Hl|].
      apply isDigit_range in Hx; unfold strconv.digitVal; lia. }
    apply G; [exact Hds | lia]. }
  replace (- 2 ^ 63 <=? strconv.decimal (d :: ds)) with true
    by (symmetry; apply Z.leb_le; lia).
  cbn [andb].
  destruct (strconv.decimal (d :: ds) <=? 2 ^ 63 - 1); reflexivity.
Qed.

(** C1, at the input on which the code departs from it: the token [3x]
    is read as the integer 3 and the reply is a number. *)
Theorem add_partial_token_accepted :
  replyFor (str "add 3x 5") = Ret (str "8")
  /\ replyFor (str "mul 3x 5") = Ret (str "15")
  /\ fmt.Sscanf_d (str "3x") = Some 3.
Proof. repeat split; vm_compute; reflexivity. Qed.


(** ** The command dispatcher *)

Lemma CreateUser_error (f : option error) (d : DB) (u : User.t)
      (d' : DB) (u' : User.t) (e : error) :
  gorm.CreateUser f d u = (d', u', Some e) -> d' = d.
Proof.
  unfold gorm.CreateUser; destruct f; [congruence|].
  destruct (existsb _ _); congruence.
Qed.

Lemma CreateUser_ok (f : option error) (d : DB) (u : User.t)
      (d' : DB) (u' : User.t) :
  gorm.CreateUser f d u = (d', u', None) ->
  messages d' = messages d /\ users d' = users d ++ [u']
  /\ User.Name u' = User.Name u /\ nameExists d (User.Name u) = false.
Proof.
  unfold gorm.CreateUser, nameExists; destruct f; [congruence|].
  destruct (existsb _ _); [congruence|].
  intros H; inversion H; subst; auto.
Qed.

Ltac cmd_cases :=
  unfold handleCommand;
  repeat match goal with
         | |- context [match ?x with _ => _ end] => destruct x eqn:?
         end.

Ltac cmd_inv :=
  repeat match goal with
         | E : gorm.CreateUser _ _ _ = (_, _, Some _) |- _ =>
           apply CreateUser_error in E; subst
         | E : gorm.CreateUser _ _ _ = (_, _, None) |- _ =>
           apply CreateUser_ok in E; destruct E as (? & ? & ? & ?)
         end.

(** [handleCommand] panics on a line without fields only. *)
Lemma handleCommand_total (env : Env) (line : gostring)
      (cur : option User.t) (remote : gostring) (d : DB) :
  strings.Fields line <> [] ->
  exists res, handleCommand env line cur remote d = Ret res.
Proof.
  intros H; cmd_cases; try congruence; eexists; reflexivity.
Qed.

(** A failing command changes neither the session nor the database,
    and returns the empty reply. *)
Lemma handleCommand_error (env : Env) (line : gostring)
      (cur : option User.t) (remote : gostring) (d : DB)
      (resp : gostring) (e : error) (cur' : option User.t) (d' : DB) :
  handleCommand env line cur remote d = Ret (resp, Some e, cur', d') ->
  resp = [] /\ cur' = cur /\ d' = d.
Proof.
  cmd_cases; intros H; inversion H; subst; cmd_inv; repeat split; congruence.
Qed.

(** No command touches the message log. *)
Lemma handleCommand_messages (env : Env) (line : gostring)
      (cur : option User.t) (remote : gostring) (d : DB)
      (resp : gostring) (err : option error) (cur' : option User.t) (d' : DB) :
  handleCommand env line cur remote d = Ret (resp, err, cur', d') ->
  messages d' = messages d.
Proof.
  cmd_cases; intros H; inversion H; subst; cmd_inv; congruence.
Qed.

(** No command unbinds the session. *)
Lemma handleCommand_auth (env : Env) (line : gostring)
      (cur : option User.t) (remote : gostring) (d : DB)
      (resp : gostring) (err : option error) (cur' : option User.t) (d' : DB) :
  handleCommand env line cur remote d = Ret (resp, err, cur', d') ->
  cur <> None -> cur' <> None.
Proof.
  cmd_cases; intros H; inversion H; subst; auto; discriminate.
Qed.

(** ** Single lines *)

Lemma noNL_app (u v : gostring) : noNL (u ++ v) = noNL u && noNL v.
Proof. unfold noNL; now rewrite existsb_app, negb_orb. Qed.

Lemma noNL_skipn (k : nat) (w : gostring) : noNL w = true -> noNL (skipn k w) = true.
Proof.
  intros H; rewrite <- (firstn_skipn k w), noNL_app in H.
  now apply andb_true_iff in H.
Qed.

Lemma eqb_nl_high (c : ascii) : 0x80 <= byteval c -> Ascii.eqb "010" c = false.
Proof.
  intros H; destruct (Ascii.eqb "010" c) eqn:E; [|reflexivity].
  apply Ascii.eqb_eq in E; subst c; vm_compute in H; now elim H.
Qed.

Lemma outside_false (lo hi x : Z) : utf8.outside lo hi x = false -> lo <= x.
Proof.
  unfold utf8.outside; intros H; apply orb_false_iff in H as [H _].
  apply Z.ltb_ge in H; exact H.
Qed.

(** The bytes of a rune that is no space hold no line feed. *)
Lemma chunk_noNL (s : gostring) :
  s <> [] ->
  unicode.IsSpace (fst (utf8.DecodeRuneInString s)) = false ->
  noNL (firstn (snd (utf8.DecodeRuneInString s)) s) = true.
Proof.
  intros Hne; unfold utf8.DecodeRuneInString.
  destruct s as [|c0 t]; [congruence|].
  destruct (utf8.first (byteval c0)) eqn:F.
  - cbn [fst snd firstn]; intros Hsp; unfold noNL; cbn [existsb].
    destruct (Ascii.eqb "010" c0) eqn:E; [|reflexivity].
    apply Ascii.eqb_eq in E; subst c0; vm_compute in Hsp; discriminate.
  - cbn [fst snd firstn]; intros _; unfold noNL; cbn [existsb].
    destruct (Ascii.eqb "010" c0) eqn:E; [|reflexivity].
    apply Ascii.eqb_eq in E; subst c0; vm_compute in F; discriminate.
  - apply first_Lead in F as (Hsz & Hlo & H0); intros _.
    assert (E0 : Ascii.eqb "010" c0 = false) by (apply eqb_nl_high; lia).
    destruct t as [|c1 [|c2 [|c3 t]]]; simpl length;
      destruct Hsz as [-> | [-> | ->]]; simpl;
      split_ifs; unfold noNL; cbn [fst snd firstn existsb]; rewrite ?E0;
      repeat match goal with
             | H : utf8.outside _ _ (byteval ?c) = false |- _ =>
               apply outside_false in H;
               assert (Ascii.eqb "010" c = false)
                 by (apply eqb_nl_high; unfold utf8.locb in *; lia);
               clear H
             end;
      repeat match goal with
             | H : Ascii.eqb "010" _ = false |- _ => rewrite H; clear H
             end;
      reflexivity.
Qed.

Lemma runes_noNL :
  forall (n : nat) (s : gostring),
    (length s <= n)%nat ->
    Forall (fun rb => unicode.IsSpace (fst rb) = false -> noNL (snd rb) = true)
           (runes s).
Proof.
  induction n as [|n IH]; intros s Hlen.
  - destruct s; [constructor | simpl in Hlen; lia].
  - destruct s as [|c t]; [constructor|].
    rewrite runes_cons; constructor.
    + cbn [fst snd]; apply chunk_noNL; discriminate.
    + apply IH.
      destruct (utf8.DecodeRuneInString (c :: t)) as [r m] eqn:D.
      assert (Hm : (1 <= m <= length (c :: t))%nat)
        by (eapply Decode_size; [discriminate | exact D]).
      cbn [snd]; rewrite length_skipn; cbn [length] in *; lia.
Qed.

Lemma fieldsLoop_noNL (rs : list (Z * gostring)) :
  Forall (fun rb => unicode.IsSpace (fst rb) = false -> noNL (snd rb) = true) rs ->
  forall cur : option gostring,
    noNL (ext cur []) = true ->
    Forall (fun w => noNL w = true) (strings.fieldsLoop unicode.IsSpace rs cur).
Proof.
  induction 1 as [|[r bs] rs Hr Hrs IH]; intros cur Hcur.
  - destruct cur; simpl in *; [|constructor].
    rewrite app_nil_r in Hcur; repeat constructor; exact Hcur.
  - cbn [strings.fieldsLoop]; cbn [fst snd] in Hr.
    destruct (unicode.IsSpace r) eqn:Sp.
    + destruct cur; simpl in Hcur.
      * rewrite app_nil_r in Hcur; constructor; [exact Hcur|].
        apply IH; reflexivity.
      * apply IH; reflexivity.
    + apply IH; simpl; rewrite app_nil_r.
      destruct cur; simpl in Hcur.
      * rewrite app_nil_r in Hcur; rewrite noNL_app, Hcur; simpl; auto.
      * auto.
Qed.

(** No field holds a line feed. *)
Lemma Fields_noNL (s : gostring) :
  Forall (fun w => noNL w = true) (strings.Fields s).
Proof.
  apply fieldsLoop_noNL; [apply (runes_noNL (length s)); lia | reflexivity].
Qed.

Lemma TrimPrefix_noNL (w p : gostring) :
  noNL w = true -> noNL (strings.TrimPrefix w p) = true.
Proof.
  intros H; unfold strings.TrimPrefix.
  destruct (strings.HasPrefix w p); [apply noNL_skipn|]; exact H.
Qed.

Lemma CreateUser_error_msg (f : option error) (d : DB) (u : User.t)
      (d' : DB) (u' : User.t) (e : error) :
  gorm.CreateUser f d u = (d', u', Some e) ->
  f = Some e \/ e = gorm.ErrUniqueName.
Proof.
  unfold gorm.CreateUser; destruct f; [intros H; inversion H; auto|].
  destruct (existsb _ _); intros H; inversion H; auto.
Qed.

Lemma GenerateFromPassword_error (slt pw : gostring) (e : error) :
  GenerateFromPassword slt pw = inr e -> e = ErrPasswordTooLong.
Proof.
  unfold GenerateFromPassword; destruct (_ <? _)%nat; congruence.
Qed.

Lemma FindUsers_error (f : option error) (d : DB) (e : error) :
  gorm.FindUsers f d = inr e -> f = Some e.
Proof. unfold gorm.FindUsers; destruct f; congruence. Qed.

(** The message of a failing command is a single line, when those of the
    store's faults are. *)
Lemma handleCommand_error_line (env : Env) (line : gostring)
      (cur : option User.t) (remote : gostring) (d : DB)
      (resp : gostring) (e : error) (cur' : option User.t) (d' : DB) :
  handleCommand env line cur remote d = Ret (resp, Some e, cur', d') ->
  errNoNL (queryErr env) = true -> errNoNL (createErr env) = true ->
  noNL e = true.
Proof.
  intros H Hq Hc.
  pose proof (Fields_noNL line) as HF.
  revert H; unfold handleCommand.
  destruct (strings.Fields line) as [|p0 ps] eqn:EF; [discriminate|].
  apply Forall_inv in HF.
  repeat match goal with
         | |- context [match ?x with _ => _ end] => destruct x eqn:?
         end;
    intros H; inversion H; subst; try reflexivity;
    try match goal with
        | E : GenerateFromPassword _ _ = inr _ |- _ =>
          apply GenerateFromPassword_error in E; subst; reflexivity
        | E : gorm.FindUsers _ _ = inr _ |- _ =>
          apply FindUsers_error in E; rewrite E in Hq; exact Hq
        | E : gorm.CreateUser _ _ _ = (_, _, Some _) |- _ =>
          apply CreateUser_error_msg in E; destruct E as [HE | HE];
            [rewrite HE in Hc; exact Hc | subst; reflexivity]
        end.
  change (noNL (str "unknown command: " ++ strings.TrimPrefix p0 (str "/")) = true).
  rewrite noNL_app; apply andb_true_iff; split; [reflexivity|].
  apply TrimPrefix_noNL; exact HF.
Qed.

(** ** One pass of the read loop *)

Lemma replyFor_total (line : gostring) :
  strings.Fields line <> [] -> exists reply, replyFor line = Ret reply.
Proof.
  intros H; unfold replyFor.
  repeat match goal with
         | |- context [match ?x with _ => _ end] => destruct x eqn:?
         end; try congruence; eexists; reflexivity.
Qed.

(** A blank line: nothing happens. *)
Lemma body_blank (remote : gostring) (st : State) (raw : gostring) (env : Env) :
  strings.TrimSpace raw = [] -> body remote st raw env = (st, Continue).
Proof. intros H; unfold body; rewrite H; reflexivity. Qed.

(** A command line: the dispatcher runs, and what it returns is written. *)
Lemma body_command (remote : gostring) (st : State) (raw : gostring) (env : Env)
      (resp : gostring) (err : option error) (cur' : option User.t) (d' : DB) :
  strings.TrimSpace raw <> [] ->
  strings.HasPrefix (strings.TrimSpace raw) (str "/") = true ->
  handleCommand env (strings.TrimSpace raw) (currentUser st) remote (db st)
  = Ret (resp, err, cur', d') ->
  body remote st raw env =
  let st' := {| db := d'; currentUser := cur'; written := written st |} in
  match err with
  | Some e => (Write st' (str "ERR: " ++ e ++ nl) (writeErr env), Continue)
  | None =>
    if negb (streq resp [])
    then (Write st' (resp ++ nl) (writeErr env), Continue)
    else (st', Continue)
  end.
Proof.
  intros Hne Hp Hc; unfold body.
  rewrite (streq_nil_false _ Hne), Hp, Hc; reflexivity.
Qed.

(** A payload line: the record is stored (if the store takes it), the
    reply is written, and a failed write ends the loop. *)
Lemma body_payload (remote : gostring) (st : State) (raw : gostring) (env : Env)
      (reply : gostring) :
  strings.TrimSpace raw <> [] ->
  strings.HasPrefix (strings.TrimSpace raw) (str "/") = false ->
  replyFor (strings.TrimSpace raw) = Ret reply ->
  body remote st raw env =
  (Write {| db := fst (gorm.CreateMessage (createErr env) (db st)
                         (newMessage (strings.TrimSpace raw) remote (now env)
                                     (currentUser st)));
            currentUser := currentUser st;
            written := written st |}
         (reply ++ nl) (writeErr env),
   match writeErr env with Some _ => Return | None => Continue end).
Proof.
  intros Hne Hp Hr; unfold body.
  rewrite (streq_nil_false _ Hne), Hp, Hr.
  destruct (gorm.CreateMessage _ _ _) as [d' e]; cbn [fst].
  destruct (writeErr env); reflexivity.
Qed.

(** The three kinds of line. *)
Lemma line_cases (raw : gostring) :
  strings.TrimSpace raw = []
  \/ (strings.TrimSpace raw <> []
      /\ strings.HasPrefix (strings.TrimSpace raw) (str "/") = true)
  \/ (strings.TrimSpace raw <> []
      /\ strings.HasPrefix (strings.TrimSpace raw) (str "/") = false).
Proof.
  destruct (strings.TrimSpace raw) as [|c t] eqn:E; [now left | right].
  destruct (strings.HasPrefix (c :: t) (str "/")); [left | right];
    (split; [discriminate | reflexivity]).
Qed.

(** No pass of the loop panics. *)
Lemma body_never_panics (remote : gostring) (st : State) (raw : gostring) (env : Env) :
  snd (body remote st raw env) <> Panicked.
Proof.
  destruct (line_cases raw) as [E | [[Hne Hp] | [Hne Hp]]].
  - rewrite body_blank by assumption; discriminate.
  - destruct (handleCommand_total env (strings.TrimSpace raw) (currentUser st)
                                  remote (db st) (Fields_TrimSpace raw Hne))
      as [[[[resp err] cur'] d'] Hc].
    rewrite (body_command remote st raw env resp err cur' d' Hne Hp Hc).
    cbv zeta; destruct err; [discriminate|].
    destruct (negb _); discriminate.
  - destruct (replyFor_total (strings.TrimSpace raw) (Fields_TrimSpace raw Hne))
      as [reply Hr].
    rewrite (body_payload remote st raw env reply Hne Hp Hr).
    cbn [snd]; destruct (writeErr env); discriminate.
Qed.

(** C10. A line that is not empty after trimming has a first field, so
    [tokens[0]] and [parts[0]] are in bounds: the reply, the command
    dispatcher and the whole pass of the loop return without a panic. *)
Theorem dispatch_total (raw : gostring) :
  strings.TrimSpace raw <> [] ->
  (exists t0 ts, strings.Fields (strings.TrimSpace raw) = t0 :: ts)
  /\ (exists reply, replyFor (strings.TrimSpace raw) = Ret reply)
  /\ (forall env cur remote d,
         exists res, handleCommand env (strings.TrimSpace raw) cur remote d = Ret res)
  /\ (forall remote st env, snd (body remote st raw env) <> Panicked).
Proof.
  intros Hne; pose proof (Fields_TrimSpace raw Hne) as HF.
  repeat split.
  - destruct (strings.Fields (strings.TrimSpace raw)) as [|t0 ts]; [congruence|].
    now exists t0, ts.
  - now apply replyFor_total.
  - intros; now apply handleCommand_total.
  - intros; apply body_never_panics.
Qed.

Lemma loop_continue (remote : gostring) (st st' : State) (raw : gostring)
      (env : Env) (rest : list (gostring * Env)) :
  body remote st raw env = (st', Continue) ->
  loop remote ((raw, env) :: rest) st =
  let '(tr, out, unread) := loop remote rest st' in (st' :: tr, out, unread).
Proof. intros H; cbn [loop]; rewrite H; reflexivity. Qed.

Lemma loop_return (remote : gostring) (st st' : State) (raw : gostring)
      (env : Env) (rest : list (gostring * Env)) :
  body remote st raw env = (st', Return) ->
  loop remote ((raw, env) :: rest) st = ([st'], Return, rest).
Proof. intros H; cbn [loop]; rewrite H; reflexivity. Qed.

(** C2. A command line whose handling fails has its error written back
    as one line: the writes of the connection after the pass are those
    before it followed by one write of [ERR: ], the message and a line
    feed.  The loop goes on to the next line, and the session's user is
    what it was (as is the database). *)
Theorem command_error_reported (remote : gostring) (st : State)
        (raw : gostring) (env : Env)
        (resp : gostring) (e : error) (cur' : option User.t) (d' : DB) :
  strings.TrimSpace raw <> [] ->
  strings.HasPrefix (strings.TrimSpace raw) (str "/") = true ->
  handleCommand env (strings.TrimSpace raw) (currentUser st) remote (db st)
  = Ret (resp, Some e, cur', d') ->
  let st' := fst (body remote st raw env) in
  written st' = written st ++ [(str "ERR: " ++ e ++ nl, writeErr env)]
  /\ snd (body remote st raw env) = Continue
  /\ currentUser st' = currentUser st
  /\ db st' = db st
  /\ (forall rest,
         loop remote ((raw, env) :: rest) st =
         let '(tr, out, unread) := loop remote rest st' in
         (st' :: tr, out, unread))
  /\ (errNoNL (queryErr env) = true -> errNoNL (createErr env) = true ->
      noNL (str "ERR: " ++ e) = true).
Proof.
  intros Hne Hp Hc st'.
  assert (Hb : body remote st raw env
               = ({| db := db st; currentUser := currentUser st;
                     written := written st
                                  ++ [(str "ERR: " ++ e ++ nl, writeErr env)] |},
                  Continue)).
  { rewrite (body_command remote st raw env resp (Some e) cur' d' Hne Hp Hc).
    apply handleCommand_error in Hc as (_ & -> & ->).
    reflexivity. }
  subst st'; split; [now rewrite Hb|].
  split; [now rewrite Hb|].
  split; [now rewrite Hb|].
  split; [now rewrite Hb|].
  split.
  - intros rest; apply loop_continue.
    destruct (body remote st raw env) as [s1 o1]; cbn [fst].
    now inversion Hb.
  - intros Hq Hcr; rewrite noNL_app; apply andb_true_iff; split; [reflexivity|].
    eapply handleCommand_error_line; eassumption.
Qed.

(** C5. A payload line that is not blank adds exactly one record to the
    message log when the store takes the insert: its author is the
    session's user if there is one, its address the remote endpoint, its
    text the line; this does not depend on the reply.  (When the store
    refuses the insert nothing is added.)  A command line adds no record,
    whether it succeeds or fails; nor does a blank line. *)
Theorem chat_record_frame (remote : gostring) (st : State) (raw : gostring)
        (env : Env) :
  let line := strings.TrimSpace raw in
  let st' := fst (body remote st raw env) in
  (line <> [] -> strings.HasPrefix line (str "/") = false ->
   createErr env = None ->
   messages (db st') =
   messages (db st) ++
     [Message.Build (gorm.nextID (map Message.ID (messages (db st))))
                    (option_map User.ID (currentUser st))
                    (match currentUser st with
                     | Some u => User.Name u
                     | None => []
                     end)
                    remote line (now env)]
   /\ users (db st') = users (db st))
  /\ (line <> [] -> strings.HasPrefix line (str "/") = false ->
      createErr env <> None -> db st' = db st)
  /\ (strings.HasPrefix line (str "/") = true ->
      messages (db st') = messages (db st))
  /\ (line = [] -> db st' = db st).
Proof.
  intros line st'; subst line st'.
  assert (Payload : strings.TrimSpace raw <> [] ->
                    strings.HasPrefix (strings.TrimSpace raw) (str "/") = false ->
                    db (fst (body remote st raw env)) =
                    fst (gorm.CreateMessage (createErr env) (db st)
                           (newMessage (strings.TrimSpace raw) remote (now env)
                                       (currentUser st)))).
  { intros Hne Hp.
    destruct (replyFor_total (strings.TrimSpace raw) (Fields_TrimSpace raw Hne))
      as [reply Hr].
    now rewrite (body_payload remote st raw env reply Hne Hp Hr). }
  split; [|split; [|split]].
  - intros Hne Hp Hc; rewrite (Payload Hne Hp), Hc.
    destruct (currentUser st); split; reflexivity.
  - intros Hne Hp Hc; rewrite (Payload Hne Hp).
    destruct (createErr env); [reflexivity | congruence].
  - intros Hp.
    assert (Hne : strings.TrimSpace raw <> [])
      by (intros E; rewrite E in Hp; discriminate).
    destruct (handleCommand_total env (strings.TrimSpace raw) (currentUser st)
                                  remote (db st) (Fields_TrimSpace raw Hne))
      as [[[[resp err] cur'] d'] Hc].
    rewrite (body_command remote st raw env resp err cur' d' Hne Hp Hc).
    apply handleCommand_messages in Hc.
    cbv zeta; destruct err; [exact Hc|].
    destruct (negb _); exact Hc.
  - intros E; rewrite body_blank by exact E; reflexivity.
Qed.

(** ** The session over the whole connection *)

Lemma body_auth (remote : gostring) (st : State) (raw : gostring) (env : Env) :
  authenticated st = true -> authenticated (fst (body remote st raw env)) = true.
Proof.
  unfold authenticated; intros Ha.
  destruct (line_cases raw) as [E | [[Hne Hp] | [Hne Hp]]].
  - rewrite body_blank by assumption; exact Ha.
  - destruct (handleCommand_total env (strings.TrimSpace raw) (currentUser st)
                                  remote (db st) (Fields_TrimSpace raw Hne))
      as [[[[resp err] cur'] d'] Hc].
    rewrite (body_command remote st raw env resp err cur' d' Hne Hp Hc).
    apply handleCommand_auth in Hc; [|destruct (currentUser st); congruence].
    cbv zeta; destruct err; [|destruct (negb _)]; cbn;
      destruct cur'; congruence.
  - destruct (replyFor_total (strings.TrimSpace raw) (Fields_TrimSpace raw Hne))
      as [reply Hr].
    rewrite (body_payload remote st raw env reply Hne Hp Hr); exact Ha.
Qed.

(** From an authenticated state on, every state of the loop is. *)
Lemma loop_auth (remote : gostring) (reads : list (gostring * Env)) :
  forall st : State,
    authenticated st = true ->
    Forall (fun s => authenticated s = true) (fst (fst (loop remote reads st))).
Proof.
  induction reads as [|[raw env] rest IH]; intros st Ha; [constructor|].
  cbn [loop]; pose proof (body_auth remote st raw env Ha) as Hb.
  destruct (body remote st raw env) as [st' out]; cbn [fst] in Hb.
  destruct out.
  - specialize (IH st' Hb).
    destruct (loop remote rest st') as [[tr o] un]; cbn [fst] in *.
    constructor; assumption.
  - repeat constructor; assumption.
  - repeat constructor; assumption.
Qed.

Lemma loop_mono (remote : gostring) (reads : list (gostring * Env)) :
  forall (st : State) (i j : nat) (si sj : State),
    (i <= j)%nat ->
    nth_error (fst (fst (loop remote reads st))) i = Some si ->
    nth_error (fst (fst (loop remote reads st))) j = Some sj ->
    authenticated si = true -> authenticated sj = true.
Proof.
  induction reads as [|[raw env] rest IH]; intros st i j si sj Hij Hi Hj Ha.
  - destruct i; discriminate.
  - cbn [loop] in Hi, Hj.
    destruct (body remote st raw env) as [st' out].
    assert (Stop : forall l : list (gostring * Env),
               nth_error [st'] i = Some si -> nth_error [st'] j = Some sj ->
               authenticated sj = true).
    { intros _ Hi' Hj'.
      destruct i as [|[|i]], j as [|[|j]]; simpl in *; congruence. }
    destruct out; cbn [fst] in *; [|now apply (Stop rest)|now apply (Stop rest)].
    pose proof (loop_auth remote rest st') as HA.
    specialize (IH st').
    destruct (loop remote rest st') as [[tr o] un]; cbn [fst] in *.
    destruct i as [|i], j as [|j]; simpl in Hi, Hj.
    + congruence.
    + inversion Hi; subst si.
      apply nth_error_In in Hj.
      exact (proj1 (Forall_forall _ _) (HA Ha) _ Hj).
    + lia.
    + apply (IH i j si sj); [lia | assumption | assumption | assumption].
Qed.

Lemma sendLoop_session (werr : nat -> option error) (msgs : list Message.t) :
  forall st : State,
    currentUser (fst (sendLoop werr msgs st)) = currentUser st
    /\ db (fst (sendLoop werr msgs st)) = db st.
Proof.
  induction msgs as [|m msgs IH]; intros st; cbn [sendLoop]; [now split|].
  destruct (werr (length (written st))); [now split|].
  destruct (IH (Write st (historyLine m) None)) as [H1 H2]; now split.
Qed.

Lemma startState_session (fault : option error) (werr : nat -> option error)
      (d : DB) :
  currentUser (startState fault werr d) = None
  /\ db (startState fault werr d) = d.
Proof.
  unfold startState, sendHistory.
  destruct (gorm.FindMessagesOrdered _ _); [|now split].
  apply sendLoop_session.
Qed.

(** C4. A session starts unauthenticated, and once a state of the
    connection is authenticated every later state is: no line, payload or
    command, succeeding or failing, sets the user back to none. *)
Theorem session_never_reverts (remote : gostring) (fault : option error)
        (werr : nat -> option error) (reads : list (gostring * Env)) (d : DB) :
  authenticated (startState fault werr d) = false
  /\ forall (i j : nat) (si sj : State),
      (i <= j)%nat ->
      nth_error (fst (fst (handleConn remote fault werr reads d))) i = Some si ->
      nth_error (fst (fst (handleConn remote fault werr reads d))) j = Some sj ->
      authenticated si = true -> authenticated sj = true.
Proof.
  split.
  - unfold authenticated; now rewrite (proj1 (startState_session fault werr d)).
  - unfold handleConn; apply loop_mono.
Qed.

(** A payload line whose reply cannot be written ends the loop: the
    lines after it are never read. *)
Lemma payload_write_failure (remote : gostring) (st : State) (raw : gostring)
      (env : Env) (e : error) (rest : list (gostring * Env)) :
  strings.TrimSpace raw <> [] ->
  strings.HasPrefix (strings.TrimSpace raw) (str "/") = false ->
  writeErr env = Some e ->
  snd (body remote st raw env) = Return
  /\ loop remote ((raw, env) :: rest) st
     = ([fst (body remote st raw env)], Return, rest).
Proof.
  intros Hne Hp He.
  destruct (replyFor_total (strings.TrimSpace raw) (Fields_TrimSpace raw Hne))
    as [reply Hr].
  pose proof (body_payload remote st raw env reply Hne Hp Hr) as Hb.
  rewrite He in Hb; split; [now rewrite Hb|].
  rewrite Hb; cbn [fst]; apply loop_return; now rewrite Hb.
Qed.

(** ** Authors of the records *)

Lemma fieldsLoop_nonempty (rs : list (Z * gostring)) :
  Forall (fun rb => snd rb <> []) rs ->
  forall cur : option gostring,
    cur <> Some [] ->
    Forall (fun w => w <> []) (strings.fieldsLoop unicode.IsSpace rs cur).
Proof.
  induction 1 as [|[r bs] rs Hr Hrs IH]; intros cur Hcur.
  - destruct cur as [w|]; simpl; [|constructor].
    constructor; [intros E; apply Hcur; now rewrite E | constructor].
  - cbn [strings.fieldsLoop]; cbn [snd] in Hr.
    destruct (unicode.IsSpace r).
    + destruct cur as [w|];
        [constructor; [intros E; apply Hcur; now rewrite E|]|];
        apply IH; discriminate.
    + apply IH; destruct cur as [w|]; intros E; inversion E.
      * apply app_eq_nil in H0 as [_ H0]; contradiction.
      * contradiction.
Qed.

Lemma runes_chunks_nonempty :
  forall (n : nat) (s : gostring),
    (length s <= n)%nat -> Forall (fun rb => snd rb <> []) (runes s).
Proof.
  induction n as [|n IH]; intros s Hlen.
  - destruct s; [constructor | simpl in Hlen; lia].
  - destruct s as [|c t]; [constructor|].
    rewrite runes_cons.
    destruct (utf8.DecodeRuneInString (c :: t)) as [r m] eqn:D.
    assert (Hm : (1 <= m <= length (c :: t))%nat)
      by (eapply Decode_size; [discriminate | exact D]).
    cbn [fst snd]; constructor.
    + cbn [snd]; destruct m; [lia | discriminate].
    + apply IH; rewrite length_skipn; cbn [length] in *; lia.
Qed.

(** No field is empty. *)
Lemma Fields_elems_nonempty (s : gostring) :
  Forall (fun w => w <> []) (strings.Fields s).
Proof.
  apply fieldsLoop_nonempty; [apply (runes_chunks_nonempty (length s)); lia|].
  discriminate.
Qed.

Lemma FirstUserByName_named (f : option error) (d : DB) (name : gostring)
      (u : User.t) :
  forallb namedUser (users d) = true ->
  gorm.FirstUserByName f d name = inl u -> namedUser u = true.
Proof.
  unfold gorm.FirstUserByName; intros Hd; destruct f; [discriminate|].
  destruct (find _ (users d)) as [x|] eqn:E; [|discriminate].
  intros H; inversion H; subst x.
  apply find_some in E as [Hin _].
  exact (proj1 (forallb_forall _ _) Hd u Hin).
Qed.

Lemma handleCommand_consistent (env : Env) (line : gostring)
      (cur : option User.t) (remote : gostring) (d : DB)
      (resp : gostring) (err : option error) (cur' : option User.t) (d' : DB) :
  handleCommand env line cur remote d = Ret (resp, err, cur', d') ->
  forallb namedUser (users d) = true ->
  match cur with Some u => namedUser u | None => true end = true ->
  forallb namedUser (users d') = true
  /\ match cur' with Some u => namedUser u | None => true end = true.
Proof.
  intros H Hd Hcur.
  pose proof (Fields_elems_nonempty line) as HF.
  revert H; unfold handleCommand.
  destruct (strings.Fields line) as [|p0 ps] eqn:EF; [discriminate|].
  repeat match goal with
         | |- context [match ?x with _ => _ end] => destruct x eqn:?
         end;
    intros H; inversion H; subst; cmd_inv; try (split; assumption);
    try (split; [assumption|]; eapply FirstUserByName_named; eassumption).
  match goal with
  | Eu : users ?d1 = users _ ++ [?u], En : User.Name ?u = _ |- _ =>
    assert (Hn : namedUser u = true)
      by (unfold namedUser; rewrite En; cbn [User.Name];
          apply negb_true_iff, streq_neq;
          apply Forall_inv_tail, Forall_inv in HF; exact HF);
      split; [rewrite Eu, forallb_app, Hd; cbn [forallb]; now rewrite Hn
             | exact Hn]
  end.
Qed.

(** One pass of the loop keeps the database and the session
    [consistent]. *)
Lemma body_consistent (remote : gostring) (st : State) (raw : gostring)
      (env : Env) :
  consistent st = true -> consistent (fst (body remote st raw env)) = true.
Proof.
  unfold consistent; intros H.
  apply andb_true_iff in H as [H Hcur]; apply andb_true_iff in H as [Hu Hm].
  destruct (line_cases raw) as [E | [[Hne Hp] | [Hne Hp]]].
  - rewrite body_blank by assumption; cbn [fst]; now rewrite Hu, Hm, Hcur.
  - destruct (handleCommand_total env (strings.TrimSpace raw) (currentUser st)
                                  remote (db st) (Fields_TrimSpace raw Hne))
      as [[[[resp err] cur'] d'] Hc].
    rewrite (body_command remote st raw env resp err cur' d' Hne Hp Hc).
    destruct (handleCommand_consistent _ _ _ _ _ _ _ _ _ Hc Hu Hcur) as [Hu' Hcur'].
    apply handleCommand_messages in Hc.
    cbv zeta; destruct err; [|destruct (negb _)];
      cbn [fst db currentUser Write]; now rewrite Hu', Hc, Hm, Hcur'.
  - destruct (replyFor_total (strings.TrimSpace raw) (Fields_TrimSpace raw Hne))
      as [reply Hr].
    rewrite (body_payload remote st raw env reply Hne Hp Hr).
    cbn [fst db currentUser Write]; rewrite Hcur, andb_true_r.
    unfold gorm.CreateMessage; destruct (createErr env);
      cbn [fst users messages]; [now rewrite Hu, Hm|].
    rewrite Hu, forallb_app, Hm; cbn [forallb andb].
    rewrite andb_true_r.
    unfold newMessage, attributed; destruct (currentUser st) as [u|];
      cbn [Message.UserID Message.UserName]; [exact Hcur | reflexivity].
Qed.

(** The name displayed for an [attributed] record is the author's name
    if the record has an author, and the origin address if it has
    none. *)
Lemma displayNameOf_attributed (m : Message.t) :
  attributed m = true ->
  displayNameOf m =
  match Message.UserID m with
  | Some _ => Message.UserName m
  | None => Message.Addr m
  end.
Proof.
  unfold attributed, displayNameOf.
  destruct (Message.UserID m), (Message.UserName m); simpl; congruence.
Qed.

(** Every state of the loop is [consistent] when the first one is. *)
Lemma loop_consistent (remote : gostring) (reads : list (gostring * Env)) :
  forall st : State,
    consistent st = true ->
    Forall (fun s => consistent s = true) (fst (fst (loop remote reads st))).
Proof.
  induction reads as [|[raw env] rest IH]; intros st Hc; [constructor|].
  cbn [loop]; pose proof (body_consistent remote st raw env Hc) as Hb.
  destruct (body remote st raw env) as [st' out]; cbn [fst] in Hb.
  destruct out.
  - specialize (IH st' Hb).
    destruct (loop remote rest st') as [[tr o] un]; cbn [fst] in *.
    constructor; assumption.
  - repeat constructor; assumption.
  - repeat constructor; assumption.
Qed.

(** ** History replay *)

Lemma insertByCreatedAt_perm (m : Message.t) (l : list Message.t) :
  Permutation (m :: l) (gorm.insertByCreatedAt m l).
Proof.
  induction l as [|x l IH]; simpl; [apply Permutation_refl|].
  destruct (sqlite3.textLe _ _).
  - apply Permutation_refl.
  - eapply perm_trans; [apply perm_swap | apply perm_skip, IH].
Qed.

Lemma orderByCreatedAt_perm (l : list Message.t) :
  Permutation l (gorm.orderByCreatedAt l).
Proof.
  induction l as [|m l IH]; simpl; [constructor|].
  eapply perm_trans; [apply perm_skip, IH | apply insertByCreatedAt_perm].
Qed.

(** The comparison of sqlite is a total preorder. *)
Lemma textLe_total (a : gostring) :
  forall b : gostring, sqlite3.textLe a b = false -> sqlite3.textLe b a = true.
Proof.
  induction a as [|x a IH]; intros [|y b]; cbn [sqlite3.textLe];
    try discriminate; try reflexivity.
  destruct (Z.ltb_spec (byteval x) (byteval y)); [discriminate|].
  destruct (Z.ltb_spec (byteval y) (byteval x)); [reflexivity|].
  apply IH.
Qed.

Lemma textLe_trans (a : gostring) :
  forall b c : gostring,
    sqlite3.textLe a b = true -> sqlite3.textLe b c = true ->
    sqlite3.textLe a c = true.
Proof.
  induction a as [|x a IH]; intros [|y b] [|z c]; cbn [sqlite3.textLe];
    try discriminate; try reflexivity.
  destruct (Z.ltb_spec (byteval x) (byteval y)),
           (Z.ltb_spec (byteval y) (byteval x)),
           (Z.ltb_spec (byteval y) (byteval z)),
           (Z.ltb_spec (byteval z) (byteval y)),
           (Z.ltb_spec (byteval x) (byteval z)),
           (Z.ltb_spec (byteval z) (byteval x));
    try discriminate; try reflexivity; try lia.
  apply IH.
Qed.

Lemma insertByCreatedAt_sorted (m : Message.t) (l : list Message.t) :
  StronglySorted storedLe l ->
  StronglySorted storedLe (gorm.insertByCreatedAt m l).
Proof.
  induction 1 as [|x l Hl IH Hx]; simpl.
  - repeat constructor.
  - destruct (sqlite3.textLe (sqlite3.timestamp (Message.CreatedAt m))
                             (sqlite3.timestamp (Message.CreatedAt x))) eqn:E.
    + constructor; [constructor; assumption|].
      constructor; [exact E|].
      eapply Forall_impl; [|exact Hx].
      unfold storedLe; intros y Hy; eapply textLe_trans; eassumption.
    + apply textLe_total in E.
      constructor; [exact IH|].
      eapply Permutation_Forall; [apply insertByCreatedAt_perm|].
      constructor; [exact E | exact Hx].
Qed.

Lemma orderByCreatedAt_sorted (l : list Message.t) :
  StronglySorted storedLe (gorm.orderByCreatedAt l).
Proof.
  induction l as [|m l IH]; simpl; [constructor|].
  now apply insertByCreatedAt_sorted.
Qed.

(** The loop of [sendHistory] when no write fails: one write per record,
    in order. *)
Lemma sendLoop_ok (werr : nat -> option error) (msgs : list Message.t) :
  (forall k, werr k = None) ->
  forall st : State,
    sendLoop werr msgs st =
    ({| db := db st; currentUser := currentUser st;
        written := written st ++ map (fun m => (historyLine m, None)) msgs |},
     None).
Proof.
  intros Hw; induction msgs as [|m msgs IH]; intros st; cbn [sendLoop map].
  - rewrite app_nil_r; destruct st; reflexivity.
  - rewrite Hw, IH; unfold Write; cbn [db currentUser written].
    now rewrite <- app_assoc.
Qed.

Lemma historyLine_format (m : Message.t) :
  historyLine m =
  Format (Message.CreatedAt m) ++ str " " ++ displayNameOf m ++ str " "
    ++ Message.Text m ++ nl.
Proof.
  unfold historyLine, displayNameOf.
  destruct (Message.UserName m); reflexivity.
Qed.

(** When the log can be read and no write fails, history replay writes
    one line per record of the message log, every record once, in the
    order of the stored time stamps; the line of a record is its time
    stamp, its display name and its text, separated by blanks, where
    the display name is the author's name if there is one and the
    origin address otherwise: the code tests the name, and on the
    records the server stores that is the same as testing the author.
    (When the log cannot be read nothing is written.) *)
Lemma history_replay_lines (fault : option error) (werr : nat -> option error)
      (st : State) :
  fault = None -> (forall k, werr k = None) ->
  let msgs := gorm.orderByCreatedAt (messages (db st)) in
  sendHistory fault werr st =
  ({| db := db st; currentUser := currentUser st;
      written := written st ++ map (fun m => (historyLine m, None)) msgs |},
   None)
  /\ Permutation (messages (db st)) msgs
  /\ StronglySorted storedLe msgs
  /\ (forall m,
         historyLine m =
         Format (Message.CreatedAt m) ++ str " " ++ displayNameOf m ++ str " "
           ++ Message.Text m ++ nl)
  /\ (forall m,
         attributed m = true ->
         displayNameOf m =
         match Message.UserID m with
         | Some _ => Message.UserName m
         | None => Message.Addr m
         end)
  /\ (forall e, sendHistory (Some e) werr st = (st, Some e)).
Proof.
  intros -> Hw msgs; repeat split.
  - unfold sendHistory; cbn [gorm.FindMessagesOrdered]; now apply sendLoop_ok.
  - apply orderByCreatedAt_perm.
  - apply orderByCreatedAt_sorted.
  - apply historyLine_format.
  - apply displayNameOf_attributed.
Qed.

(** ** Registration *)

Lemma nameExists_find (d : DB) (name : gostring) :
  nameExists d name = true ->
  exists u, find (fun u => streq (User.Name u) name) (users d) = Some u.
Proof.
  unfold nameExists; intros H.
  destruct (find _ (users d)) as [u|] eqn:E; [now exists u|].
  apply existsb_exists in H as (u & Hin & Hu).
  now rewrite (find_none _ _ E u Hin) in Hu.
Qed.

(** A register command for a name that has an entry is refused. *)
Lemma register_taken (env : Env) (line : gostring) (cur : option User.t)
      (remote : gostring) (d : DB) (name pw : gostring) :
  strings.Fields line = [str "/setname"; name; pw] ->
  queryErr env = None ->
  nameExists d name = true ->
  handleCommand env line cur remote d
  = Ret ([], Some (str "name already taken"), cur, d).
Proof.
  intros HF Hq Hex; unfold handleCommand; rewrite HF.
  cbn [strings.TrimPrefix strings.HasPrefix str list_ascii_of_string
       Ascii.eqb Bool.eqb andb length skipn streq].
  unfold gorm.FirstUserByName; rewrite Hq.
  destruct (nameExists_find d name Hex) as [u ->]; reflexivity.
Qed.

(** A register command that succeeds leaves an entry with its name. *)
Lemma register_creates (env : Env) (line : gostring) (cur : option User.t)
      (remote : gostring) (d : DB) (name pw resp : gostring)
      (cur' : option User.t) (d' : DB) :
  strings.Fields line = [str "/setname"; name; pw] ->
  handleCommand env line cur remote d = Ret (resp, None, cur', d') ->
  nameExists d' name = true /\ nameExists d name = false.
Proof.
  intros HF; unfold handleCommand; rewrite HF.
  cbn [strings.TrimPrefix strings.HasPrefix str list_ascii_of_string
       Ascii.eqb Bool.eqb andb length skipn streq].
  repeat match goal with
         | |- context [match ?x with _ => _ end] => destruct x eqn:?
         end; intros H; inversion H; subst; cmd_inv.
  cbn [User.Name] in *; split; [|assumption].
  unfold nameExists.
  match goal with E : users _ = _ |- _ => rewrite E end.
  rewrite existsb_app; apply orb_true_iff; right; cbn [existsb].
  match goal with E : User.Name _ = _ |- _ => rewrite E end.
  now rewrite streq_refl.
Qed.

(** Entries are never removed: one pass of the loop keeps every name. *)
Lemma body_keeps_names (remote : gostring) (st : State) (raw : gostring)
      (env : Env) (name : gostring) :
  nameExists (db st) name = true ->
  nameExists (db (fst (body remote st raw env))) name = true.
Proof.
  intros Hex.
  destruct (line_cases raw) as [E | [[Hne Hp] | [Hne Hp]]].
  - now rewrite body_blank.
  - destruct (handleCommand_total env (strings.TrimSpace raw) (currentUser st)
                                  remote (db st) (Fields_TrimSpace raw Hne))
      as [[[[resp err] cur'] d'] Hc].
    rewrite (body_command remote st raw env resp err cur' d' Hne Hp Hc).
    assert (Hd : nameExists d' name = true).
    { revert Hc; cmd_cases; intros H; inversion H; subst; cmd_inv; try assumption.
      unfold nameExists in *.
      match goal with E : users _ = _ |- _ => rewrite E end.
      rewrite existsb_app, Hex; reflexivity. }
    cbv zeta; destruct err; [exact Hd|].
    destruct (negb _); exact Hd.
  - destruct (replyFor_total (strings.TrimSpace raw) (Fields_TrimSpace raw Hne))
      as [reply Hr].
    rewrite (body_payload remote st raw env reply Hne Hp Hr); cbn [fst db Write].
    unfold gorm.CreateMessage; destruct (createErr env); exact Hex.
Qed.

(** Whatever the store does, a register command for a name that has an
    entry fails and changes nothing. *)
Lemma register_refused (env : Env) (line : gostring) (cur : option User.t)
      (remote : gostring) (d : DB) (name pw : gostring) :
  strings.Fields line = [str "/setname"; name; pw] ->
  nameExists d name = true ->
  exists e, handleCommand env line cur remote d = Ret ([], Some e, cur, d).
Proof.
  intros HF Hex; unfold handleCommand; rewrite HF.
  cbn [strings.TrimPrefix strings.HasPrefix str list_ascii_of_string
       Ascii.eqb Bool.eqb andb length skipn streq].
  destruct (gorm.FirstUserByName _ _ _); [eexists; reflexivity|].
  destruct (GenerateFromPassword _ _); [|eexists; reflexivity].
  unfold gorm.CreateUser; destruct (createErr env); [eexists; reflexivity|].
  cbn [User.Name]; unfold nameExists in Hex; rewrite Hex.
  eexists; reflexivity.
Qed.

(** C7. Once a register command for a name has succeeded, so that an
    entry with that name exists, a register command for the same name is
    refused with the name-taken error whatever its password, provided the
    store answers the lookup, and the database is left as it was: no new
    entry is created.  (Should the lookup itself fail, the command fails
    all the same and creates no entry.) *)
Theorem second_register_rejected
        (env1 env2 : Env) (line1 line2 : gostring) (cur1 cur2 : option User.t)
        (remote1 remote2 : gostring) (d0 d1 : DB) (name pw1 pw2 resp : gostring)
        (cur1' : option User.t) :
  strings.Fields line1 = [str "/setname"; name; pw1] ->
  strings.Fields line2 = [str "/setname"; name; pw2] ->
  handleCommand env1 line1 cur1 remote1 d0 = Ret (resp, None, cur1', d1) ->
  queryErr env2 = None ->
  nameExists d1 name = true
  /\ handleCommand env2 line2 cur2 remote2 d1
     = Ret ([], Some (str "name already taken"), cur2, d1)
  /\ (forall d : DB,
         nameExists d name = true ->
         handleCommand env2 line2 cur2 remote2 d
         = Ret ([], Some (str "name already taken"), cur2, d))
  /\ (forall (env : Env) (d : DB),
         nameExists d name = true ->
         exists e, handleCommand env line2 cur2 remote2 d
                   = Ret ([], Some e, cur2, d)).
Proof.
  intros HF1 HF2 H1 Hq.
  destruct (register_creates env1 line1 cur1 remote1 d0 name pw1 resp cur1' d1
                             HF1 H1) as [Hex _].
  repeat split; [exact Hex | | |].
  - now apply (register_taken env2 line2 cur2 remote2 d1 name pw2).
  - intros d Hd; now apply (register_taken env2 line2 cur2 remote2 d name pw2).
  - intros env d Hd; now apply (register_refused env line2 cur2 remote2 d name pw2).
Qed.

(** * Further properties of the code *)

(** ** Fields and tokens *)

Ltac split_matches :=
  repeat match goal with
         | |- context [match ?x with _ => _ end] => destruct x eqn:?
         end.

(** A rune decoded from a string is decoded alike from every prefix of
    the string that holds all its bytes. *)
Lemma Decode_prefix (x y : gostring) (r : Z) (n : nat) :
  x <> [] -> utf8.DecodeRuneInString (x ++ y) = (r, n) -> (n <= length x)%nat ->
  utf8.DecodeRuneInString x = (r, n).
Proof.
  intros Hne; unfold utf8.DecodeRuneInString.
  destruct x as [|c0 x]; [congruence|].
  rewrite <- app_comm_cons.
  destruct (utf8.first (byteval c0)) eqn:F; auto.
  apply first_Lead in F as [Hsz _].
  destruct x as [|c1 [|c2 [|c3 x]]]; simpl;
    destruct Hsz as [-> | [-> | ->]]; simpl;
    split_matches; intros H Hn; inversion H; subst; auto; lia.
Qed.

Lemma runes_suffix (pre : list (Z * gostring)) :
  forall (s : gostring) (R : list (Z * gostring)),
    runes s = pre ++ R ->
    runes (skipn (length (concat (map snd pre))) s) = R.
Proof.
  induction pre as [|[r bs] pre IH]; intros s R H; [exact H|].
  destruct s as [|c t]; [discriminate|].
  rewrite runes_cons in H.
  destruct (utf8.DecodeRuneInString (c :: t)) as [r0 m] eqn:D.
  assert (Hm : (1 <= m <= length (c :: t))%nat)
    by (eapply Decode_size; [discriminate | exact D]).
  cbn [fst snd] in H; injection H as _ Hb HR; subst bs.
  cbn [map snd concat]; rewrite length_app, Nat.add_comm, <- skipn_skipn.
  rewrite length_firstn, Nat.min_l by lia.
  now apply IH.
Qed.

(** The first runes of a string are the runes of the bytes they were
    decoded from. *)
Lemma runes_split (cs : list (Z * gostring)) :
  forall (s : gostring) (rest : list (Z * gostring)),
    runes s = cs ++ rest -> runes (concat (map snd cs)) = cs.
Proof.
  induction cs as [|[r bs] cs IH]; intros s rest H; [reflexivity|].
  destruct s as [|c t]; [discriminate|].
  pose proof H as H0; rewrite runes_cons in H0.
  destruct (utf8.DecodeRuneInString (c :: t)) as [r0 n] eqn:D.
  assert (Hn : (1 <= n <= length (c :: t))%nat)
    by (eapply Decode_size; [discriminate | exact D]).
  cbn [fst snd] in H0; injection H0 as Hr0 Hbs H3; subst r0 bs.
  pose proof (IH _ _ H3) as Hz.
  pose proof (runes_concat (length (skipn n (c :: t))) (skipn n (c :: t)) (le_n _)) as Hc.
  rewrite H3, map_app, concat_app in Hc.
  set (z := concat (map snd cs)) in *.
  set (y := concat (map snd rest)) in *.
  set (b := firstn n (c :: t)) in *.
  assert (Hs : c :: t = (b ++ z) ++ y)
    by (rewrite <- app_assoc, Hc; unfold b; now rewrite firstn_skipn).
  assert (Hb : length b = n) by (unfold b; rewrite length_firstn; lia).
  assert (Hne : b ++ z <> []).
  { destruct b; [simpl in Hb; lia | discriminate]. }
  assert (Dz : utf8.DecodeRuneInString (b ++ z) = (r, n)).
  { apply (Decode_prefix (b ++ z) y); [exact Hne | now rewrite <- Hs |].
    rewrite length_app; lia. }
  cbn [map snd concat]; fold z.
  destruct (b ++ z) as [|c' t'] eqn:E; [congruence|].
  rewrite runes_cons, Dz; cbn [fst snd]; rewrite <- E.
  rewrite <- Hb, firstn_app, Nat.sub_diag, firstn_all, firstn_O, app_nil_r.
  rewrite skipn_app, Nat.sub_diag, skipn_all, skipn_O; cbn [app].
  now rewrite Hz.
Qed.

(** A run of runes of [s] that are no spaces makes a token. *)
Lemma run_isToken (s : gostring) (pre run post : list (Z * gostring)) :
  runes s = pre ++ run ++ post -> run <> [] ->
  forallb (fun rb => negb (unicode.IsSpace (fst rb))) run = true ->
  isToken (concat (map snd run)) = true.
Proof.
  intros H Hne Hall.
  pose proof (runes_split run _ post (runes_suffix pre s _ H)) as Hr.
  unfold isToken; rewrite Hr, Hall, andb_true_r.
  apply negb_true_iff, streq_neq.
  destruct run as [|[r bs] run]; [congruence|].
  pose proof (runes_chunks_nonempty (length s) s (le_n _)) as Hc.
  rewrite H in Hc; apply Forall_app in Hc as [_ Hc].
  apply Forall_inv in Hc; cbn [snd map concat] in *.
  destruct bs; [congruence | discriminate].
Qed.

Lemma fieldsLoop_tokens (s : gostring) :
  forall (rs pre acc : list (Z * gostring)) (cur : option gostring),
    runes s = pre ++ acc ++ rs ->
    forallb (fun rb => negb (unicode.IsSpace (fst rb))) acc = true ->
    (acc = [] /\ cur = None)
    \/ (acc <> [] /\ cur = Some (concat (map snd acc))) ->
    Forall (fun w => isToken w = true)
           (strings.fieldsLoop unicode.IsSpace rs cur).
Proof.
  induction rs as [|[r bs] rs IH]; intros pre acc cur H Hall Hcur.
  - destruct Hcur as [[-> ->] | [Hne ->]]; cbn [strings.fieldsLoop];
      constructor; [|constructor].
    apply (run_isToken s pre acc []); assumption.
  - cbn [strings.fieldsLoop]; destruct (unicode.IsSpace r) eqn:Sp.
    + assert (Hrest : Forall (fun w => isToken w = true)
                             (strings.fieldsLoop unicode.IsSpace rs None)).
      { apply (IH (pre ++ acc ++ [(r, bs)]) [] None); [|reflexivity|now left].
        rewrite H, <- !app_assoc; reflexivity. }
      destruct Hcur as [[-> ->] | [Hne ->]]; [exact Hrest|].
      constructor; [|exact Hrest].
      apply (run_isToken s pre acc ((r, bs) :: rs)); assumption.
    + apply (IH pre (acc ++ [(r, bs)])).
      * rewrite H, <- app_assoc; reflexivity.
      * rewrite forallb_app, Hall; cbn [forallb fst]; now rewrite Sp.
      * right; split; [destruct acc; discriminate|].
        rewrite map_app, concat_app; cbn [map snd concat]; rewrite app_nil_r.
        destruct Hcur as [[-> ->] | [Hne ->]]; reflexivity.
Qed.

(** Every field is a token. *)
Lemma Fields_tokens (s : gostring) :
  Forall (fun w => isToken w = true) (strings.Fields s).
Proof.
  apply (fieldsLoop_tokens s (runes s) [] [] None); [reflexivity..|now left].
Qed.

(** The fields of tokens joined by single blanks are the tokens. *)
Lemma Fields_Join (ts : list gostring) :
  Forall (fun w => isToken w = true) ts ->
  strings.Fields (strings.Join ts (str " ")) = ts.
Proof.
  unfold strings.Fields, strings.FieldsFunc.
  induction 1 as [|t ts Ht Hts IH]; [reflexivity|].
  destruct ts as [|t2 ts].
  - cbn [strings.Join]; now rewrite (fields_token_end t None Ht).
  - change (strings.Join (t :: t2 :: ts) (str " "))
      with (t ++ str " " ++ strings.Join (t2 :: ts) (str " ")).
    rewrite (fields_token_blank t _ None Ht), IH; reflexivity.
Qed.

(** ** The reply to [echo] *)

(** X1. A payload line whose first field is [echo] is answered with its
    other fields joined by single blanks (the empty reply when there are
    none): the reply has the same fields, holds no line feed, and sent
    back after [echo ] it is answered with itself. *)
Theorem echo_reply (line : gostring) (ts : list gostring) :
  strings.Fields line = str "echo" :: ts ->
  replyFor line = Ret (strings.Join ts (str " "))
  /\ strings.Fields (strings.Join ts (str " ")) = ts
  /\ noNL (strings.Join ts (str " ")) = true
  /\ (ts <> [] ->
      replyFor (str "echo " ++ strings.Join ts (str " "))
      = Ret (strings.Join ts (str " "))).
Proof.
  intros HF.
  assert (Htok : Forall (fun w => isToken w = true) ts).
  { pose proof (Fields_tokens line) as H; rewrite HF in H.
    now apply Forall_inv_tail in H. }
  assert (HJ : strings.Fields (strings.Join ts (str " ")) = ts)
    by now apply Fields_Join.
  assert (Hecho : forall l, strings.Fields l = str "echo" :: ts ->
                            replyFor l = Ret (strings.Join ts (str " "))).
  { intros l Hl; unfold replyFor; rewrite Hl.
    cbn [streq str list_ascii_of_string Ascii.eqb Bool.eqb andb].
    destruct ts; reflexivity. }
  repeat split.
  - now apply Hecho.
  - exact HJ.
  - pose proof (Fields_noNL line) as HN; rewrite HF in HN.
    apply Forall_inv_tail in HN; clear - HN.
    induction HN as [|t ts Ht Hts IH]; [reflexivity|].
    destruct ts as [|t2 ts]; [exact Ht|].
    change (strings.Join (t :: t2 :: ts) (str " "))
      with (t ++ str " " ++ strings.Join (t2 :: ts) (str " ")).
    now rewrite !noNL_app, Ht, IH.
  - intros _; apply Hecho.
    change (str "echo " ++ strings.Join ts (str " "))
      with (str "echo" ++ str " " ++ strings.Join ts (str " ")).
    rewrite Fields_word_rest by reflexivity; now rewrite HJ.
Qed.

(** ** The replies to [add] and [mul] *)

Lemma nospace_not_cr_lf (r : Z) :
  unicode.IsSpace r = false -> (r =? 13) = false /\ (r =? 10) = false.
Proof.
  intros H; split.
  - destruct (Z.eqb_spec r 13) as [-> |]; [discriminate | reflexivity].
  - destruct (Z.eqb_spec r 10) as [-> |]; [discriminate | reflexivity].
Qed.

(** Nothing is skipped in front of a token. *)
Lemma SkipSpace_token (a : gostring) : isToken a = true -> fmt.SkipSpace a = Some a.
Proof.
  intros Ha; apply isToken_runes in Ha as (Hne & _ & Hall).
  unfold fmt.SkipSpace.
  pose proof (runes_concat (length a) a (le_n _)) as Hc.
  destruct (runes a) as [|[r bs] rs]; [simpl in Hc; congruence|].
  cbn [forallb fst] in Hall; apply andb_true_iff in Hall as [Hr _].
  apply negb_true_iff in Hr.
  destruct (nospace_not_cr_lf r Hr) as [H13 H10].
  cbn [fmt.skipSpaceLoop]; rewrite H13, H10, Hr; cbn [andb].
  now rewrite Hc.
Qed.

Lemma scanNumber_nondigit (s : gostring) :
  match s with [] => true | c :: _ => negb (fmt.isDigit c) end = true ->
  fmt.scanNumber s = ([], s).
Proof. exact (scanNumber_app [] s eq_refl). Qed.

(** A token that does not start as an integer does is not scanned. *)
Lemma Sscanf_d_not_int (a : gostring) :
  isToken a = true -> startsInt a = false -> fmt.Sscanf_d a = None.
Proof.
  intros Ha Hs; unfold fmt.Sscanf_d, fmt.scanInt.
  rewrite (SkipSpace_token a Ha).
  destruct a as [|c t]; [reflexivity|].
  unfold startsInt in Hs.
  destruct (Ascii.eqb c "+") eqn:Ep; [|destruct (Ascii.eqb c "-") eqn:Em];
    cbn [orb] in Hs.
  - rewrite scanNumber_nondigit; [reflexivity|].
    destruct t; [reflexivity | now rewrite Hs].
  - rewrite scanNumber_nondigit; [reflexivity|].
    destruct t; [reflexivity | now rewrite Hs].
  - rewrite scanNumber_nondigit; [reflexivity | now rewrite Hs].
Qed.

(** X2. When one of the two tokens after [add] (or [mul]) does not start
    with an optional sign and a digit, the reply is the integers
    error. *)
Theorem add_mul_non_integer (a b : gostring) :
  isToken a = true -> isToken b = true ->
  startsInt a = false \/ startsInt b = false ->
  replyFor (str "add " ++ a ++ str " " ++ b)
  = Ret (str "ERR: add expects two integers")
  /\ replyFor (str "mul " ++ a ++ str " " ++ b)
     = Ret (str "ERR: mul expects two integers").
Proof.
  intros Ha Hb H.
  rewrite replyFor_add, replyFor_mul by assumption.
  destruct H as [H | H].
  - rewrite (Sscanf_d_not_int a Ha H); split; reflexivity.
  - rewrite (Sscanf_d_not_int b Hb H).
    destruct (fmt.Sscanf_d a); split; reflexivity.
Qed.

(** An integer token is scanned as the number it denotes, when that
    number is an [int]. *)
Lemma Sscanf_d_int (a : gostring) :
  isIntToken a = true ->
  fmt.Sscanf_d a = if inInt (intValue a) then Some (intValue a) else None.
Proof.
  intros Ha; unfold fmt.Sscanf_d, fmt.scanInt.
  rewrite (SkipSpace_token a (isIntToken_isToken a Ha)).
  destruct a as [|c ds]; [discriminate|].
  unfold isIntToken in Ha; unfold intValue, inInt, strconv.ParseInt.
  destruct (Ascii.eqb c "+") eqn:Ep.
  - apply Ascii.eqb_eq in Ep; subst c; cbn [orb Ascii.eqb Bool.eqb andb] in *.
    apply andb_true_iff in Ha as [Hne Hds].
    rewrite <- (app_nil_r ds) at 1; rewrite (scanNumber_app ds [] Hds eq_refl).
    destruct ds; [discriminate|].
    destruct (_ && _); reflexivity.
  - destruct (Ascii.eqb c "-") eqn:Em; cbn [orb] in Ha.
    + apply andb_true_iff in Ha as [Hne Hds].
      rewrite <- (app_nil_r ds) at 1; rewrite (scanNumber_app ds [] Hds eq_refl).
      destruct ds; [discriminate|].
      destruct (_ && _); reflexivity.
    + rewrite <- (app_nil_r (c :: ds)) at 1.
      rewrite (scanNumber_app (c :: ds) [] Ha eq_refl).
      destruct (_ && _); reflexivity.
Qed.

(** X3. On two valid integer tokens the reply to [add] is the decimal
    numeral of the 64-bit sum of the numbers they denote, the reply to
    [mul] that of their 64-bit product, provided both numbers are in the
    range of [int]; if one is not, the reply is the integers error. *)
Theorem add_mul_integers (a b : gostring) :
  isIntToken a = true -> isIntToken b = true ->
  replyFor (str "add " ++ a ++ str " " ++ b)
  = (if inInt (intValue a) && inInt (intValue b)
     then Ret (fmt.Sprintf_d (int_add (intValue a) (intValue b)))
     else Ret (str "ERR: add expects two integers"))
  /\ replyFor (str "mul " ++ a ++ str " " ++ b)
     = (if inInt (intValue a) && inInt (intValue b)
        then Ret (fmt.Sprintf_d (int_mul (intValue a) (intValue b)))
        else Ret (str "ERR: mul expects two integers")).
Proof.
  intros Ha Hb.
  rewrite replyFor_add, replyFor_mul by (now apply isIntToken_isToken).
  rewrite (Sscanf_d_int a Ha), (Sscanf_d_int b Hb).
  destruct (inInt (intValue a)), (inInt (intValue b)); split; reflexivity.
Qed.

(** ** Decimal numerals *)

Lemma uint_digits (d : Decimal.uint) :
  forallb fmt.isDigit (str (NilEmpty.string_of_uint d)) = true.
Proof. induction d; cbn; auto. Qed.

Ltac digit_value :=
  match goal with
  | |- context [strconv.digitVal ?c] =>
    let v := eval vm_compute in (strconv.digitVal c) in
    change (strconv.digitVal c) with v
  end.

Lemma decimal_uint_acc (d : Decimal.uint) :
  forall p : positive,
    fold_left (fun acc c => 10 * acc + strconv.digitVal c)
              (str (NilEmpty.string_of_uint d)) (Z.pos p)
    = Z.pos (Pos.of_uint_acc d p).
Proof.
  induction d; intros p;
    cbn [NilEmpty.string_of_uint str list_ascii_of_string fold_left Pos.of_uint_acc];
    [reflexivity | rewrite <- IHd; f_equal; digit_value; lia ..].
Qed.

(** The digits the library prints denote the number printed. *)
Lemma decimal_uint (d : Decimal.uint) :
  strconv.decimal (str (NilEmpty.string_of_uint d)) = Z.of_N (Pos.of_uint d).
Proof.
  unfold strconv.decimal; induction d;
    cbn [NilEmpty.string_of_uint str list_ascii_of_string fold_left Pos.of_uint];
    [reflexivity | exact IHd | digit_value; apply decimal_uint_acc ..].
Qed.

Lemma digit_not_sign (c : ascii) :
  fmt.isDigit c = true -> Ascii.eqb c "+" = false /\ Ascii.eqb c "-" = false.
Proof.
  intros H; apply isDigit_range in H; split.
  - destruct (Ascii.eqb c "+") eqn:E; [|reflexivity].
    apply Ascii.eqb_eq in E; subst c; change (byteval "+") with 43 in H; lia.
  - destruct (Ascii.eqb c "-") eqn:E; [|reflexivity].
    apply Ascii.eqb_eq in E; subst c; change (byteval "-") with 45 in H; lia.
Qed.

Lemma positive_numeral (p : positive) :
  exists c ds,
    str (NilZero.string_of_uint (Pos.to_uint p)) = c :: ds
    /\ forallb fmt.isDigit (c :: ds) = true
    /\ strconv.decimal (c :: ds) = Z.pos p.
Proof.
  pose proof (DecimalPos.Unsigned.to_uint_nonnil p) as Hnil.
  pose proof (DecimalPos.Unsigned.of_to p) as Hof.
  assert (E : NilZero.string_of_uint (Pos.to_uint p)
              = NilEmpty.string_of_uint (Pos.to_uint p))
    by (destruct (Pos.to_uint p); [congruence | reflexivity ..]).
  rewrite E.
  pose proof (decimal_uint (Pos.to_uint p)) as Hd; rewrite Hof in Hd.
  pose proof (uint_digits (Pos.to_uint p)) as Hg.
  destruct (str (NilEmpty.string_of_uint (Pos.to_uint p))) as [|c ds];
    [discriminate|].
  now exists c, ds.
Qed.

(** What [%d] prints is a valid integer token that denotes the number
    printed. *)
Lemma Sprintf_d_numeral (v : Z) :
  isIntToken (fmt.Sprintf_d v) = true /\ intValue (fmt.Sprintf_d v) = v.
Proof.
  unfold fmt.Sprintf_d; destruct v as [|p|p]; [split; reflexivity | |].
  - cbn [Z.to_int NilZero.string_of_int].
    destruct (positive_numeral p) as (c & ds & -> & Hg & Hd).
    pose proof Hg as Hc; cbn [forallb] in Hc; apply andb_true_iff in Hc as [Hc _].
    destruct (digit_not_sign c Hc) as [Ep Em].
    unfold isIntToken, intValue; rewrite Ep, Em; cbn [orb]; now split.
  - cbn [Z.to_int NilZero.string_of_int str list_ascii_of_string].
    change (list_ascii_of_string (NilZero.string_of_uint (Pos.to_uint p)))
      with (str (NilZero.string_of_uint (Pos.to_uint p))).
    destruct (positive_numeral p) as (c & ds & -> & Hg & Hd).
    unfold isIntToken, intValue; cbn [Ascii.eqb Bool.eqb andb orb streq].
    rewrite Hg, Hd; now split.
Qed.

Lemma wrap_range (z : Z) : inInt (wrap z) = true.
Proof.
  unfold inInt, wrap.
  pose proof (Z.mod_pos_bound (z + 2 ^ 63) (2 ^ 64) eq_refl).
  apply andb_true_iff; split; apply Z.leb_le; lia.
Qed.

Lemma wrap_small (z : Z) : inInt z = true -> wrap z = z.
Proof.
  unfold inInt, wrap; intros H; apply andb_true_iff in H as [H1 H2].
  apply Z.leb_le in H1, H2.
  rewrite Z.mod_small; lia.
Qed.

(** X4. Printing and scanning agree: on the decimal numerals of two
    [int] values the reply to [add] is the numeral of their 64-bit sum
    and the reply to [mul] that of their 64-bit product.  Both results
    are [int] values again, and they are the exact sum and product
    whenever those fit. *)
Theorem add_mul_numerals (x y : Z) :
  inInt x = true -> inInt y = true ->
  fmt.Sscanf_d (fmt.Sprintf_d x) = Some x
  /\ replyFor (str "add " ++ fmt.Sprintf_d x ++ str " " ++ fmt.Sprintf_d y)
     = Ret (fmt.Sprintf_d (int_add x y))
  /\ replyFor (str "mul " ++ fmt.Sprintf_d x ++ str " " ++ fmt.Sprintf_d y)
     = Ret (fmt.Sprintf_d (int_mul x y))
  /\ inInt (int_add x y) = true /\ inInt (int_mul x y) = true
  /\ (inInt (x + y) = true -> int_add x y = x + y)
  /\ (inInt (x * y) = true -> int_mul x y = x * y).
Proof.
  intros Hx Hy.
  destruct (Sprintf_d_numeral x) as [Tx Vx], (Sprintf_d_numeral y) as [Ty Vy].
  assert (Sx : fmt.Sscanf_d (fmt.Sprintf_d x) = Some x)
    by (now rewrite (Sscanf_d_int _ Tx), Vx, Hx).
  assert (Sy : fmt.Sscanf_d (fmt.Sprintf_d y) = Some y)
    by (now rewrite (Sscanf_d_int _ Ty), Vy, Hy).
  repeat split.
  - exact Sx.
  - rewrite replyFor_add by (now apply isIntToken_isToken); now rewrite Sx, Sy.
  - rewrite replyFor_mul by (now apply isIntToken_isToken); now rewrite Sx, Sy.
  - apply wrap_range.
  - apply wrap_range.
  - apply wrap_small.
  - apply wrap_small.
Qed.

(** ** Registration, login and the list of users *)

Lemma find_app_none {A : Type} (f : A -> bool) (l1 l2 : list A) :
  existsb f l1 = false -> find f (l1 ++ l2) = find f l2.
Proof.
  induction l1 as [|x l1 IH]; intros H; [reflexivity|].
  cbn [existsb] in H; apply orb_false_iff in H as [Hx Hl].
  cbn [app find]; rewrite Hx; now apply IH.
Qed.

Lemma nextID_above (ids : list Z) : forall i, In i ids -> i < gorm.nextID ids.
Proof.
  unfold gorm.nextID; induction ids as [|j ids IH]; intros i Hi; [contradiction|].
  cbn [fold_right]; destruct Hi as [-> | Hi]; [lia|].
  specialize (IH i Hi); lia.
Qed.

Lemma CreateUser_new (d : DB) (u : User.t) :
  nameExists d (User.Name u) = false ->
  gorm.CreateUser None d u =
  ({| users := users d ++ [User.Build (gorm.nextID (map User.ID (users d)))
                                      (User.Name u) (User.Password u)
                                      (User.CreatedAt u)];
      messages := messages d |},
   User.Build (gorm.nextID (map User.ID (users d)))
              (User.Name u) (User.Password u) (User.CreatedAt u),
   None).
Proof.
  unfold nameExists, gorm.CreateUser; intros H; now rewrite H.
Qed.

Lemma nameExists_false_find (d : DB) (name : gostring) :
  nameExists d name = false ->
  find (fun u => streq (User.Name u) name) (users d) = None.
Proof.
  unfold nameExists; intros H.
  destruct (find _ (users d)) as [u|] eqn:E; [|reflexivity].
  apply find_some in E as [Hin Hu].
  assert (Hex : existsb (fun u => streq (User.Name u) name) (users d) = true)
    by (apply existsb_exists; now exists u).
  congruence.
Qed.

(** X5. With a store that answers, a register command succeeds exactly
    when the name has no entry and the password is at most 72 bytes long.
    It then appends one entry (the name, the bcrypt hash of the
    password, the time, a key above every key in the table), binds the
    session to it and leaves the message log alone; otherwise it reports
    the name-taken error, or bcrypt's, and changes nothing. *)
Theorem register_outcome (env : Env) (line : gostring) (cur : option User.t)
        (remote : gostring) (d : DB) (name pw : gostring) :
  strings.Fields line = [str "/setname"; name; pw] ->
  queryErr env = None -> createErr env = None ->
  let u := User.Build (gorm.nextID (map User.ID (users d))) name
                      (bcryptHash (salt env) pw) (now env) in
  (nameExists d name = false -> (length pw <= 72)%nat ->
   handleCommand env line cur remote d
   = Ret (str "OK: registered and logged in as " ++ name, None, Some u,
          {| users := users d ++ [u]; messages := messages d |})
   /\ ~ In (User.ID u) (map User.ID (users d)))
  /\ (nameExists d name = true ->
      handleCommand env line cur remote d
      = Ret ([], Some (str "name already taken"), cur, d))
  /\ (nameExists d name = false -> (72 < length pw)%nat ->
      handleCommand env line cur remote d
      = Ret ([], Some ErrPasswordTooLong, cur, d)).
Proof.
  intros HF Hq Hc u.
  assert (Hnew : nameExists d name = false ->
                 handleCommand env line cur remote d =
                 match GenerateFromPassword (salt env) pw with
                 | inr e => Ret ([], Some e, cur, d)
                 | inl h =>
                   match gorm.CreateUser (createErr env) d
                                         (User.Build 0 name h (now env)) with
                   | (d', _, Some e) => Ret ([], Some e, cur, d')
                   | (d', u', None) =>
                     Ret (str "OK: registered and logged in as " ++ name, None,
                          Some u', d')
                   end
                 end).
  { intros Hn; unfold handleCommand; rewrite HF.
    cbn [strings.TrimPrefix strings.HasPrefix str list_ascii_of_string
         Ascii.eqb Bool.eqb andb length skipn streq].
    unfold gorm.FirstUserByName; rewrite Hq, (nameExists_false_find d name Hn).
    reflexivity. }
  split; [|split].
  - intros Hn Hlen; split.
    + rewrite (Hnew Hn); unfold GenerateFromPassword.
      replace (72 <? length pw)%nat with false
        by (symmetry; apply Nat.ltb_ge; lia).
      rewrite Hc, CreateUser_new by exact Hn; reflexivity.
    + intros Hin; apply nextID_above in Hin; cbn [User.ID u] in Hin; lia.
  - intros Hn; now apply (register_taken env line cur remote d name pw).
  - intros Hn Hlen; rewrite (Hnew Hn); unfold GenerateFromPassword.
    replace (72 <? length pw)%nat with true
      by (symmetry; apply Nat.ltb_lt; lia).
    reflexivity.
Qed.

(** X6. Register, then log in: after a register command for [name] with
    password [pw] has succeeded, and whatever entries have been appended
    since, a login command for [name] is decided by bcrypt alone, on the
    hash stored at registration: if the password is accepted the session
    is bound to the very user the registration created, and if not the
    command fails with the invalid-password error and binds nothing. *)
Theorem register_then_login_binds
        (env1 env2 : Env) (line1 line2 : gostring) (cur1 cur2 : option User.t)
        (remote1 remote2 : gostring) (d0 d1 d2 : DB)
        (name pw pw' resp : gostring) (cur1' : option User.t)
        (more : list User.t) :
  strings.Fields line1 = [str "/setname"; name; pw] ->
  handleCommand env1 line1 cur1 remote1 d0 = Ret (resp, None, cur1', d1) ->
  users d2 = users d1 ++ more ->
  strings.Fields line2 = [str "/connect"; name; pw'] ->
  queryErr env2 = None ->
  (exists u, cur1' = Some u /\ User.Name u = name
             /\ User.Password u = bcryptHash (salt env1) pw)
  /\ handleCommand env2 line2 cur2 remote2 d2
     = if bcryptCheck (bcryptHash (salt env1) pw) pw'
       then Ret (str "OK: logged in as " ++ name, None, cur1', d2)
       else Ret ([], Some (str "invalid password"), cur2, d2).
Proof.
  intros HF1 H1 Hd2 HF2 Hq.
  assert (Hreg : exists u,
             cur1' = Some u /\ User.Name u = name
             /\ User.Password u = bcryptHash (salt env1) pw
             /\ users d1 = users d0 ++ [u] /\ nameExists d0 name = false).
  { revert H1; unfold handleCommand; rewrite HF1.
    cbn [strings.TrimPrefix strings.HasPrefix str list_ascii_of_string
         Ascii.eqb Bool.eqb andb length skipn streq].
    destruct (gorm.FirstUserByName _ _ _); [discriminate|].
    unfold GenerateFromPassword; destruct (_ <? _)%nat; [discriminate|].
    unfold gorm.CreateUser; destruct (createErr env1); [discriminate|].
    cbn [User.Name User.Password User.CreatedAt].
    destruct (existsb _ (users d0)) eqn:Ex; [discriminate|].
    intros H; inversion H; subst; eexists; repeat split; assumption. }
  destruct Hreg as (u & -> & Hn & Hp & Hu & Hfree).
  split; [now exists u|].
  unfold handleCommand; rewrite HF2.
  cbn [strings.TrimPrefix strings.HasPrefix str list_ascii_of_string
       Ascii.eqb Bool.eqb andb length skipn streq].
  unfold gorm.FirstUserByName, CompareHashAndPassword.
  rewrite Hq, Hd2, Hu, <- app_assoc, find_app_none by exact Hfree.
  cbn [app find]; rewrite Hn, streq_refl, Hp; reflexivity.
Qed.

Lemma otherNames_In (cur : option User.t) (us : list User.t) (n : gostring) :
  In n (otherNames cur us) <->
  exists u, In u us /\ User.Name u = n
            /\ forall c, cur = Some c -> User.ID u <> User.ID c.
Proof.
  induction us as [|u us IH]; cbn [otherNames].
  - split; [contradiction | intros (u & [] & _)].
  - destruct cur as [c|].
    + destruct (Z.eqb_spec (User.ID u) (User.ID c)) as [E | E].
      * rewrite IH; split.
        -- intros (x & Hx & Hn & Hc); exists x; auto with datatypes.
        -- intros (x & [-> | Hx] & Hn & Hc); [now elim (Hc c eq_refl)|].
           now exists x.
      * cbn [In]; rewrite IH; split.
        -- intros [<- | (x & Hx & Hn & Hc)].
           ++ exists u; repeat split; auto with datatypes.
              intros c' Hc'; inversion Hc'; now subst.
           ++ exists x; auto with datatypes.
        -- intros (x & [-> | Hx] & Hn & Hc); [now left | right; now exists x].
    + cbn [In]; rewrite IH; split.
      * intros [<- | (x & Hx & Hn & Hc)].
        -- exists u; repeat split; auto with datatypes; discriminate.
        -- exists x; auto with datatypes.
      * intros (x & [-> | Hx] & Hn & Hc); [now left | right; now exists x].
Qed.

(** X7. With a store that answers, the list command (whatever follows
    it on the line) never fails and changes nothing: it replies with the
    names of the users whose key is not the caller's, in the order of the
    table and separated by a comma and a blank, or with
    [(no other users)] when there are none.  When names are unique and
    the caller's entry is in the table, the caller's own name is not
    among them. *)
Theorem list_outcome (env : Env) (line : gostring) (cur : option User.t)
        (remote : gostring) (d : DB) (args : list gostring) :
  strings.Fields line = str "/list" :: args ->
  queryErr env = None ->
  handleCommand env line cur remote d
  = Ret (match otherNames cur (users d) with
         | [] => str "(no other users)"
         | _ :: _ => strings.Join (otherNames cur (users d)) (str ", ")
         end, None, cur, d)
  /\ (forall n,
         In n (otherNames cur (users d)) <->
         exists u, In u (users d) /\ User.Name u = n
                   /\ forall c, cur = Some c -> User.ID u <> User.ID c)
  /\ (forall c,
         cur = Some c -> In c (users d) ->
         NoDup (map User.Name (users d)) ->
         ~ In (User.Name c) (otherNames cur (users d))).
Proof.
  intros HF Hq; split; [|split].
  - unfold handleCommand; rewrite HF.
    cbn [strings.TrimPrefix strings.HasPrefix str list_ascii_of_string
         Ascii.eqb Bool.eqb andb length skipn streq].
    unfold gorm.FindUsers; rewrite Hq.
    destruct (otherNames cur (users d)); reflexivity.
  - intros n; apply otherNames_In.
  - intros c -> Hc Hnd Hin.
    apply otherNames_In in Hin as (u & Hu & Hn & Hid).
    assert (E : u = c).
    { clear - Hu Hc Hn Hnd.
      induction (users d) as [|x l IH]; [contradiction|].
      cbn [map] in Hnd; inversion Hnd as [|? ? Hx Hl]; subst.
      destruct Hu as [-> | Hu], Hc as [-> | Hc]; auto.
      - elim Hx; rewrite Hn; now apply in_map.
      - elim Hx; rewrite <- Hn; now apply in_map. }
    subst u; now apply (Hid c eq_refl).
Qed.

(** ** What the loop keeps *)

Lemma loop_invariant (P : State -> Prop) (remote : gostring) :
  (forall st raw env, P st -> P (fst (body remote st raw env))) ->
  forall (reads : list (gostring * Env)) (st : State),
    P st -> Forall P (fst (fst (loop remote reads st))).
Proof.
  intros Step; induction reads as [|[raw env] rest IH]; intros st Hst;
    [constructor|].
  cbn [loop]; pose proof (Step st raw env Hst) as Hb.
  destruct (body remote st raw env) as [st' out]; cbn [fst] in Hb.
  destruct out.
  - specialize (IH st' Hb).
    destruct (loop remote rest st') as [[tr o] un]; cbn [fst] in *.
    constructor; assumption.
  - repeat constructor; assumption.
  - repeat constructor; assumption.
Qed.

Lemma loop_chain (R : State -> State -> Prop) (remote : gostring) :
  (forall s, R s s) ->
  (forall a b c, R a b -> R b c -> R a c) ->
  (forall st raw env, R st (fst (body remote st raw env))) ->
  forall (reads : list (gostring * Env)) (st : State) (i j : nat) (si sj : State),
    (i <= j)%nat ->
    nth_error (st :: fst (fst (loop remote reads st))) i = Some si ->
    nth_error (st :: fst (fst (loop remote reads st))) j = Some sj ->
    R si sj.
Proof.
  intros Rrefl Rtrans Step.
  induction reads as [|[raw env] rest IH]; intros st i j si sj Hij Hi Hj.
  - destruct i as [|[|i]], j as [|[|j]]; simpl in Hi, Hj; try discriminate.
    inversion Hi; inversion Hj; subst; apply Rrefl.
  - cbn [loop] in Hi, Hj; pose proof (Step st raw env) as Hst.
    destruct (body remote st raw env) as [st' out]; cbn [fst] in Hst.
    assert (Stop : nth_error [st; st'] i = Some si ->
                   nth_error [st; st'] j = Some sj -> R si sj).
    { intros Hi' Hj'.
      destruct i as [|[|[|i]]], j as [|[|[|j]]]; simpl in Hi', Hj';
        try discriminate; try lia;
        inversion Hi'; inversion Hj'; subst; auto. }
    destruct out; cbn [fst] in Hi, Hj; [|now apply Stop|now apply Stop].
    specialize (IH st').
    destruct (loop remote rest st') as [[tr o] un]; cbn [fst] in *.
    destruct i as [|i], j as [|j]; cbn [nth_error] in Hi, Hj.
    + inversion Hi; inversion Hj; subst; apply Rrefl.
    + inversion Hi; subst si.
      apply (Rtrans _ st' _ Hst).
      apply (IH 0%nat j st' sj); [lia | reflexivity | exact Hj].
    + lia.
    + apply (IH i j si sj); [lia | exact Hi | exact Hj].
Qed.

Lemma CreateUser_ok_id (f : option error) (d : DB) (u : User.t)
      (d' : DB) (u' : User.t) :
  gorm.CreateUser f d u = (d', u', None) ->
  User.ID u' = gorm.nextID (map User.ID (users d)).
Proof.
  unfold gorm.CreateUser; destruct f; [congruence|].
  destruct (existsb _ _); [congruence|].
  intros H; inversion H; reflexivity.
Qed.

Lemma nameExists_false_notin (d : DB) (name : gostring) :
  nameExists d name = false -> ~ In name (map User.Name (users d)).
Proof.
  unfold nameExists; intros H Hin.
  apply in_map_iff in Hin as (u & Hn & Hu).
  assert (E : existsb (fun u => streq (User.Name u) name) (users d) = true)
    by (apply existsb_exists; exists u; split; [exact Hu | now apply streq_eq]).
  congruence.
Qed.

Lemma NoDup_snoc {A : Type} (l : list A) (x : A) :
  NoDup l -> ~ In x l -> NoDup (l ++ [x]).
Proof.
  intros Hl Hx; induction Hl as [|y l Hy Hl IH]; cbn [app].
  - constructor; [intros [] | constructor].
  - constructor.
    + rewrite in_app_iff; intros [H | [H | []]]; [contradiction|].
      subst; apply Hx; now left.
    + apply IH; intros H; apply Hx; now right.
Qed.

(** What a command does to the users table: nothing, or one entry
    appended, with a new key and a name that had no entry. *)
Lemma handleCommand_users (env : Env) (line : gostring)
      (cur : option User.t) (remote : gostring) (d : DB)
      (resp : gostring) (err : option error) (cur' : option User.t) (d' : DB) :
  handleCommand env line cur remote d = Ret (resp, err, cur', d') ->
  d' = d
  \/ exists u,
      users d' = users d ++ [u] /\ messages d' = messages d
      /\ cur' = Some u
      /\ User.ID u = gorm.nextID (map User.ID (users d))
      /\ nameExists d (User.Name u) = false.
Proof.
  cmd_cases; intros H; inversion H; subst; auto.
  - match goal with
    | E : gorm.CreateUser _ _ _ = (_, _, Some _) |- _ =>
      apply CreateUser_error in E; now left
    end.
  - match goal with
    | E : gorm.CreateUser _ _ _ = (_, ?u, None) |- _ =>
      pose proof (CreateUser_ok_id _ _ _ _ _ E) as Hid;
        apply CreateUser_ok in E; destruct E as (Hm & Hu & Hn & Hf);
        right; exists u; rewrite Hn; auto
    end.
Qed.

(** The database after one pass of the loop. *)
Lemma body_db (remote : gostring) (st : State) (raw : gostring) (env : Env) :
  db (fst (body remote st raw env)) = db st
  \/ (exists u,
         users (db (fst (body remote st raw env))) = users (db st) ++ [u]
         /\ messages (db (fst (body remote st raw env))) = messages (db st)
         /\ currentUser (fst (body remote st raw env)) = Some u
         /\ User.ID u = gorm.nextID (map User.ID (users (db st)))
         /\ nameExists (db st) (User.Name u) = false)
  \/ (exists m,
         users (db (fst (body remote st raw env))) = users (db st)
         /\ messages (db (fst (body remote st raw env))) = messages (db st) ++ [m]
         /\ currentUser (fst (body remote st raw env)) = currentUser st
         /\ Message.UserID m = option_map User.ID (currentUser st)
         /\ Message.UserName m
            = match currentUser st with Some c => User.Name c | None => [] end
         /\ Message.Addr m = remote
         /\ Message.Text m = strings.TrimSpace raw
         /\ Message.CreatedAt m = now env).
Proof.
  destruct (line_cases raw) as [E | [[Hne Hp] | [Hne Hp]]].
  - left; now rewrite body_blank.
  - destruct (handleCommand_total env (strings.TrimSpace raw) (currentUser st)
                                  remote (db st) (Fields_TrimSpace raw Hne))
      as [[[[resp err] cur'] d'] Hc].
    rewrite (body_command remote st raw env resp err cur' d' Hne Hp Hc).
    apply handleCommand_users in Hc.
    assert (G : d' = db st
                \/ exists u, users d' = users (db st) ++ [u]
                             /\ messages d' = messages (db st)
                             /\ cur' = Some u
                             /\ User.ID u = gorm.nextID (map User.ID (users (db st)))
                             /\ nameExists (db st) (User.Name u) = false)
      by exact Hc.
    cbv zeta; destruct err; [|destruct (negb _)]; cbn [fst db currentUser Write];
      (destruct G as [G | G]; [left; exact G | right; left; exact G]).
  - destruct (replyFor_total (strings.TrimSpace raw) (Fields_TrimSpace raw Hne))
      as [reply Hr].
    rewrite (body_payload remote st raw env reply Hne Hp Hr).
    cbn [fst db currentUser Write].
    unfold gorm.CreateMessage; destruct (createErr env); [now left|].
    right; right; cbn [fst users messages].
    eexists; repeat split; unfold newMessage; destruct (currentUser st); reflexivity.
Qed.

Lemma body_unique (remote : gostring) (st : State) (raw : gostring) (env : Env) :
  uniqueUsers (db st) -> uniqueUsers (db (fst (body remote st raw env))).
Proof.
  unfold uniqueUsers; intros [Hid Hn].
  destruct (body_db remote st raw env)
    as [-> | [(u & -> & _ & _ & Eid & Hf) | (m & -> & _)]]; auto.
  rewrite !map_app; cbn [map]; split; apply NoDup_snoc; auto.
  - rewrite Eid; intros Hin; apply nextID_above in Hin; lia.
  - now apply nameExists_false_notin.
Qed.

(** X8. Keys and names stay unique: when the users table the connection
    starts from has pairwise distinct keys and pairwise distinct names,
    so has the table in every state of the connection. *)
Theorem users_stay_unique (remote : gostring) (fault : option error)
        (werr : nat -> option error) (reads : list (gostring * Env)) (d : DB) :
  uniqueUsers d ->
  Forall (fun s => uniqueUsers (db s))
         (startState fault werr d
            :: fst (fst (handleConn remote fault werr reads d))).
Proof.
  intros Hd.
  assert (H0 : uniqueUsers (db (startState fault werr d)))
    by now rewrite (proj2 (startState_session fault werr d)).
  constructor; [exact H0|].
  unfold handleConn.
  apply (loop_invariant (fun s => uniqueUsers (db s)));
    [intros; now apply body_unique | exact H0].
Qed.

Lemma body_refs (remote : gostring) (st : State) (raw : gostring) (env : Env) :
  refsValid st -> refsValid (fst (body remote st raw env)).
Proof.
  intros [Hcur Hmsg].
  destruct (line_cases raw) as [E | [[Hne Hp] | [Hne Hp]]].
  - rewrite body_blank by assumption; now split.
  - destruct (handleCommand_total env (strings.TrimSpace raw) (currentUser st)
                                  remote (db st) (Fields_TrimSpace raw Hne))
      as [[[[resp err] cur'] d'] Hc].
    rewrite (body_command remote st raw env resp err cur' d' Hne Hp Hc).
    assert (G : (forall c, cur' = Some c -> In c (users d'))
                /\ (forall x, In x (users (db st)) -> In x (users d'))
                /\ messages d' = messages (db st)).
    { pose proof (handleCommand_messages _ _ _ _ _ _ _ _ _ Hc) as Hm.
      revert Hc; cmd_cases; intros H; inversion H; subst; cmd_inv;
        repeat split; auto;
        try (intros c Ec; inversion Ec; subst;
             match goal with
             | E : gorm.FirstUserByName _ _ _ = inl _ |- _ =>
               unfold gorm.FirstUserByName in E;
                 destruct (queryErr env); [discriminate|];
                 destruct (find _ _) eqn:Ef; [|discriminate];
                 inversion E; subst; now apply find_some in Ef
             end);
        match goal with
        | Eu : users _ = users _ ++ [_] |- _ =>
          rewrite Eu; intros; apply in_or_app;
            first [ left; assumption
                  | right; left;
                    match goal with Ec : Some _ = Some _ |- _ =>
                                    now inversion Ec end ]
        end. }
    destruct G as (G1 & G2 & G3).
    assert (R : refsValid {| db := d'; currentUser := cur'; written := written st |}).
    { split; cbn [db currentUser]; [exact G1|].
      intros m id Hm Hid; rewrite G3 in Hm.
      destruct (Hmsg m id Hm Hid) as (u & Hu & Hi & Hn).
      exists u; auto. }
    cbv zeta; destruct err; [|destruct (negb _)]; exact R.
  - destruct (replyFor_total (strings.TrimSpace raw) (Fields_TrimSpace raw Hne))
      as [reply Hr].
    rewrite (body_payload remote st raw env reply Hne Hp Hr).
    split; cbn [fst db currentUser Write];
      unfold gorm.CreateMessage; destruct (createErr env);
        cbn [fst users messages]; auto.
    intros m id Hm Hid; apply in_app_or in Hm as [Hm | [<- | []]];
      [now apply (Hmsg m id)|].
    unfold newMessage in *; destruct (currentUser st) as [c|];
      cbn [Message.UserID Message.UserName] in *; [|discriminate].
    inversion Hid; subst id; exists c; auto.
Qed.

(** X9. References stay valid: when every author in the log the
    connection starts from is the key and the name of an entry of the
    users table, then in every state of the connection the session's user
    is an entry of the table and every author in the log still is the
    key and the name of an entry. *)
Theorem references_stay_valid (remote : gostring) (fault : option error)
        (werr : nat -> option error) (reads : list (gostring * Env)) (d : DB) :
  (forall m id,
      In m (messages d) -> Message.UserID m = Some id ->
      exists u, In u (users d) /\ User.ID u = id
                /\ User.Name u = Message.UserName m) ->
  Forall refsValid
         (startState fault werr d
            :: fst (fst (handleConn remote fault werr reads d))).
Proof.
  intros Hd.
  assert (H0 : refsValid (startState fault werr d)).
  { destruct (startState_session fault werr d) as [Hc Hdb].
    split; rewrite ?Hc, ?Hdb; [discriminate | exact Hd]. }
  constructor; [exact H0|].
  unfold handleConn; apply (loop_invariant refsValid);
    [intros; now apply body_refs | exact H0].
Qed.

Lemma extends_refl (s : State) : extends s s.
Proof. repeat split; exists []; now rewrite app_nil_r. Qed.

Lemma extends_trans (a b c : State) : extends a b -> extends b c -> extends a c.
Proof.
  intros ((u1 & U1) & (m1 & M1) & (w1 & W1)) ((u2 & U2) & (m2 & M2) & (w2 & W2)).
  repeat split; [exists (u1 ++ u2) | exists (m1 ++ m2) | exists (w1 ++ w2)];
    rewrite app_assoc; congruence.
Qed.

Lemma body_written (remote : gostring) (st : State) (raw : gostring) (env : Env) :
  written (fst (body remote st raw env)) = written st
  \/ exists data,
      written (fst (body remote st raw env))
      = written st ++ [(data, writeErr env)].
Proof.
  destruct (line_cases raw) as [E | [[Hne Hp] | [Hne Hp]]].
  - left; now rewrite body_blank.
  - destruct (handleCommand_total env (strings.TrimSpace raw) (currentUser st)
                                  remote (db st) (Fields_TrimSpace raw Hne))
      as [[[[resp err] cur'] d'] Hc].
    rewrite (body_command remote st raw env resp err cur' d' Hne Hp Hc).
    cbv zeta; destruct err; [|destruct (negb _)]; cbn [fst written Write];
      [right; eexists; reflexivity | right; eexists; reflexivity | now left].
  - destruct (replyFor_total (strings.TrimSpace raw) (Fields_TrimSpace raw Hne))
      as [reply Hr].
    rewrite (body_payload remote st raw env reply Hne Hp Hr).
    right; eexists; reflexivity.
Qed.

Lemma body_extends (remote : gostring) (st : State) (raw : gostring) (env : Env) :
  extends st (fst (body remote st raw env)).
Proof.
  split; [|split].
  - destruct (body_db remote st raw env)
      as [-> | [(u & -> & _) | (m & -> & _)]];
      [exists [] | exists [u] | exists []]; now rewrite ?app_nil_r.
  - destruct (body_db remote st raw env)
      as [-> | [(u & _ & -> & _) | (m & _ & -> & _)]];
      [exists [] | exists [] | exists [m]]; now rewrite ?app_nil_r.
  - destruct (body_written remote st raw env) as [-> | [data ->]];
      [exists [] | eexists; reflexivity]; now rewrite app_nil_r.
Qed.

(** X10. Nothing is ever taken back: of two states of a connection, the
    later one has the users table, the message log and the writes of the
    earlier one, in the same order, with what came since appended. *)
Theorem tables_only_grow (remote : gostring) (fault : option error)
        (werr : nat -> option error) (reads : list (gostring * Env)) (d : DB)
        (i j : nat) (si sj : State) :
  (i <= j)%nat ->
  nth_error (startState fault werr d
               :: fst (fst (handleConn remote fault werr reads d))) i = Some si ->
  nth_error (startState fault werr d
               :: fst (fst (handleConn remote fault werr reads d))) j = Some sj ->
  extends si sj.
Proof.
  unfold handleConn; apply (loop_chain extends).
  - apply extends_refl.
  - apply extends_trans.
  - intros; apply body_extends.
Qed.

(** ** History replay, further *)

Lemma sendLoop_fails (werr : nat -> option error) (e : error)
      (msgs : list Message.t) :
  forall (st : State) (k : nat),
    (k < length msgs)%nat ->
    werr (length (written st) + k)%nat = Some e ->
    (forall j, (j < k)%nat -> werr (length (written st) + j)%nat = None) ->
    sendLoop werr msgs st =
    ({| db := db st; currentUser := currentUser st;
        written := written st
                     ++ map (fun m => (historyLine m, None)) (firstn k msgs)
                     ++ [(historyLine (nth k msgs (newMessage [] [] 0 None)),
                          Some e)] |},
     Some e).
Proof.
  induction msgs as [|m msgs IH]; intros st k Hk He Hok; [simpl in Hk; lia|].
  cbn [sendLoop]; destruct k as [|k].
  - rewrite Nat.add_0_r in He; rewrite He; reflexivity.
  - pose proof (Hok 0%nat ltac:(lia)) as H0; rewrite Nat.add_0_r in H0.
    rewrite H0, (IH (Write st (historyLine m) None) k).
    + cbn [Write db currentUser written firstn map nth].
      now rewrite <- app_assoc.
    + simpl in Hk; lia.
    + cbn [Write written]; rewrite length_app; cbn [length].
      now replace (length (written st) + 1 + k)%nat
        with (length (written st) + S k)%nat by lia.
    + intros j Hj; cbn [Write written]; rewrite length_app; cbn [length].
      replace (length (written st) + 1 + j)%nat
        with (length (written st) + S j)%nat by lia.
      apply Hok; lia.
Qed.

(** X11. History replay stops at the first write that fails: the records
    that the query returns before it (the query orders the log by the
    stored time stamps) have been written, in that order, the failing
    write is the last one made, its error is returned, and neither the
    database nor the session is touched. *)
Theorem history_stops_at_failed_write (werr : nat -> option error)
        (st : State) (k : nat) (e : error) :
  let msgs := gorm.orderByCreatedAt (messages (db st)) in
  (k < length msgs)%nat ->
  werr (length (written st) + k)%nat = Some e ->
  (forall j, (j < k)%nat -> werr (length (written st) + j)%nat = None) ->
  sendHistory None werr st =
  ({| db := db st; currentUser := currentUser st;
      written := written st
                   ++ map (fun m => (historyLine m, None)) (firstn k msgs)
                   ++ [(historyLine (nth k msgs (newMessage [] [] 0 None)),
                        Some e)] |},
   Some e).
Proof.
  intros msgs Hk He Hok; unfold sendHistory; cbn [gorm.FindMessagesOrdered].
  now apply sendLoop_fails.
Qed.

(** The state after the [i]-th pass of the loop comes from the state
    before it by [body] on the [i]-th line. *)
Lemma loop_nth (remote : gostring) (reads : list (gostring * Env)) :
  forall (st : State) (i : nat) (raw : gostring) (env : Env) (si : State),
    nth_error reads i = Some (raw, env) ->
    nth_error (fst (fst (loop remote reads st))) i = Some si ->
    exists sp,
      nth_error (st :: fst (fst (loop remote reads st))) i = Some sp
      /\ si = fst (body remote sp raw env).
Proof.
  induction reads as [|[raw0 env0] rest IH]; intros st i raw env si Hr Hs;
    [destruct i; discriminate|].
  cbn [loop] in *.
  destruct (body remote st raw0 env0) as [st' out] eqn:B.
  destruct i as [|i].
  - cbn [nth_error] in Hr; inversion Hr; subst raw0 env0.
    exists st; split; [reflexivity|].
    rewrite B; cbn [fst].
    destruct out; [destruct (loop remote rest st') as [[tr o] un]|..];
      cbn [fst nth_error] in Hs; now inversion Hs.
  - cbn [nth_error] in Hr.
    destruct out;
      [|cbn [fst nth_error] in Hs; destruct i; discriminate
       |cbn [fst nth_error] in Hs; destruct i; discriminate].
    specialize (IH st' i raw env si Hr).
    destruct (loop remote rest st') as [[tr o] un]; cbn [fst nth_error] in *.
    exact (IH Hs).
Qed.

Lemma body_payload_record (remote : gostring) (st : State) (raw : gostring)
      (env : Env) :
  strings.TrimSpace raw <> [] ->
  strings.HasPrefix (strings.TrimSpace raw) (str "/") = false ->
  createErr env = None ->
  exists m,
    messages (db (fst (body remote st raw env))) = messages (db st) ++ [m]
    /\ Message.Text m = strings.TrimSpace raw /\ Message.Addr m = remote
    /\ Message.CreatedAt m = now env
    /\ Message.UserID m = option_map User.ID (currentUser st).
Proof.
  intros Hne Hp Hc.
  destruct (replyFor_total (strings.TrimSpace raw) (Fields_TrimSpace raw Hne))
    as [reply Hr].
  rewrite (body_payload remote st raw env reply Hne Hp Hr), Hc.
  cbn [fst db Write gorm.CreateMessage messages].
  eexists; repeat split; unfold newMessage; destruct (currentUser st); reflexivity.
Qed.

(** X12. What one connection stored, the next one is shown: a payload
    line that a pass of the loop stored is a record of the log in every
    later state of that connection, and the history replay of a
    connection that starts from such a state writes the line of that
    record (when the log is read and the writes succeed). *)
Theorem history_reflects_earlier_lines
        (remote : gostring) (fault : option error) (werr werr2 : nat -> option error)
        (reads : list (gostring * Env)) (d : DB)
        (i j : nat) (raw : gostring) (env : Env) (si sj : State) :
  nth_error reads i = Some (raw, env) ->
  nth_error (fst (fst (handleConn remote fault werr reads d))) i = Some si ->
  nth_error (fst (fst (handleConn remote fault werr reads d))) j = Some sj ->
  (i <= j)%nat ->
  strings.TrimSpace raw <> [] ->
  strings.HasPrefix (strings.TrimSpace raw) (str "/") = false ->
  createErr env = None ->
  (forall k, werr2 k = None) ->
  exists m,
    In m (messages (db sj))
    /\ Message.Text m = strings.TrimSpace raw /\ Message.Addr m = remote
    /\ Message.CreatedAt m = now env
    /\ In (historyLine m, None) (written (startState None werr2 (db sj))).
Proof.
  unfold handleConn; intros Hr Hi Hj Hij Hne Hp Hc Hw.
  destruct (loop_nth remote reads _ i raw env si Hr Hi) as (sp & _ & ->).
  destruct (body_payload_record remote sp raw env Hne Hp Hc)
    as (m & Hm & Ht & Ha & Hn & _).
  assert (Hext : extends (fst (body remote sp raw env)) sj).
  { apply (loop_chain extends remote extends_refl extends_trans
                      (fun st r e => body_extends remote st r e)
                      reads (startState fault werr d) (S i) (S j));
      [lia | exact Hi | exact Hj]. }
  destruct Hext as (_ & (ms & Hms) & _).
  assert (Hin : In m (messages (db sj)))
    by (rewrite Hms, Hm; auto with datatypes).
  exists m; repeat split; auto.
  unfold startState, sendHistory; cbn [gorm.FindMessagesOrdered db].
  rewrite (sendLoop_ok werr2 _ Hw); cbn [fst written app].
  apply (in_map (fun m0 => (historyLine m0, None))).
  eapply Permutation_in; [apply orderByCreatedAt_perm | exact Hin].
Qed.

(** ** The read loop, further *)

Lemma last_cons_default {A : Type} (a : A) (l : list A) (d : A) :
  last (a :: l) d = last l a.
Proof.
  revert a d; induction l as [|b l IH]; intros a d; [reflexivity|].
  change (last (a :: b :: l) d) with (last (b :: l) d).
  now rewrite (IH b d), (IH b a).
Qed.

Lemma loop_skips_blank (remote : gostring) (reads : list (gostring * Env)) :
  forall st : State,
    last (fst (fst (loop remote reads st))) st
    = last (fst (fst (loop remote (filter (fun rd => negb (blank rd)) reads) st))) st
    /\ snd (fst (loop remote reads st))
       = snd (fst (loop remote (filter (fun rd => negb (blank rd)) reads) st))
    /\ filter (fun rd => negb (blank rd)) (snd (loop remote reads st))
       = snd (loop remote (filter (fun rd => negb (blank rd)) reads) st).
Proof.
  set (keep := fun rd : gostring * Env => negb (blank rd)).
  induction reads as [|[raw env] rest IH]; intros st; [repeat split|].
  cbn [filter].
  destruct (keep (raw, env)) eqn:K; unfold keep, blank in K; cbn [fst] in K.
  - cbn [loop]; destruct (body remote st raw env) as [st' out].
    destruct out; [|cbn [fst snd filter]; repeat split..].
    destruct (IH st') as (H1 & H2 & H3).
    destruct (loop remote rest st') as [[tr o] un].
    destruct (loop remote (filter keep rest) st') as [[tr' o'] un'].
    cbn [fst snd] in *; rewrite !last_cons_default; repeat split; assumption.
  - apply negb_false_iff, streq_nil in K.
    cbn [loop]; rewrite (body_blank remote st raw env K).
    destruct (IH st) as (H1 & H2 & H3).
    destruct (loop remote rest st) as [[tr o] un]; cbn [fst snd] in *.
    rewrite last_cons_default; repeat split; assumption.
Qed.

(** X13. Blank lines change nothing: a connection ends in the same state,
    in the same way and with the same lines unread (blank ones apart)
    whether or not the lines that are empty once trimmed are left out of
    what it reads. *)
Theorem blank_lines_ignored (remote : gostring) (fault : option error)
        (werr : nat -> option error) (reads : list (gostring * Env)) (d : DB) :
  let start := startState fault werr d in
  let kept := filter (fun rd => negb (blank rd)) reads in
  last (fst (fst (handleConn remote fault werr reads d))) start
  = last (fst (fst (handleConn remote fault werr kept d))) start
  /\ snd (fst (handleConn remote fault werr reads d))
     = snd (fst (handleConn remote fault werr kept d))
  /\ filter (fun rd => negb (blank rd)) (snd (handleConn remote fault werr reads d))
     = snd (handleConn remote fault werr kept d).
Proof. intros start kept; apply loop_skips_blank. Qed.

Lemma body_outcome (remote : gostring) (st : State) (raw : gostring) (env : Env) :
  snd (body remote st raw env) = Continue
  \/ (snd (body remote st raw env) = Return
      /\ writeErr env <> None
      /\ strings.TrimSpace raw <> []
      /\ strings.HasPrefix (strings.TrimSpace raw) (str "/") = false).
Proof.
  destruct (line_cases raw) as [E | [[Hne Hp] | [Hne Hp]]].
  - left; now rewrite body_blank.
  - destruct (handleCommand_total env (strings.TrimSpace raw) (currentUser st)
                                  remote (db st) (Fields_TrimSpace raw Hne))
      as [[[[resp err] cur'] d'] Hc].
    rewrite (body_command remote st raw env resp err cur' d' Hne Hp Hc).
    left; cbv zeta; destruct err; [|destruct (negb _)]; reflexivity.
  - destruct (replyFor_total (strings.TrimSpace raw) (Fields_TrimSpace raw Hne))
      as [reply Hr].
    rewrite (body_payload remote st raw env reply Hne Hp Hr); cbn [snd].
    destruct (writeErr env); [right | left]; repeat split; auto; discriminate.
Qed.

Lemma loop_end (remote : gostring) (reads : list (gostring * Env)) :
  forall st : State,
    snd (fst (loop remote reads st)) = Return
    /\ snd (loop remote reads st)
       = skipn (length (fst (fst (loop remote reads st)))) reads
    /\ (length (fst (fst (loop remote reads st))) <= length reads)%nat
    /\ (reads <> [] -> (1 <= length (fst (fst (loop remote reads st))))%nat)
    /\ (snd (loop remote reads st) <> [] ->
        exists raw env,
          nth_error reads (length (fst (fst (loop remote reads st))) - 1)
          = Some (raw, env)
          /\ writeErr env <> None
          /\ strings.TrimSpace raw <> []
          /\ strings.HasPrefix (strings.TrimSpace raw) (str "/") = false).
Proof.
  induction reads as [|[raw env] rest IH]; intros st.
  - cbn; repeat split; auto; congruence.
  - cbn [loop]; pose proof (body_outcome remote st raw env) as Ho.
    destruct (body remote st raw env) as [st' out]; cbn [snd] in Ho.
    destruct Ho as [-> | (-> & Hw & Hne & Hp)].
    + destruct (IH st') as (H1 & H2 & H3 & H4 & H5).
      destruct (loop remote rest st') as [[tr o] un]; cbn [fst snd length] in *.
      repeat split; auto; try lia.
      intros Hun; destruct (H5 Hun) as (r & e & Hn & Hrest).
      exists r, e; split; [|exact Hrest].
      assert (Hrest' : rest <> [])
        by (intros ->; rewrite skipn_nil in H2; congruence).
      specialize (H4 Hrest').
      destruct (length tr) as [|k]; [lia|].
      cbn [Nat.sub nth_error] in *; now rewrite Nat.sub_0_r in Hn.
    + cbn [fst snd length skipn]; repeat split; auto; try lia.
      intros _; exists raw, env; repeat split; auto.
Qed.

(** X14. The loop gives up on a failed reply only: it always ends by
    returning; it leaves lines unread only when the last line it handled
    was a payload line whose reply could not be written; hence when no
    write fails every line is read and handled. *)
Theorem loop_stops_on_failed_reply_only
        (remote : gostring) (fault : option error)
        (werr : nat -> option error) (reads : list (gostring * Env)) (d : DB) :
  let result := handleConn remote fault werr reads d in
  snd (fst result) = Return
  /\ snd result = skipn (length (fst (fst result))) reads
  /\ (snd result <> [] ->
      exists raw env,
        nth_error reads (length (fst (fst result)) - 1) = Some (raw, env)
        /\ writeErr env <> None
        /\ strings.TrimSpace raw <> []
        /\ strings.HasPrefix (strings.TrimSpace raw) (str "/") = false)
  /\ ((forall rd, In rd reads -> writeErr (snd rd) = None) ->
      snd result = [] /\ length (fst (fst result)) = length reads).
Proof.
  intros result; subst result; unfold handleConn.
  destruct (loop_end remote reads (startState fault werr d))
    as (H1 & H2 & H3 & H4 & H5).
  split; [exact H1 | split; [exact H2 | split; [exact H5|]]].
  intros Hall.
  assert (E : snd (loop remote reads (startState fault werr d)) = []).
  { destruct (snd (loop remote reads (startState fault werr d))) eqn:E;
      [reflexivity|].
    destruct H5 as (raw & env & Hn & Hw & _); [discriminate|].
    apply nth_error_In in Hn; now specialize (Hall _ Hn). }
  split; [exact E|].
  rewrite E in H2; symmetry in H2.
  apply (f_equal (@length _)) in H2; rewrite length_skipn in H2.
  cbn [length] in H2; lia.
Qed.

(** ** Lines without line feeds *)

Lemma oneLine_app (x : gostring) : noNL x = true -> oneLine (x ++ nl) = true.
Proof.
  unfold noNL; induction x as [|c x IH]; intros H; [reflexivity|].
  cbn [existsb] in H; rewrite negb_orb in H; apply andb_true_iff in H as [Hc Hx].
  cbn [app oneLine]; rewrite Hc, (IH Hx).
  destruct (x ++ nl) eqn:E; [destruct x; discriminate | reflexivity].
Qed.

Lemma oneLine_inv (s : gostring) :
  oneLine s = true -> exists x, s = x ++ nl /\ noNL x = true.
Proof.
  induction s as [|c t IH]; [discriminate|].
  cbn [oneLine]; destruct t as [|c' t'].
  - intros H; apply Ascii.eqb_eq in H; subst c; now exists [].
  - intros H; apply andb_true_iff in H as [Hc Ht].
    destruct (IH Ht) as (x & -> & Hx); exists (c :: x); split; [reflexivity|].
    unfold noNL in *; cbn [existsb]; rewrite negb_orb, Hc, Hx; reflexivity.
Qed.

Lemma noNL_firstn (k : nat) (w : gostring) : noNL w = true -> noNL (firstn k w) = true.
Proof.
  intros H; rewrite <- (firstn_skipn k w), noNL_app in H.
  now apply andb_true_iff in H.
Qed.

Lemma Join_noNL (ts : list gostring) (sep : gostring) :
  Forall (fun w => noNL w = true) ts -> noNL sep = true ->
  noNL (strings.Join ts sep) = true.
Proof.
  intros H Hs; induction H as [|t ts Ht Hts IH]; [reflexivity|].
  destruct ts as [|t2 ts]; [exact Ht|].
  change (strings.Join (t :: t2 :: ts) sep)
    with (t ++ sep ++ strings.Join (t2 :: ts) sep).
  now rewrite !noNL_app, Ht, Hs, IH.
Qed.

Lemma isToken_noNL (a : gostring) : isToken a = true -> noNL a = true.
Proof.
  intros Ha; pose proof (Fields_noNL a) as H.
  unfold strings.Fields, strings.FieldsFunc in H.
  rewrite (fields_token_end a None Ha) in H; now apply Forall_inv in H.
Qed.

Lemma Sprintf_d_noNL (v : Z) : noNL (fmt.Sprintf_d v) = true.
Proof.
  apply isToken_noNL, isIntToken_isToken, Sprintf_d_numeral.
Qed.

(** The reply to a line without line feed has none. *)
Lemma replyFor_noNL (line reply : gostring) :
  noNL line = true -> replyFor line = Ret reply -> noNL reply = true.
Proof.
  intros Hl; pose proof (Fields_noNL line) as HF.
  unfold replyFor; destruct (strings.Fields line) as [|t0 ts]; [discriminate|].
  apply Forall_inv_tail in HF.
  destruct (streq t0 (str "echo")).
  { destruct (2 <=? length (t0 :: ts))%nat; intros H; inversion H; subst;
      [|reflexivity].
    cbn [skipn]; now apply Join_noNL. }
  destruct (streq t0 (str "add")).
  { destruct ts as [|a [|b [|c ts]]]; try (intros H; inversion H; reflexivity).
    destruct (fmt.Sscanf_d a), (fmt.Sscanf_d b); intros H; inversion H;
      try reflexivity; apply Sprintf_d_noNL. }
  destruct (streq t0 (str "mul")).
  { destruct ts as [|a [|b [|c ts]]]; try (intros H; inversion H; reflexivity).
    destruct (fmt.Sscanf_d a), (fmt.Sscanf_d b); intros H; inversion H;
      try reflexivity; apply Sprintf_d_noNL. }
  destruct (strings.HasPrefix line (str "bytes "));
    [intros H; inversion H; apply Sprintf_d_noNL|].
  destruct (strings.HasPrefix line (str "words "));
    [intros H; inversion H; apply Sprintf_d_noNL|].
  intros H; inversion H; now rewrite noNL_app, Hl.
Qed.

Lemma findStart_le (s : gostring) (n : nat) :
  forall start : nat, (utf8.findStart s start n <= start)%nat.
Proof.
  induction n as [|n IH]; intros [|start']; cbn [utf8.findStart Nat.pred];
    try lia.
  destruct (utf8.RuneStart _); [lia|].
  specialize (IH start'); lia.
Qed.

(** Decoding backwards takes at least one byte, and no more than there
    are. *)
Lemma DecodeLast_size (s : gostring) :
  s <> [] -> (1 <= snd (utf8.DecodeLastRuneInString s) <= length s)%nat.
Proof.
  intros Hne; unfold utf8.DecodeLastRuneInString.
  destruct (length s) as [|start] eqn:El; [destruct s; simpl in El; congruence|].
  destruct (_ <? utf8.RuneSelf); [cbn [snd]; lia|].
  pose proof (findStart_le s (utf8.UTFMax - 1) start) as Hf.
  destruct (utf8.DecodeRuneInString _) as [r' size].
  destruct (Nat.eqb_spec (utf8.findStart s start (utf8.UTFMax - 1) + size) (S start));
    cbn [snd]; lia.
Qed.

Lemma lastIndexLoop_bound (f : Z -> bool) (truth : bool) (s : gostring) :
  forall i skip : nat,
    (i <= length s)%nat ->
    strings.lastIndexLoop f truth s i skip = -1
    \/ exists q : nat,
        strings.lastIndexLoop f truth s i skip = Z.of_nat q /\ (q < i)%nat.
Proof.
  induction i as [|i IH]; intros skip Hi; [now left|].
  cbn [strings.lastIndexLoop]; destruct skip as [|k].
  - assert (Hne : firstn (S i) s <> [])
      by (destruct s; [simpl in Hi; lia | discriminate]).
    pose proof (DecodeLast_size _ Hne) as Hs.
    rewrite length_firstn, Nat.min_l in Hs by lia.
    destruct (utf8.DecodeLastRuneInString (firstn (S i) s)) as [r size].
    cbn [snd] in Hs.
    destruct (Bool.eqb (f r) truth).
    + right; exists (S i - size)%nat; split; [reflexivity | lia].
    + destruct (IH (size - 1)%nat ltac:(lia)) as [E | (q & E & Hq)];
        [now left | right; exists q; split; [exact E | lia]].
  - destruct (IH k ltac:(lia)) as [E | (q & E & Hq)];
      [now left | right; exists q; split; [exact E | lia]].
Qed.

Lemma DecodeLast_nl (l : gostring) :
  utf8.DecodeLastRuneInString (l ++ nl) = (10, 1%nat).
Proof.
  unfold utf8.DecodeLastRuneInString.
  rewrite length_app; cbn [length nl]; rewrite Nat.add_1_r.
  rewrite app_nth2, Nat.sub_diag by lia; reflexivity.
Qed.

(** Trimming a line on the right takes off its line feed, at least. *)
Lemma TrimRightFunc_line (l : gostring) :
  exists k : nat,
    (k <= length l)%nat
    /\ strings.TrimRightFunc (l ++ nl) unicode.IsSpace = firstn k l.
Proof.
  unfold strings.TrimRightFunc, strings.lastIndexFunc.
  assert (El : length (l ++ nl) = S (length l))
    by (rewrite length_app; cbn [length nl]; lia).
  rewrite El; cbn [strings.lastIndexLoop].
  rewrite <- El, firstn_all, DecodeLast_nl; cbn [Bool.eqb unicode.IsSpace Nat.sub].
  change (Bool.eqb (unicode.IsSpace 10) false) with false; cbv iota.
  destruct (lastIndexLoop_bound unicode.IsSpace false (l ++ nl) (length l) 0
                                ltac:(lia)) as [E | (q & E & Hq)]; rewrite E.
  - exists 0%nat; split; [lia | reflexivity].
  - destruct ((0 <=? Z.of_nat q) && _).
    + rewrite Nat2Z.id.
      assert (Hsk : skipn q (l ++ nl) = skipn q l ++ nl).
      { rewrite skipn_app.
        replace (q - length l)%nat with 0%nat by lia; reflexivity. }
      assert (Hne : skipn q l <> []).
      { intros E0; apply (f_equal (@length _)) in E0.
        rewrite length_skipn in E0; cbn [length] in E0; lia. }
      rewrite Hsk.
      change (skipn q l ++ nl) with (skipn q l ++ "010"%char :: []).
      rewrite Decode_ext_ascii by (exact Hne || reflexivity).
      destruct (utf8.DecodeRuneInString (skipn q l)) as [r wid] eqn:D.
      pose proof (Decode_size _ r wid Hne D) as Hw.
      rewrite length_skipn in Hw; cbn [snd].
      exists (q + wid)%nat; split; [lia|].
      rewrite <- Nat2Z.inj_add, Nat2Z.id.
      rewrite firstn_app.
      replace (q + wid - length l)%nat with 0%nat by lia.
      now rewrite firstn_O, app_nil_r.
    + exists (q + 1)%nat; split; [lia|].
      replace (Z.of_nat q + 1) with (Z.of_nat (q + 1)) by lia.
      rewrite Nat2Z.id, firstn_app.
      replace (q + 1 - length l)%nat with 0%nat by lia.
      now rewrite firstn_O, app_nil_r.
Qed.

(** The trimmed form of a line holds no line feed. *)
Lemma TrimSpace_noNL (raw : gostring) :
  oneLine raw = true -> noNL (strings.TrimSpace raw) = true.
Proof.
  intros H; apply oneLine_inv in H as (l & -> & Hl).
  unfold strings.TrimSpace, strings.TrimFunc, strings.TrimLeftFunc,
    strings.indexFunc.
  destruct (strings.indexLoop unicode.IsSpace false (runes (l ++ nl)) 0 =? -1)
           eqn:E; [reflexivity|].
  apply Z.eqb_neq in E.
  destruct (indexLoop_found unicode.IsSpace (length (l ++ nl)) (l ++ nl) 0
                            (le_n _) E) as (k & Ek & Hk & _).
  rewrite Ek, Nat.add_0_l, Nat2Z.id.
  rewrite length_app in Hk; cbn [length nl] in Hk.
  rewrite skipn_app; replace (k - length l)%nat with 0%nat by lia.
  cbn [skipn].
  destruct (TrimRightFunc_line (skipn k l)) as (k' & _ & ->).
  now apply noNL_firstn, noNL_skipn.
Qed.

(** ** Every write is one line *)

Lemma loop_invariant_on (P : State -> Prop) (Q : gostring * Env -> Prop)
      (remote : gostring) :
  (forall st raw env, Q (raw, env) -> P st -> P (fst (body remote st raw env))) ->
  forall (reads : list (gostring * Env)) (st : State),
    Forall Q reads -> P st -> Forall P (fst (fst (loop remote reads st))).
Proof.
  intros Step; induction reads as [|[raw env] rest IH]; intros st HQ Hst;
    [constructor|].
  inversion HQ as [|? ? Hq Hrest]; subst.
  cbn [loop]; pose proof (Step st raw env Hq Hst) as Hb.
  destruct (body remote st raw env) as [st' out]; cbn [fst] in Hb.
  destruct out.
  - specialize (IH st' Hrest Hb).
    destruct (loop remote rest st') as [[tr o] un]; cbn [fst] in *.
    constructor; assumption.
  - repeat constructor; assumption.
  - repeat constructor; assumption.
Qed.

Lemma cleanDB_user (d : DB) (u : User.t) :
  cleanDB d = true -> In u (users d) -> noNL (User.Name u) = true.
Proof.
  unfold cleanDB; intros H Hin; apply andb_true_iff in H as [H _].
  rewrite forallb_forall in H; now apply H.
Qed.

Lemma cleanDB_add_user (d d' : DB) (u : User.t) :
  cleanDB d = true -> noNL (User.Name u) = true ->
  users d' = users d ++ [u] -> messages d' = messages d ->
  cleanDB d' = true.
Proof.
  unfold cleanDB; intros H Hu -> ->; apply andb_true_iff in H as [H1 H2].
  rewrite forallb_app, H1, H2; cbn [forallb]; now rewrite Hu.
Qed.

(** A command leaves the database and the session clean, and what it
    answers on success holds no line feed. *)
Lemma handleCommand_clean (env : Env) (line : gostring)
      (cur : option User.t) (remote : gostring) (d : DB)
      (resp : gostring) (err : option error) (cur' : option User.t) (d' : DB) :
  handleCommand env line cur remote d = Ret (resp, err, cur', d') ->
  cleanDB d = true -> cleanUser cur = true ->
  cleanDB d' = true /\ cleanUser cur' = true /\ noNL resp = true.
Proof.
  intros H Hd Hcur.
  pose proof (Fields_noNL line) as HF.
  revert H; unfold handleCommand.
  destruct (strings.Fields line) as [|p0 ps] eqn:EF; [discriminate|].
  apply Forall_inv_tail in HF.
  destruct (streq _ (str "setname")).
  { destruct ps as [|name [|pw [|x ps]]];
      try (intros H; inversion H; subst; auto).
    revert H; apply Forall_inv in HF.
    destruct (gorm.FirstUserByName _ _ _);
      [intros H; inversion H; subst; auto|].
    destruct (GenerateFromPassword _ _);
      [|intros H; inversion H; subst; auto].
    destruct (gorm.CreateUser _ _ _) as [[d1 u1] [e1|]] eqn:EC;
      intros H; inversion H; subst.
    - apply CreateUser_error in EC; subst; auto.
    - apply CreateUser_ok in EC; destruct EC as (Hm & Hu & Hn & _).
      cbn [User.Name] in Hn.
      assert (Hn1 : noNL (User.Name u1) = true) by (rewrite Hn; exact HF).
      split; [exact (cleanDB_add_user d d' u1 Hd Hn1 Hu Hm)|].
      split; [exact Hn1|].
      change (noNL (str "OK: registered and logged in as " ++ name) = true).
      rewrite noNL_app, HF; reflexivity. }
  destruct (streq _ (str "connect")).
  { destruct ps as [|name [|pw [|x ps]]];
      try (intros H; inversion H; subst; auto).
    revert H; apply Forall_inv in HF.
    unfold gorm.FirstUserByName.
    destruct (queryErr env); [intros H; inversion H; subst; auto|].
    destruct (find _ (users d)) as [u|] eqn:Ef;
      [|intros H; inversion H; subst; auto].
    destruct (CompareHashAndPassword _ _); intros H; inversion H; subst; auto.
    apply find_some in Ef as [Hin _].
    split; [exact Hd|]; split; [exact (cleanDB_user d' u Hd Hin)|].
    change (noNL (str "OK: logged in as " ++ name) = true).
    rewrite noNL_app, HF; reflexivity. }
  destruct (streq _ (str "list")).
  { unfold gorm.FindUsers; destruct (queryErr env);
      [intros H; inversion H; subst; auto|].
    assert (Hout : Forall (fun w => noNL w = true) (otherNames cur (users d))).
    { apply Forall_forall; intros n Hn.
      apply otherNames_In in Hn as (u & Hin & <- & _).
      exact (cleanDB_user d u Hd Hin). }
    destruct (otherNames cur (users d)) as [|n0 ns] eqn:Eo;
      intros H; inversion H; subst; auto.
    split; [exact Hd|]; split; [exact Hcur|].
    change (noNL (strings.Join (n0 :: ns) (str ", ")) = true).
    now apply Join_noNL. }
  intros H; inversion H; subst; auto.
Qed.

Lemma cleanState_Write (st : State) (data : gostring) (e : option error) :
  cleanState st = true -> oneLine data = true ->
  cleanState (Write st data e) = true.
Proof.
  unfold cleanState, Write; cbn [db currentUser written]; intros H Hd.
  apply andb_true_iff in H as [H1 H2].
  rewrite H1, forallb_app, H2; cbn [forallb fst]; now rewrite Hd.
Qed.

(** The history line of a clean record is one line. *)
Lemma historyLine_oneLine (m : Message.t) :
  noNL (Message.UserName m) = true -> noNL (Message.Addr m) = true ->
  noNL (Message.Text m) = true -> noNL (Format (Message.CreatedAt m)) = true ->
  oneLine (historyLine m) = true.
Proof.
  intros Hn Ha Ht Hf; unfold historyLine.
  rewrite !app_assoc; apply oneLine_app.
  rewrite !noNL_app, Hf, Ht.
  destruct (streq _ []); [rewrite Ha | rewrite Hn]; reflexivity.
Qed.

Lemma sendLoop_clean (werr : nat -> option error) (msgs : list Message.t) :
  forall st : State,
    Forall (fun m => oneLine (historyLine m) = true) msgs ->
    cleanState st = true ->
    cleanState (fst (sendLoop werr msgs st)) = true.
Proof.
  induction msgs as [|m msgs IH]; intros st HF Hst; [exact Hst|].
  inversion HF as [|? ? Hm Hms]; subst.
  cbn [sendLoop]; cbv zeta.
  pose proof (cleanState_Write st (historyLine m)
                               (werr (length (written st))) Hst Hm) as Hw.
  destruct (werr (length (written st))) as [e|]; [exact Hw|].
  now apply IH.
Qed.

Lemma startState_clean (fault : option error) (werr : nat -> option error)
      (d : DB) :
  cleanDB d = true -> cleanState (startState fault werr d) = true.
Proof.
  intros Hd.
  assert (H0 : cleanState {| db := d; currentUser := None; written := [] |}
               = true)
    by (unfold cleanState; cbn [db currentUser written cleanUser forallb];
        now rewrite Hd).
  unfold startState, sendHistory, gorm.FindMessagesOrdered; cbn [db].
  destruct fault; [exact H0|].
  apply sendLoop_clean; [|exact H0].
  apply Forall_forall; intros m Hm.
  apply (Permutation_in m (Permutation_sym (orderByCreatedAt_perm (messages d))))
    in Hm.
  unfold cleanDB in Hd; apply andb_true_iff in Hd as [_ Hd].
  rewrite forallb_forall in Hd; specialize (Hd m Hm).
  apply andb_true_iff in Hd as [Hd H4]; apply andb_true_iff in Hd as [Hd H3].
  apply andb_true_iff in Hd as [H1 H2].
  now apply historyLine_oneLine.
Qed.

Lemma body_clean (remote : gostring) (st : State) (raw : gostring) (env : Env) :
  noNL remote = true -> cleanRead (raw, env) = true ->
  cleanState st = true -> cleanState (fst (body remote st raw env)) = true.
Proof.
  intros Hrem Hrd Hst.
  unfold cleanRead in Hrd; cbn [fst snd] in Hrd.
  apply andb_true_iff in Hrd as [Hrd Hc]; apply andb_true_iff in Hrd as [Hrd Hq].
  apply andb_true_iff in Hrd as [Hraw Hfmt].
  pose proof (TrimSpace_noNL raw Hraw) as Hline.
  pose proof Hst as Hst0.
  unfold cleanState in Hst; apply andb_true_iff in Hst as [Hst Hw].
  apply andb_true_iff in Hst as [Hd Hcur].
  destruct (line_cases raw) as [E | [[Hne Hp] | [Hne Hp]]].
  - now rewrite body_blank.
  - destruct (handleCommand_total env (strings.TrimSpace raw) (currentUser st)
                                  remote (db st) (Fields_TrimSpace raw Hne))
      as [[[[resp err] cur'] d'] Hcm].
    rewrite (body_command remote st raw env resp err cur' d' Hne Hp Hcm).
    destruct (handleCommand_clean _ _ _ _ _ _ _ _ _ Hcm Hd Hcur)
      as (Hd' & Hcur' & Hresp).
    assert (H1 : cleanState {| db := d'; currentUser := cur';
                               written := written st |} = true)
      by (unfold cleanState; cbn [db currentUser written];
          now rewrite Hd', Hcur', Hw).
    cbv zeta; destruct err as [e|]; cbn [fst].
    + apply cleanState_Write; [exact H1|].
      rewrite app_assoc; apply oneLine_app.
      rewrite noNL_app, (handleCommand_error_line _ _ _ _ _ _ _ _ _ Hcm Hq Hc).
      reflexivity.
    + destruct (negb _); cbn [fst]; [|exact H1].
      apply cleanState_Write; [exact H1 | now apply oneLine_app].
  - destruct (replyFor_total (strings.TrimSpace raw) (Fields_TrimSpace raw Hne))
      as [reply Hr].
    rewrite (body_payload remote st raw env reply Hne Hp Hr); cbn [fst].
    apply cleanState_Write;
      [|apply oneLine_app; exact (replyFor_noNL _ _ Hline Hr)].
    unfold cleanState; cbn [db currentUser written]; rewrite Hcur, Hw.
    rewrite !andb_true_r.
    unfold gorm.CreateMessage; destruct (createErr env); [exact Hd|].
    cbn [fst]; unfold cleanDB in *; cbn [users messages].
    apply andb_true_iff in Hd as [Hu Hm]; rewrite Hu, forallb_app, Hm.
    cbn [forallb Message.UserName Message.Addr Message.Text Message.CreatedAt].
    unfold newMessage, cleanUser in *.
    destruct (currentUser st) as [c|];
      cbn [Message.UserName Message.Addr Message.Text Message.CreatedAt];
      rewrite ?Hcur, Hrem, Hline, Hfmt; reflexivity.
Qed.

(** X15. Every write is one line.  When the origin address holds no line
    feed, the database the connection starts from is clean (no line
    feed in a name, an address, a text or a formatted time) and every
    read delivers one line, at a time that formats without line feed
    and with one-line fault messages, then in every state of the
    connection each write made so far, failed or not, is some bytes
    without line feed followed by one line feed, and the database is
    clean again: history lines, command answers, [ERR:] lines and
    replies never break a line, and never carry two. *)
Theorem every_write_is_one_line (remote : gostring) (fault : option error)
        (werr : nat -> option error) (reads : list (gostring * Env)) (d : DB) :
  noNL remote = true -> cleanDB d = true -> forallb cleanRead reads = true ->
  Forall (fun s => cleanState s = true)
         (startState fault werr d
            :: fst (fst (handleConn remote fault werr reads d))).
Proof.
  intros Hrem Hd Hreads.
  pose proof (startState_clean fault werr d Hd) as H0.
  constructor; [exact H0|].
  unfold handleConn.
  apply (loop_invariant_on (fun s => cleanState s = true)
                           (fun rd => cleanRead rd = true));
    [intros; now apply body_clean | | exact H0].
  apply Forall_forall; rewrite forallb_forall in Hreads; exact Hreads.
Qed.

(** ** Trimming twice *)

Lemma first_Lead_hi (z : Z) (sz : nat) (lo hi : Z) :
  utf8.first z = utf8.Lead sz lo hi -> hi <= 0xBF.
Proof.
  unfold utf8.first, utf8.locb, utf8.hicb.
  split_ifs; intros H; inversion H; subst; lia.
Qed.

Lemma outside_not_cont (lo hi b : Z) :
  0x80 <= lo -> hi <= 0xBF -> isCont b = false -> utf8.outside lo hi b = true.
Proof.
  unfold isCont, utf8.outside; intros Hlo Hhi H.
  apply andb_false_iff in H as [H | H]; apply orb_true_iff.
  - left; apply Z.ltb_lt; apply Z.leb_gt in H; lia.
  - right; apply Z.ltb_lt; apply Z.ltb_ge in H; lia.
Qed.

(** What follows a sequence does not change how it decodes, when it
    starts with a byte that continues nothing. *)
Lemma Decode_ext_start (x : gostring) (c : ascii) (y : gostring) :
  x <> [] -> isCont (byteval c) = false ->
  utf8.DecodeRuneInString (x ++ c :: y) = utf8.DecodeRuneInString x.
Proof.
  intros Hne Hc; unfold utf8.DecodeRuneInString.
  destruct x as [|c0 x]; [congruence|].
  rewrite <- app_comm_cons.
  destruct (utf8.first (byteval c0)) eqn:F; auto.
  pose proof (first_Lead_hi _ _ _ _ F) as Hhi.
  apply first_Lead in F as (Hsz & Hlo & _).
  pose proof (outside_not_cont lo hi _ Hlo Hhi Hc) as O1.
  assert (O2 : utf8.outside utf8.locb utf8.hicb (byteval c) = true)
    by (apply outside_not_cont; [unfold utf8.locb | unfold utf8.hicb | exact Hc]; lia).
  destruct x as [|c1 [|c2 [|c3 x]]]; simpl;
    destruct Hsz as [-> | [-> | ->]]; simpl;
    repeat first [ rewrite O1 | rewrite O2
                 | match goal with
                   | |- context [if ?b then _ else _] => destruct b eqn:?
                   end ]; auto.
Qed.

Lemma Decode_high_single (c : ascii) :
  0x80 <= byteval c -> utf8.DecodeRuneInString [c] = (utf8.RuneError, 1%nat).
Proof.
  intros Hc; unfold utf8.DecodeRuneInString.
  destruct (utf8.first (byteval c)) eqn:F; [|reflexivity|].
  - apply first_AS in F; lia.
  - apply first_Lead in F as (Hsz & _).
    destruct Hsz as [-> | [-> | ->]]; reflexivity.
Qed.

Lemma Decode_cont_head (c : ascii) (t : gostring) :
  isCont (byteval c) = true ->
  utf8.DecodeRuneInString (c :: t) = (utf8.RuneError, 1%nat).
Proof.
  unfold isCont; intros H; apply andb_true_iff in H as [H1 H2].
  apply Z.leb_le in H1; apply Z.ltb_lt in H2.
  unfold utf8.DecodeRuneInString, utf8.first.
  destruct (Z.ltb_spec (byteval c) 0x80); [lia|].
  destruct (Z.ltb_spec (byteval c) 0xC2); [reflexivity | lia].
Qed.

(** The three ways [DecodeLastRuneInString] answers. *)
Lemma DecodeLast_cases (s : gostring) (r : Z) (size : nat) :
  s <> [] -> utf8.DecodeLastRuneInString s = (r, size) ->
  (size = 1%nat /\ byteval (nth (length s - 1) s "000"%char) < 0x80)
  \/ (0x80 <= byteval (nth (length s - 1) s "000"%char)
      /\ exists start : nat,
          (start + size)%nat = length s
          /\ utf8.DecodeRuneInString (skipn start s) = (r, size))
  \/ (0x80 <= byteval (nth (length s - 1) s "000"%char)
      /\ r = utf8.RuneError /\ size = 1%nat).
Proof.
  intros Hne; unfold utf8.DecodeLastRuneInString.
  destruct (length s) as [|start] eqn:El; [destruct s; simpl in El; congruence|].
  cbn [Nat.sub]; rewrite Nat.sub_0_r.
  unfold utf8.RuneSelf.
  destruct (Z.ltb_spec (byteval (nth start s "000"%char)) 0x80) as [Hlt | Hge].
  - intros H; inversion H; subst; now left.
  - destruct (utf8.DecodeRuneInString _) as [r' size'] eqn:D.
    destruct (Nat.eqb_spec (utf8.findStart s start (utf8.UTFMax - 1) + size')
                           (S start)) as [E | E];
      intros H; inversion H; subst.
    + right; left; split; [exact Hge|].
      eexists; split; [exact E | exact D].
    + right; right; auto.
Qed.

Lemma skipn_last (s : gostring) :
  s <> [] -> skipn (length s - 1) s = [nth (length s - 1) s "000"%char].
Proof.
  induction s as [|c t IH]; [congruence|]; intros _.
  cbn [length Nat.sub]; rewrite Nat.sub_0_r.
  destruct t as [|c' t']; [reflexivity|].
  specialize (IH ltac:(discriminate)).
  cbn [length Nat.sub] in IH; rewrite Nat.sub_0_r in IH.
  cbn [length]; cbn [skipn nth]; exact IH.
Qed.

Lemma skipn_app_le (n : nat) (s rest : gostring) :
  (n <= length s)%nat -> skipn n (s ++ rest) = skipn n s ++ rest.
Proof.
  intros H; rewrite skipn_app.
  replace (n - length s)%nat with 0%nat by lia; reflexivity.
Qed.

Lemma Decode_ext_rest (x rest : gostring) :
  x <> [] -> startAt (x ++ rest) (length x) = true ->
  utf8.DecodeRuneInString (x ++ rest) = utf8.DecodeRuneInString x.
Proof.
  intros Hne; unfold startAt.
  rewrite skipn_app, skipn_all, Nat.sub_diag; cbn [app skipn].
  destruct rest as [|c rest]; [now rewrite app_nil_r|].
  intros H; apply negb_true_iff in H; now apply Decode_ext_start.
Qed.

(** Where [TrimRightFunc] cuts, given the rune that the backward scan
    stopped at: just behind that rune, when what follows it starts
    anew. *)
Lemma trim_end_position (s rest : gostring) (r : Z) (size : nat) :
  s <> [] -> startAt (s ++ rest) (length s) = true ->
  utf8.DecodeLastRuneInString s = (r, size) ->
  (if (0 <=? Z.of_nat (length s - size))
      && (utf8.RuneSelf
          <=? byteval (nth (Z.to_nat (Z.of_nat (length s - size)))
                           (s ++ rest) "000"%char))
   then Z.of_nat (length s - size)
        + Z.of_nat (snd (utf8.DecodeRuneInString
                           (skipn (Z.to_nat (Z.of_nat (length s - size)))
                                  (s ++ rest))))
   else Z.of_nat (length s - size) + 1)
  = Z.of_nat (length s).
Proof.
  intros Hne Hst D.
  pose proof (DecodeLast_size s Hne) as Hsz; rewrite D in Hsz; cbn [snd] in Hsz.
  rewrite Nat2Z.id.
  replace (0 <=? Z.of_nat (length s - size)) with true
    by (symmetry; apply Z.leb_le; lia).
  rewrite andb_true_l, app_nth1, skipn_app_le by lia.
  assert (Hrest : forall x, x <> [] -> length x = size ->
                            skipn (length s - size) s = x ->
                            utf8.DecodeRuneInString (x ++ rest)
                            = utf8.DecodeRuneInString x).
  { intros x Hx Hlen Ex; apply Decode_ext_rest; [exact Hx|].
    unfold startAt in *; rewrite <- Ex.
    rewrite <- (skipn_app_le (length s - size) s rest) by lia.
    rewrite skipn_skipn, length_skipn.
    replace (length s - (length s - size) + (length s - size))%nat
      with (length s) by lia.
    exact Hst. }
  assert (Hlen : length (skipn (length s - size) s) = size)
    by (rewrite length_skipn; lia).
  assert (Hx : skipn (length s - size) s <> [])
    by (intros E; rewrite E in Hlen; cbn [length] in Hlen; lia).
  rewrite (Hrest _ Hx Hlen eq_refl).
  unfold utf8.RuneSelf.
  destruct (DecodeLast_cases s r size Hne D)
    as [[-> Hlt] | [(Hge & start & Es & Ds) | (Hge & -> & ->)]].
  - destruct (Z.leb_spec 0x80 (byteval (nth (length s - 1) s "000"%char)));
      lia.
  - replace (length s - size)%nat with start in * by lia.
    rewrite Ds; cbn [snd].
    destruct (Z.leb_spec 0x80 (byteval (nth start s "000"%char))) as [H | H];
      [lia|].
    destruct (skipn start s) as [|c t] eqn:Ec; [congruence|].
    assert (Hc : nth start s "000"%char = c).
    { rewrite <- (Nat.add_0_r start), <- nth_skipn, Ec; reflexivity. }
    rewrite Hc in H; rewrite (Decode_ascii c t H) in Ds.
    inversion Ds; subst; lia.
  - rewrite skipn_last, Decode_high_single by assumption; cbn [snd].
    destruct (Z.leb_spec 0x80 (byteval (nth (length s - 1) s "000"%char)));
      lia.
Qed.

(** A rune that is white space starts at a byte that continues
    nothing. *)
Lemma space_starts (s rest : gostring) (r : Z) (size : nat) :
  s <> [] -> utf8.DecodeLastRuneInString s = (r, size) ->
  unicode.IsSpace r = true ->
  startAt (s ++ rest) (length s - size) = true.
Proof.
  intros Hne D Hsp.
  pose proof (DecodeLast_size s Hne) as Hsz; rewrite D in Hsz; cbn [snd] in Hsz.
  unfold startAt; rewrite skipn_app_le by lia.
  destruct (DecodeLast_cases s r size Hne D)
    as [[-> Hlt] | [(Hge & start & Es & Ds) | (Hge & -> & ->)]].
  - rewrite skipn_last by assumption; cbn [app].
    apply negb_true_iff; unfold isCont; apply andb_false_iff; left.
    apply Z.leb_gt; exact Hlt.
  - replace (length s - size)%nat with start by lia.
    destruct (skipn start s) as [|c t] eqn:Ec;
      [cbn in Ds; inversion Ds; subst; lia|].
    cbn [app]; destruct (isCont (byteval c)) eqn:Hc; [|reflexivity].
    rewrite (Decode_cont_head c t Hc) in Ds; inversion Ds; subst.
    rewrite IsSpace_RuneError in Hsp; discriminate.
  - rewrite IsSpace_RuneError in Hsp; discriminate.
Qed.

(** The backward scan of [TrimRightFunc] stops just behind a rune that
    is no white space, or finds none. *)
Lemma lastIndexLoop_trim (y : gostring) :
  forall i skip : nat,
    (skip <= i)%nat -> (i <= length y)%nat -> startAt y (i - skip) = true ->
    strings.lastIndexLoop unicode.IsSpace false y i skip = -1
    \/ exists (e size : nat),
        (0 < e <= length y)%nat
        /\ strings.lastIndexLoop unicode.IsSpace false y i skip
           = Z.of_nat (e - size)
        /\ utf8.DecodeLastRuneInString (firstn e y)
           = (fst (utf8.DecodeLastRuneInString (firstn e y)), size)
        /\ unicode.IsSpace (fst (utf8.DecodeLastRuneInString (firstn e y)))
           = false
        /\ startAt y e = true.
Proof.
  induction i as [|i IH]; intros skip Hsk Hi Hst; [now left|].
  cbn [strings.lastIndexLoop]; destruct skip as [|k].
  - rewrite Nat.sub_0_r in Hst.
    assert (Hne : firstn (S i) y <> [])
      by (destruct y; [simpl in Hi; lia | discriminate]).
    assert (Hl : length (firstn (S i) y) = S i)
      by (rewrite length_firstn; lia).
    pose proof (DecodeLast_size _ Hne) as Hs; rewrite Hl in Hs.
    destruct (utf8.DecodeLastRuneInString (firstn (S i) y)) as [r size] eqn:D.
    cbn [snd] in Hs.
    destruct (unicode.IsSpace r) eqn:Hsp; cbn [Bool.eqb].
    + apply IH; [lia | lia |].
      pose proof (space_starts _ (skipn (S i) y) r size Hne D Hsp) as H.
      rewrite firstn_skipn, Hl in H.
      replace (i - (size - 1))%nat with (S i - size)%nat by lia; exact H.
    + right; exists (S i), size; rewrite D; cbn [fst]; repeat split; auto; lia.
  - apply IH; [lia | lia | exact Hst].
Qed.

(** What [TrimRightFunc] leaves is empty or ends in a rune that is no
    white space. *)
Lemma TrimRightFunc_trimmed (y : gostring) :
  strings.TrimRightFunc y unicode.IsSpace = []
  \/ exists e : nat,
      (0 < e <= length y)%nat
      /\ strings.TrimRightFunc y unicode.IsSpace = firstn e y
      /\ unicode.IsSpace (fst (utf8.DecodeLastRuneInString (firstn e y)))
         = false.
Proof.
  unfold strings.TrimRightFunc, strings.lastIndexFunc.
  destruct (lastIndexLoop_trim y (length y) 0 ltac:(lia) ltac:(lia))
    as [E | (e & size & He & E & D & Hsp & Hst)].
  - unfold startAt; now rewrite Nat.sub_0_r, skipn_all.
  - rewrite E; left; reflexivity.
  - right; exists e; split; [exact He|]; split; [|exact Hsp].
    rewrite E.
    assert (Hne : firstn e y <> [])
      by (destruct y, e; simpl in *; try lia; discriminate).
    assert (Hl : length (firstn e y) = e) by (rewrite length_firstn; lia).
    pose proof (trim_end_position
                  (firstn e y) (skipn e y)
                  (fst (utf8.DecodeLastRuneInString (firstn e y))) size Hne)
      as H.
    rewrite firstn_skipn, Hl in H.
    rewrite (H Hst D), Nat2Z.id; reflexivity.
Qed.

(** What [TrimSpace] leaves is empty, or starts and ends with a rune
    that is no white space. *)
Lemma TrimSpace_trimmed (l : gostring) :
  strings.TrimSpace l = []
  \/ (unicode.IsSpace (fst (utf8.DecodeRuneInString (strings.TrimSpace l)))
      = false
      /\ unicode.IsSpace
           (fst (utf8.DecodeLastRuneInString (strings.TrimSpace l)))
         = false).
Proof.
  unfold strings.TrimSpace, strings.TrimFunc.
  destruct (TrimRightFunc_trimmed (strings.TrimLeftFunc l unicode.IsSpace))
    as [E | (e & He & E & Hsp)]; [now left|].
  right; rewrite E; split; [|exact Hsp].
  revert He; unfold strings.TrimLeftFunc, strings.indexFunc.
  destruct (strings.indexLoop unicode.IsSpace false (runes l) 0 =? -1) eqn:Ei;
    [cbn [length]; lia|].
  apply Z.eqb_neq in Ei.
  destruct (indexLoop_found unicode.IsSpace (length l) l 0 (le_n _) Ei)
    as (k & Ek & Hk & Hf).
  rewrite Ek, Nat.add_0_l, Nat2Z.id; intros He.
  assert (Hne : firstn e (skipn k l) <> [])
    by (destruct (skipn k l), e; simpl in *; try lia; discriminate).
  destruct (Decode_ext (firstn e (skipn k l)) (skipn e (skipn k l)) Hne)
    as [D | D].
  - rewrite firstn_skipn in D; rewrite <- D; exact Hf.
  - rewrite D; exact IsSpace_RuneError.
Qed.

(** A trimmed line and a line feed trim to the line. *)
Lemma TrimSpace_fixed (x : gostring) :
  x <> [] ->
  unicode.IsSpace (fst (utf8.DecodeRuneInString x)) = false ->
  unicode.IsSpace (fst (utf8.DecodeLastRuneInString x)) = false ->
  strings.TrimSpace (x ++ nl) = x.
Proof.
  intros Hne HA HB; unfold strings.TrimSpace, strings.TrimFunc.
  assert (TL : strings.TrimLeftFunc (x ++ nl) unicode.IsSpace = x ++ nl).
  { unfold strings.TrimLeftFunc, strings.indexFunc.
    destruct x as [|c t]; [congruence|].
    rewrite <- app_comm_cons, runes_cons; cbn [strings.indexLoop].
    rewrite app_comm_cons.
    change ((c :: t) ++ nl) with ((c :: t) ++ "010"%char :: []).
    rewrite Decode_ext_ascii by (discriminate || reflexivity).
    rewrite HA; reflexivity. }
  rewrite TL; unfold strings.TrimRightFunc, strings.lastIndexFunc.
  assert (El : length (x ++ nl) = S (length x))
    by (rewrite length_app; cbn [length nl]; lia).
  rewrite El; cbn [strings.lastIndexLoop].
  rewrite <- El, firstn_all, DecodeLast_nl.
  change (Bool.eqb (unicode.IsSpace 10) false) with false; cbv iota.
  cbn [Nat.sub].
  destruct (length x) as [|n] eqn:Elx; [destruct x; simpl in Elx; congruence|].
  cbn [strings.lastIndexLoop]; rewrite <- Elx.
  assert (Hf : firstn (length x) (x ++ nl) = x)
    by (rewrite firstn_app, Nat.sub_diag, firstn_all, firstn_O;
        apply app_nil_r).
  rewrite Hf.
  destruct (utf8.DecodeLastRuneInString x) as [r size] eqn:D.
  cbn [fst] in HB; rewrite HB; cbn [Bool.eqb].
  rewrite (trim_end_position x nl r size Hne); [| |exact D].
  - rewrite Nat2Z.id; exact Hf.
  - unfold startAt; rewrite skipn_app_le, skipn_all by lia; reflexivity.
Qed.

Lemma TrimSpace_idem (l : gostring) :
  strings.TrimSpace (strings.TrimSpace l ++ nl) = strings.TrimSpace l.
Proof.
  destruct (TrimSpace_trimmed l) as [E | [HA HB]].
  - rewrite E; reflexivity.
  - destruct (strings.TrimSpace l) as [|c t] eqn:E; [reflexivity|].
    apply TrimSpace_fixed; [discriminate | exact HA | exact HB].
Qed.

(** One pass of the read loop on a line and on its forwarded form. *)
Lemma body_forwarded (remote : gostring) (st : State) (raw : gostring)
      (env : Env) :
  body remote st (strings.TrimSpace raw ++ nl) env = body remote st raw env.
Proof.
  unfold body; now rewrite TrimSpace_idem.
Qed.

(** X16. The server sees of a line only its trimmed form: a connection
    on which every line is replaced by its trimmed form and a line feed
    (what the client's loop sends for it) goes through the same states
    and ends the same way. *)
Theorem forwarded_lines_handled_alike (remote : gostring)
        (fault : option error) (werr : nat -> option error)
        (reads : list (gostring * Env)) (d : DB) :
  fst (handleConn remote fault werr (map forwarded reads) d)
  = fst (handleConn remote fault werr reads d).
Proof.
  unfold handleConn; generalize (startState fault werr d).
  induction reads as [|[raw env] rest IH]; intros st; [reflexivity|].
  cbn [map loop]; unfold forwarded at 1; cbn [fst snd].
  rewrite body_forwarded.
  destruct (body remote st raw env) as [st' out].
  destruct out; try reflexivity.
  specialize (IH st').
  destruct (loop remote (map forwarded rest) st') as [[tr1 o1] u1].
  destruct (loop remote rest st') as [[tr2 o2] u2].
  cbn [fst] in *; inversion IH; reflexivity.
Qed.

(** ** The client *)

Lemma inputLoop_writes (S0 : list gostring) (P : gostring * option error -> Prop) :
  (forall raw werr,
      In raw S0 -> strings.TrimSpace raw <> [] ->
      strings.TrimSpace raw <> str "exit" ->
      P (strings.TrimSpace raw ++ nl, werr)) ->
  forall (alive : nat) (inputs conn : list (gostring * option error)),
    incl (map fst inputs) S0 -> Forall P conn ->
    Forall P (client.inputLoop alive inputs conn).
Proof.
  intros HP; induction alive as [|alive IH]; intros inputs conn Hin Hc;
    [exact Hc|].
  destruct inputs as [|[raw werr] rest]; [exact Hc|].
  cbn [client.inputLoop]; cbv zeta.
  assert (Hrest : incl (map fst rest) S0)
    by (intros z Hz; apply Hin; right; exact Hz).
  destruct (streq (strings.TrimSpace raw) []) eqn:E1; [now apply IH|].
  destruct (streq (strings.TrimSpace raw) (str "exit")) eqn:E2; [exact Hc|].
  apply IH; [exact Hrest|].
  unfold client.sendLine; apply Forall_app; split; [exact Hc|].
  constructor; [|constructor].
  apply HP; [apply Hin; left; reflexivity | now apply streq_neq
            | now apply streq_neq].
Qed.

(** X17. What the client's loop writes: every write is the trimmed form
    of one of the input lines followed by a line feed; that form is
    neither empty nor [exit]; and the server, trimming what it reads,
    gets that form back, so that it handles the write as it would
    handle the input line itself. *)
Theorem client_sends_trimmed_lines (alive : nat)
        (inputs : list (gostring * option error)) :
  Forall (fun w =>
            exists raw,
              In raw (map fst inputs)
              /\ fst w = strings.TrimSpace raw ++ nl
              /\ strings.TrimSpace raw <> []
              /\ strings.TrimSpace raw <> str "exit"
              /\ strings.TrimSpace (fst w) = strings.TrimSpace raw
              /\ forall remote st env,
                  body remote st (fst w) env = body remote st raw env)
         (client.inputLoop alive inputs []).
Proof.
  apply (inputLoop_writes (map fst inputs));
    [|apply incl_refl|constructor].
  intros raw werr Hin H1 H2; exists raw; cbn [fst].
  repeat split; auto using TrimSpace_idem, body_forwarded.
Qed.

(** X18. Nothing is sent after [exit]: the lines that follow an input
    line whose trimmed form is [exit] have no effect, and that line
    itself is not sent. *)
Theorem client_stops_at_exit (alive : nat)
        (pre post conn : list (gostring * option error))
        (raw : gostring) (werr : option error) :
  strings.TrimSpace raw = str "exit" ->
  client.inputLoop alive (pre ++ (raw, werr) :: post) conn
  = client.inputLoop alive pre conn.
Proof.
  intros Hx; revert pre conn.
  induction alive as [|alive IH]; intros pre conn; [reflexivity|].
  destruct pre as [|[r w] pre].
  - cbn [app client.inputLoop]; cbv zeta; rewrite Hx; reflexivity.
  - cbn [app client.inputLoop]; cbv zeta.
    destruct (streq (strings.TrimSpace r) []); [apply IH|].
    destruct (streq (strings.TrimSpace r) (str "exit")); [reflexivity|].
    apply IH.
Qed.

Lemma inputLoop_data (alive : nat) :
  forall inputs inputs' conn conn' : list (gostring * option error),
    map fst inputs = map fst inputs' -> map fst conn = map fst conn' ->
    map fst (client.inputLoop alive inputs conn)
    = map fst (client.inputLoop alive inputs' conn').
Proof.
  induction alive as [|alive IH]; intros inputs inputs' conn conn' Hi Hc;
    [exact Hc|].
  destruct inputs as [|[raw w] rest], inputs' as [|[raw' w'] rest'];
    try discriminate; [exact Hc|].
  cbn [map fst] in Hi; inversion Hi; subst raw'.
  cbn [client.inputLoop]; cbv zeta.
  destruct (streq (strings.TrimSpace raw) []); [now apply IH|].
  destruct (streq (strings.TrimSpace raw) (str "exit")); [exact Hc|].
  apply IH; [assumption|].
  unfold client.sendLine; rewrite !map_app, Hc; reflexivity.
Qed.

(** X19. A failed send stops nothing: what the client writes, call
    after call, does not depend on which of its writes fail. *)
Theorem client_ignores_send_errors (args : list gostring)
        (werr0 werr0' : option error) (alive : nat)
        (inputs inputs' : list (gostring * option error)) :
  map fst inputs = map fst inputs' ->
  map fst (client.main args None werr0 alive inputs)
  = map fst (client.main args None werr0' alive inputs').
Proof.
  intros Hi; unfold client.main; cbv zeta.
  destruct alive as [|alive]; [reflexivity|].
  apply inputLoop_data; [exact Hi|].
  destruct (negb _); reflexivity.
Qed.

Lemma linesOf_line (w : gostring) :
  oneLine w = true ->
  forall cur rest : gostring,
    bufio.linesOf cur (w ++ rest) = (cur ++ w) :: bufio.linesOf [] rest.
Proof.
  induction w as [|c t IH]; [discriminate|].
  cbn [oneLine]; destruct t as [|c' t'].
  - intros H cur rest; cbn [app bufio.linesOf]; rewrite H; reflexivity.
  - intros H cur rest; apply andb_true_iff in H as [Hc Ht].
    apply negb_true_iff in Hc.
    rewrite <- app_comm_cons; cbn [bufio.linesOf]; rewrite Hc.
    rewrite (IH Ht), <- app_assoc; reflexivity.
Qed.

Lemma linesOf_lines (ws : list gostring) :
  Forall (fun w => oneLine w = true) ws ->
  bufio.linesOf [] (concat ws) = ws.
Proof.
  induction 1 as [|w ws Hw Hws IH]; [reflexivity|].
  cbn [concat]; rewrite (linesOf_line w Hw), IH; reflexivity.
Qed.

(** [linesOf] is [ReadString] called again and again. *)
Lemma linesOf_ReadString (stream : gostring) :
  forall cur : gostring,
    bufio.linesOf cur stream
    = match bufio.ReadString stream with
      | Some (l, rest) => (cur ++ l) :: bufio.linesOf [] rest
      | None => []
      end.
Proof.
  induction stream as [|c t IH]; intros cur; [reflexivity|].
  cbn [bufio.linesOf bufio.ReadString].
  destruct (Ascii.eqb "010" c); [reflexivity|].
  rewrite IH; destruct (bufio.ReadString t) as [[l rest]|]; [|reflexivity].
  rewrite <- app_assoc; reflexivity.
Qed.

(** X20. The server reads what the client wrote, write by write: when
    every input line of the client is one line, the stream made of the
    client's writes is cut by the server's reader into exactly these
    writes, and the read that follows fails. *)
Theorem server_reads_client_writes (alive : nat)
        (inputs : list (gostring * option error)) :
  forallb (fun rd => oneLine (fst rd)) inputs = true ->
  bufio.linesOf [] (concat (map fst (client.inputLoop alive inputs [])))
  = map fst (client.inputLoop alive inputs []).
Proof.
  intros Hin; apply linesOf_lines, Forall_map.
  apply (inputLoop_writes (map fst inputs));
    [|apply incl_refl|constructor].
  intros raw werr Hraw _ _; cbn [fst].
  apply oneLine_app, TrimSpace_noNL.
  rewrite forallb_forall in Hin.
  apply in_map_iff in Hraw as ([r w] & <- & Hrd); exact (Hin _ Hrd).
Qed.

(** ** The server as a whole *)

Lemma main_invariant (P : Server -> Prop) (E : Event -> Prop) (d : DB) :
  P {| store := d; conns := []; crashed := false |} ->
  (forall s ev, E ev -> P s -> P (serverStep s ev)) ->
  forall events : list Event, Forall E events -> P (main d events).
Proof.
  intros H0 Hstep events; unfold main.
  generalize dependent {| store := d; conns := []; crashed := false |}.
  induction events as [|ev events IH]; intros s Hs HE; [exact Hs|].
  inversion HE; subst.
  cbn [fold_left]; apply IH; [apply Hstep|]; assumption.
Qed.

Lemma Forall_replaceConn (P : Conn -> Prop) (i : nat) (c : Conn)
      (cs : list Conn) :
  Forall P cs -> P c -> Forall P (replaceConn i c cs).
Proof.
  intros Hcs Hc; unfold replaceConn.
  apply Forall_app; split; [|constructor; [exact Hc|]].
  - rewrite <- (firstn_skipn i cs) in Hcs; now apply Forall_app in Hcs.
  - rewrite <- (firstn_skipn (S i) cs) in Hcs; now apply Forall_app in Hcs.
Qed.

(** One step of the server, for a property of the database and one of
    each connection that one pass of the loop, on any connection,
    keeps. *)
Lemma serverStep_invariant (D : DB -> Prop) (Q : DB -> Conn -> Prop)
      (E : Event -> Prop) :
  (forall d remote fault werr,
      E (Accepted remote fault werr) -> D d ->
      Q d {| origin := remote;
             user := currentUser (startState fault werr d);
             sent := written (startState fault werr d);
             returned := false |}) ->
  (forall s c i raw env,
      E (LineRead i raw env) -> D (store s) -> Q (store s) c ->
      let st := fst (body (origin c) (view s c) raw env) in
      D (db st)
      /\ (forall r, Q (db st) {| origin := origin c; user := currentUser st;
                                 sent := written st; returned := r |})
      /\ (forall c', Q (store s) c' -> Q (db st) c')) ->
  (forall d c r, Q d c ->
                 Q d {| origin := origin c; user := user c; sent := sent c;
                        returned := r |}) ->
  forall s ev,
    E ev ->
    D (store s) /\ Forall (Q (store s)) (conns s) ->
    D (store (serverStep s ev))
    /\ Forall (Q (store (serverStep s ev))) (conns (serverStep s ev)).
Proof.
  intros HA HL HR s ev Hev [HD HQ]; unfold serverStep.
  destruct (crashed s); [now split|].
  destruct ev as [remote fault werr | i raw env | i].
  - cbn [store conns]; rewrite (proj2 (startState_session fault werr (store s))).
    split; [exact HD|].
    apply Forall_app; split; [exact HQ|].
    constructor; [|constructor]; now apply HA.
  - destruct (nth_error (conns s) i) as [c|] eqn:Ec; [|now split].
    destruct (returned c); [now split|].
    assert (Hc : Q (store s) c).
    { rewrite Forall_forall in HQ; apply HQ.
      eapply nth_error_In; exact Ec. }
    pose proof (HL s c i raw env Hev HD Hc) as H.
    destruct (body (origin c) (view s c) raw env) as [st out].
    cbn [fst] in H; cbv zeta in H; destruct H as (H1 & H2 & H3).
    cbn [store conns]; split; [exact H1|].
    apply Forall_replaceConn; [|apply H2].
    apply Forall_forall; intros c' Hc'; apply H3.
    rewrite Forall_forall in HQ; now apply HQ.
  - destruct (nth_error (conns s) i) as [c|] eqn:Ec; [|now split].
    cbn [store conns]; split; [exact HD|].
    apply Forall_replaceConn; [exact HQ|].
    apply HR.
    rewrite Forall_forall in HQ; apply HQ.
    eapply nth_error_In; exact Ec.
Qed.

Lemma serverStep_crashed (s : Server) (ev : Event) :
  crashed s = false -> crashed (serverStep s ev) = false.
Proof.
  intros Hs; unfold serverStep; rewrite Hs.
  destruct ev as [remote fault werr | i raw env | i]; [reflexivity| |].
  - destruct (nth_error (conns s) i) as [c|]; [|exact Hs].
    destruct (returned c); [exact Hs|].
    pose proof (body_never_panics (origin c) (view s c) raw env) as Hp.
    destruct (body (origin c) (view s c) raw env) as [st out].
    cbn [snd] in Hp; destruct out; [reflexivity | reflexivity | congruence].
  - destruct (nth_error (conns s) i) as [c|]; [reflexivity | exact Hs].
Qed.

(** X21. Whatever the clients send and however the connections
    interleave, the server does not panic, the keys and the names of
    the users table stay pairwise distinct, every author recorded in
    the log stays the key and the name of an entry, and the user of
    every session stays an entry of the table, provided the database
    that [main] opens is so. *)
Theorem server_keeps_database_sound (d : DB) (events : list Event) :
  uniqueUsers d -> authorsValid d ->
  crashed (main d events) = false
  /\ uniqueUsers (store (main d events))
  /\ authorsValid (store (main d events))
  /\ Forall (fun c => refsValid (view (main d events) c))
            (conns (main d events)).
Proof.
  intros Hu Ha.
  set (D := fun d0 : DB => uniqueUsers d0 /\ authorsValid d0).
  set (Q := fun (d0 : DB) (c : Conn) =>
              forall u, user c = Some u -> In u (users d0)).
  assert (H : crashed (main d events) = false
              /\ D (store (main d events))
              /\ Forall (Q (store (main d events))) (conns (main d events))).
  { apply (main_invariant
             (fun s => crashed s = false
                       /\ D (store s) /\ Forall (Q (store s)) (conns s))
             (fun _ => True));
      [repeat split; [apply Hu | apply Hu | exact Ha | constructor] |
      |apply Forall_forall; trivial].
    intros s ev _ [Hc HDQ]; split; [now apply serverStep_crashed|].
    apply (serverStep_invariant D Q (fun _ => True)); auto.
    - intros d0 remote fault werr _ _ u.
      cbn [user]; rewrite (proj1 (startState_session fault werr d0)).
      discriminate.
    - intros s0 c i raw env _ [Hun Hav] Hq; cbv zeta.
      assert (Hr : refsValid (view s0 c)) by (split; [exact Hq | exact Hav]).
      pose proof (body_refs (origin c) (view s0 c) raw env Hr) as [Hr1 Hr2].
      pose proof (body_unique (origin c) (view s0 c) raw env Hun) as Hun'.
      destruct (body_extends (origin c) (view s0 c) raw env) as [[us Hus] _].
      split; [split; [exact Hun' | exact Hr2]|].
      split; [intros r u; exact (Hr1 u)|].
      intros c' Hc' u Hu'; cbn [view db] in Hus; rewrite Hus.
      apply in_or_app; left; now apply Hc'. }
  destruct H as (Hc & [Hun Hav] & HQ).
  repeat split; try assumption; try apply Hun.
  apply Forall_forall; intros c Hin; rewrite Forall_forall in HQ.
  split; [exact (HQ c Hin) | exact Hav].
Qed.

(** X22. However the connections interleave, every write on every
    connection is one line: when the database that [main] opens is
    clean, every origin address is free of line feeds and every line
    read is one line (at a time that formats without line feed and
    with one-line fault messages), then each write made on each
    connection, failed or not, is bytes without line feed followed by
    one line feed, and the database is clean again. *)
Theorem server_writes_lines (d : DB) (events : list Event) :
  cleanDB d = true -> forallb cleanEvent events = true ->
  cleanDB (store (main d events)) = true
  /\ Forall (fun c => cleanState (view (main d events) c) = true)
            (conns (main d events)).
Proof.
  intros Hd Hev.
  set (Q := fun (_ : DB) (c : Conn) =>
              noNL (origin c) = true /\ cleanUser (user c) = true
              /\ forallb (fun w => oneLine (fst w)) (sent c) = true).
  assert (H : cleanDB (store (main d events)) = true
              /\ Forall (Q (store (main d events))) (conns (main d events))).
  { apply (main_invariant
             (fun s => cleanDB (store s) = true
                       /\ Forall (Q (store s)) (conns s))
             (fun ev => cleanEvent ev = true));
      [split; [exact Hd | constructor] | |
       apply Forall_forall; rewrite forallb_forall in Hev; exact Hev].
    intros s ev Hclean HDQ.
    apply (serverStep_invariant (fun d0 => cleanDB d0 = true) Q
                                (fun ev => cleanEvent ev = true)); auto.
    - intros d0 remote fault werr Hrem Hd0.
      pose proof (startState_clean fault werr d0 Hd0) as Hst.
      unfold cleanState in Hst; apply andb_true_iff in Hst as [Hst Hw].
      apply andb_true_iff in Hst as [_ Hu].
      repeat split; assumption.
    - intros s0 c i raw env Hrd Hd0 (Hrem & Hu & Hw); cbv zeta.
      assert (Hst : cleanState (view s0 c) = true)
        by (unfold cleanState, view; cbn [db currentUser written];
            now rewrite Hd0, Hu, Hw).
      pose proof (body_clean (origin c) (view s0 c) raw env Hrem Hrd Hst) as Hb.
      unfold cleanState in Hb; apply andb_true_iff in Hb as [Hb Hw'].
      apply andb_true_iff in Hb as [Hd' Hu'].
      split; [exact Hd'|]; split; [|auto].
      intros r; repeat split; assumption. }
  destruct H as [HD HQ]; split; [exact HD|].
  apply Forall_forall; intros c Hin; rewrite Forall_forall in HQ.
  destruct (HQ c Hin) as (_ & Hu & Hw).
  unfold cleanState, view; cbn [db currentUser written].
  now rewrite HD, Hu, Hw.
Qed.

Lemma nth_error_replaceConn (i j : nat) (c : Conn) (cs : list Conn) :
  (i < length cs)%nat ->
  nth_error (replaceConn i c cs) j
  = if (j =? i)%nat then Some c else nth_error cs j.
Proof.
  intros Hi; unfold replaceConn.
  assert (Hl : length (firstn i cs) = i) by (rewrite length_firstn; lia).
  destruct (Nat.eqb_spec j i) as [-> | Hne].
  - rewrite nth_error_app2, Hl, Nat.sub_diag by lia; reflexivity.
  - destruct (Nat.lt_ge_cases j i) as [Hlt | Hge].
    + rewrite nth_error_app1, nth_error_firstn by lia.
      destruct (Nat.ltb_spec j i); [reflexivity | lia].
    + rewrite nth_error_app2, Hl by lia.
      destruct (j - i)%nat as [|k] eqn:Ek; [lia|].
      cbn [nth_error]; rewrite nth_error_skipn; f_equal; lia.
Qed.

Lemma grows_refl (s : Server) : grows s s.
Proof.
  split; [exists []; now rewrite app_nil_r|].
  split; [exists []; now rewrite app_nil_r|].
  intros i c Hc; exists c; repeat split; auto.
  exists []; now rewrite app_nil_r.
Qed.

Lemma grows_trans (s1 s2 s3 : Server) : grows s1 s2 -> grows s2 s3 -> grows s1 s3.
Proof.
  intros ([us1 U1] & [ms1 M1] & C1) ([us2 U2] & [ms2 M2] & C2).
  split; [exists (us1 ++ us2); now rewrite U2, U1, app_assoc|].
  split; [exists (ms1 ++ ms2); now rewrite M2, M1, app_assoc|].
  intros i c1 Hc1.
  destruct (C1 i c1 Hc1) as (c2 & Hc2 & O2 & [ws2 W2] & A2 & R2).
  destruct (C2 i c2 Hc2) as (c3 & Hc3 & O3 & [ws3 W3] & A3 & R3).
  exists c3; split; [exact Hc3|].
  split; [congruence|].
  split; [exists (ws2 ++ ws3); now rewrite W3, W2, app_assoc|].
  split; [auto|].
  intros Hr; specialize (R2 Hr); subst c2; auto.
Qed.

Lemma serverStep_grows (s : Server) (ev : Event) : grows s (serverStep s ev).
Proof.
  unfold serverStep; destruct (crashed s); [apply grows_refl|].
  destruct ev as [remote fault werr | i raw env | i].
  - cbn [store conns]; rewrite (proj2 (startState_session fault werr (store s))).
    split; [exists []; now rewrite app_nil_r|].
    split; [exists []; now rewrite app_nil_r|].
    intros i c Hc; exists c; cbn [conns].
    rewrite nth_error_app1 by (apply nth_error_Some; congruence).
    repeat split; auto; exists []; now rewrite app_nil_r.
  - destruct (nth_error (conns s) i) as [c|] eqn:Ec; [|apply grows_refl].
    destruct (returned c) eqn:Er; [apply grows_refl|].
    pose proof (body_extends (origin c) (view s c) raw env) as (HU & HM & HW).
    pose proof (body_auth (origin c) (view s c) raw env) as HA.
    destruct (body (origin c) (view s c) raw env) as [st out].
    cbn [fst view db written] in *.
    split; [exact HU|]; split; [exact HM|].
    intros j c1 Hc1; cbn [conns].
    rewrite nth_error_replaceConn by (apply nth_error_Some; congruence).
    destruct (Nat.eqb_spec j i) as [-> | Hne].
    + rewrite Ec in Hc1; inversion Hc1; subst c1.
      eexists; split; [reflexivity|]; cbn [origin sent user].
      repeat split; auto; [|congruence].
      unfold authenticated, view in HA; cbn [currentUser] in HA.
      intros Hu; destruct (user c); [|congruence].
      specialize (HA eq_refl);
        destruct (currentUser st); [discriminate | discriminate HA].
    + exists c1; repeat split; auto; exists []; now rewrite app_nil_r.
  - destruct (nth_error (conns s) i) as [c|] eqn:Ec; [|apply grows_refl].
    split; [exists []; now rewrite app_nil_r|].
    split; [exists []; now rewrite app_nil_r|].
    intros j c1 Hc1; cbn [conns].
    rewrite nth_error_replaceConn by (apply nth_error_Some; congruence).
    destruct (Nat.eqb_spec j i) as [-> | Hne].
    + rewrite Ec in Hc1; inversion Hc1; subst c1.
      eexists; split; [reflexivity|]; cbn [origin sent user].
      repeat split; auto; [exists []; now rewrite app_nil_r|].
      intros Hr; destruct c; cbn in *; now subst.
    + exists c1; repeat split; auto; exists []; now rewrite app_nil_r.
Qed.

Lemma fold_serverStep_grows (events : list Event) :
  forall s : Server, grows s (fold_left serverStep events s).
Proof.
  induction events as [|ev events IH]; intros s; [apply grows_refl|].
  cbn [fold_left]; eapply grows_trans; [apply serverStep_grows | apply IH].
Qed.

Lemma fold_serverStep_crashed (events : list Event) :
  forall s : Server,
    crashed s = false -> crashed (fold_left serverStep events s) = false.
Proof.
  induction events as [|ev events IH]; intros s Hs; [exact Hs|].
  cbn [fold_left]; now apply IH, serverStep_crashed.
Qed.

(** X23. The running server takes nothing back: as events go by, both
    tables only get rows appended, every connection keeps its place,
    its origin and its writes (more may follow), a session that is
    bound stays bound, and a connection whose goroutine has returned
    is never touched again. *)
Theorem server_only_grows (d : DB) (evs1 evs2 : list Event) :
  grows (main d evs1) (main d (evs1 ++ evs2)).
Proof.
  unfold main; rewrite fold_left_app; apply fold_serverStep_grows.
Qed.

(** X24. What any connection stored is shown to every connection that
    comes later: when an open connection reads a payload line and the
    store takes the record, then, whatever happens in between on any
    connection, a connection accepted afterwards is sent the history
    line of that record (when the log is read and the writes
    succeed). *)
Theorem stored_lines_are_replayed (d : DB) (evs1 evs2 : list Event)
        (i : nat) (c : Conn) (raw : gostring) (env : Env)
        (remote : gostring) (werr : nat -> option error) :
  nth_error (conns (main d evs1)) i = Some c -> returned c = false ->
  strings.TrimSpace raw <> [] ->
  strings.HasPrefix (strings.TrimSpace raw) (str "/") = false ->
  createErr env = None ->
  (forall k, werr k = None) ->
  let s := main d (evs1 ++ LineRead i raw env :: evs2
                        ++ [Accepted remote None werr]) in
  exists m cn,
    In m (messages (store s))
    /\ Message.Text m = strings.TrimSpace raw
    /\ Message.Addr m = origin c
    /\ Message.CreatedAt m = now env
    /\ nth_error (conns s) (length (conns s) - 1) = Some cn
    /\ origin cn = remote
    /\ In (historyLine m, None) (sent cn).
Proof.
  intros Hc Hr Hne Hp Hce Hw s.
  assert (H1 : crashed (main d evs1) = false)
    by (unfold main; now apply fold_serverStep_crashed).
  subst s; unfold main in *; rewrite fold_left_app; cbn [fold_left].
  set (s1 := fold_left serverStep evs1
                       {| store := d; conns := []; crashed := false |}) in *.
  rewrite fold_left_app; cbn [fold_left].
  set (s2 := serverStep s1 (LineRead i raw env)).
  assert (H2 : crashed s2 = false) by now apply serverStep_crashed.
  destruct (body_payload_record (origin c) (view s1 c) raw env Hne Hp Hce)
    as (m & Hm & Ht & Ha & Hn & _).
  assert (Hin2 : In m (messages (store s2))).
  { subst s2; unfold serverStep; rewrite H1, Hc, Hr.
    destruct (body (origin c) (view s1 c) raw env) as [st out].
    cbn [fst store] in *; rewrite Hm; auto with datatypes. }
  set (s3 := fold_left serverStep evs2 s2).
  assert (H3 : crashed s3 = false) by now apply fold_serverStep_crashed.
  destruct (fold_serverStep_grows evs2 s2) as (_ & [ms Hms] & _).
  fold s3 in Hms.
  assert (Hin3 : In m (messages (store s3)))
    by (rewrite Hms; auto with datatypes).
  assert (E4 : serverStep s3 (Accepted remote None werr)
               = {| store := store s3;
                    conns := conns s3
                               ++ [{| origin := remote; user := None;
                                      sent := written (startState None werr
                                                                  (store s3));
                                      returned := false |}];
                    crashed := false |}).
  { unfold serverStep; rewrite H3; cbv zeta.
    now rewrite (proj2 (startState_session None werr (store s3))),
      (proj1 (startState_session None werr (store s3))). }
  rewrite E4; cbn [store conns].
  exists m; eexists; split; [exact Hin3|].
  split; [exact Ht|]; split; [exact Ha|]; split; [exact Hn|].
  split.
  { rewrite length_app; cbn [length].
    rewrite nth_error_app2 by lia.
    replace (length (conns s3) + 1 - 1 - length (conns s3))%nat with 0%nat
      by lia.
    reflexivity. }
  split; [reflexivity|]; cbn [sent].
  unfold startState, sendHistory; cbn [gorm.FindMessagesOrdered db].
  rewrite (sendLoop_ok werr _ Hw); cbn [fst written app].
  apply (in_map (fun m0 => (historyLine m0, None))).
  eapply Permutation_in; [apply orderByCreatedAt_perm | exact Hin3].
Qed.

(** ** The initial message of the client *)

Lemma outside_cont (lo hi b : Z) :
  0x80 <= lo -> hi <= 0xBF -> utf8.outside lo hi b = false -> isCont b = true.
Proof.
  unfold utf8.outside, isCont; intros Hlo Hhi H.
  apply orb_false_iff in H as [H1 H2].
  apply Z.ltb_ge in H1; apply Z.ltb_ge in H2.
  apply andb_true_iff; split; [apply Z.leb_le | apply Z.ltb_lt]; lia.
Qed.

(** The bytes of a rune after the first are continuation bytes. *)
Lemma Decode_conts (s : gostring) (r : Z) (w : nat) :
  utf8.DecodeRuneInString s = (r, w) ->
  forall j : nat,
    (0 < j < w)%nat -> isCont (byteval (nth j s "000"%char)) = true.
Proof.
  unfold utf8.DecodeRuneInString.
  destruct s as [|c0 t]; [intros H; inversion H; lia|].
  destruct (utf8.first (byteval c0)) eqn:F;
    [intros H; inversion H; lia | intros H; inversion H; lia |].
  pose proof (first_Lead_hi _ _ _ _ F) as Hhi.
  apply first_Lead in F as (Hsz & Hlo & _).
  assert (Hb : forall b, utf8.outside utf8.locb utf8.hicb b = false ->
                         isCont b = true)
    by (intros b; apply outside_cont; [unfold utf8.locb | unfold utf8.hicb]; lia).
  destruct t as [|c1 [|c2 [|c3 t]]]; simpl length;
    destruct Hsz as [-> | [-> | ->]]; simpl;
    split_ifs; intros H; inversion H; subst; intros j Hj;
    destruct j as [|[|[|[|j]]]]; try lia; cbn [nth];
    eauto using outside_cont.
Qed.

Lemma runes_nonempty (s : gostring) :
  s <> [] ->
  runes s =
  (fst (utf8.DecodeRuneInString s), firstn (snd (utf8.DecodeRuneInString s)) s)
    :: runes (skipn (snd (utf8.DecodeRuneInString s)) s).
Proof.
  destruct s as [|c t]; [congruence | intros _; apply runes_cons].
Qed.

Lemma skipn_head (p : nat) (s : gostring) :
  (p < length s)%nat ->
  skipn p s = nth p s "000"%char :: skipn (S p) s.
Proof.
  revert s; induction p as [|p IH]; intros [|c t] H; simpl in H; try lia.
  - reflexivity.
  - cbn [skipn nth]; rewrite (IH t) by lia.
    destruct t; [simpl in H; lia | reflexivity].
Qed.

(** Forward decoding passes through every position that holds no
    continuation byte. *)
Lemma runes_boundary :
  forall (n : nat) (s : gostring) (p : nat),
    (length s <= n)%nat -> (p <= length s)%nat -> startAt s p = true ->
    runes s = runes (firstn p s) ++ runes (skipn p s).
Proof.
  induction n as [|n IH]; intros s p Hn Hp Hst.
  - destruct s; [destruct p; reflexivity | simpl in Hn; lia].
  - destruct p as [|p']; [reflexivity|].
    assert (Hne : s <> []) by (destruct s; [simpl in Hp; lia | discriminate]).
    destruct (utf8.DecodeRuneInString s) as [r w] eqn:D.
    pose proof (Decode_size s r w Hne D) as Hw.
    assert (Hwp : (w <= S p')%nat).
    { destruct (Nat.le_gt_cases w (S p')) as [H | H]; [exact H|].
      pose proof (Decode_conts s r w D (S p') ltac:(lia)) as Hc.
      unfold startAt in Hst; rewrite (skipn_head (S p') s) in Hst by lia.
      rewrite Hc in Hst; discriminate. }
    assert (Hx : firstn (S p') s <> [])
      by (destruct s; [congruence | discriminate]).
    assert (Dx : utf8.DecodeRuneInString (firstn (S p') s) = (r, w)).
    { apply (Decode_prefix (firstn (S p') s) (skipn (S p') s)); [exact Hx| |].
      - now rewrite firstn_skipn.
      - rewrite length_firstn; lia. }
    rewrite (runes_nonempty s Hne), (runes_nonempty _ Hx), D, Dx; cbn [fst snd].
    rewrite firstn_firstn, Nat.min_l by lia.
    rewrite skipn_firstn_comm.
    rewrite (IH (skipn w s) (S p' - w)%nat).
    + rewrite skipn_skipn.
      replace (S p' - w + w)%nat with (S p') by lia; reflexivity.
    + rewrite length_skipn; lia.
    + rewrite length_skipn; lia.
    + unfold startAt in *; rewrite skipn_skipn.
      replace (S p' - w + w)%nat with (S p') by lia; exact Hst.
Qed.

Lemma token_head (a : gostring) :
  isToken a = true ->
  unicode.IsSpace (fst (utf8.DecodeRuneInString a)) = false.
Proof.
  intros H; apply isToken_runes in H as (Hne & _ & Hall).
  rewrite (runes_nonempty a Hne) in Hall; cbn [forallb fst] in Hall.
  apply andb_true_iff in Hall as [H _]; now apply negb_true_iff in H.
Qed.

(** Inside a token, no position that starts a rune starts white
    space. *)
Lemma token_rune_at (a : gostring) (p : nat) :
  isToken a = true -> (p < length a)%nat -> startAt a p = true ->
  unicode.IsSpace (fst (utf8.DecodeRuneInString (skipn p a))) = false.
Proof.
  intros H Hp Hst; apply isToken_runes in H as (Hne & _ & Hall).
  rewrite (runes_boundary (length a) a p (le_n _) ltac:(lia) Hst) in Hall.
  rewrite forallb_app in Hall; apply andb_true_iff in Hall as [_ Hall].
  assert (Hs : skipn p a <> []).
  { intros E; apply (f_equal (@length _)) in E.
    rewrite length_skipn in E; cbn [length] in E; lia. }
  rewrite (runes_nonempty _ Hs) in Hall; cbn [forallb fst] in Hall.
  apply andb_true_iff in Hall as [H _]; now apply negb_true_iff in H.
Qed.

Lemma DecodeLast_ascii (s : gostring) :
  s <> [] -> byteval (nth (length s - 1) s "000"%char) < 0x80 ->
  utf8.DecodeLastRuneInString s
  = (byteval (nth (length s - 1) s "000"%char), 1%nat).
Proof.
  intros Hne; unfold utf8.DecodeLastRuneInString.
  destruct (length s) as [|start] eqn:El; [destruct s; simpl in El; congruence|].
  cbn [Nat.sub]; rewrite Nat.sub_0_r; unfold utf8.RuneSelf.
  intros H; apply Z.ltb_lt in H; now rewrite H.
Qed.

(** Behind nothing, or behind an ASCII byte, a token does not end in
    white space when decoded backwards. *)
Lemma DecodeLast_token (P a : gostring) :
  isToken a = true ->
  (P = [] \/ exists P' c, P = P' ++ [c] /\ byteval c < 0x80) ->
  unicode.IsSpace (fst (utf8.DecodeLastRuneInString (P ++ a))) = false.
Proof.
  intros Ha HP.
  pose proof (isToken_runes a Ha) as (Hane & _).
  assert (Hal : (0 < length a)%nat)
    by (destruct a; [congruence | simpl; lia]).
  assert (Hne : P ++ a <> [])
    by (intros E; apply app_eq_nil in E as [_ E]; congruence).
  assert (Hlast : nth (length (P ++ a) - 1) (P ++ a) "000"%char
                  = nth (length a - 1) a "000"%char).
  { rewrite length_app, app_nth2 by lia; f_equal; lia. }
  destruct (utf8.DecodeLastRuneInString (P ++ a)) as [r size] eqn:D.
  cbn [fst]; destruct (unicode.IsSpace r) eqn:Hsp; [exfalso | reflexivity].
  pose proof (DecodeLast_size (P ++ a) Hne) as Hsz.
  rewrite D in Hsz; cbn [snd] in Hsz.
  destruct (DecodeLast_cases (P ++ a) r size Hne D)
    as [[-> Hlt] | [(Hge & start & Es & Ds) | (Hge & -> & ->)]].
  - rewrite (DecodeLast_ascii _ Hne Hlt) in D; inversion D; subst r.
    rewrite Hlast in *.
    assert (Hst : startAt a (length a - 1) = true).
    { unfold startAt; rewrite skipn_last by assumption.
      apply negb_true_iff; unfold isCont; apply andb_false_iff; left.
      apply Z.leb_gt; exact Hlt. }
    pose proof (token_rune_at a (length a - 1) Ha ltac:(lia) Hst) as Ht.
    rewrite skipn_last, Decode_ascii in Ht by assumption.
    cbn [fst] in Ht; congruence.
  - rewrite length_app in Es.
    destruct (Nat.le_gt_cases (length P) start) as [Hin | Hout].
    + assert (Esk : skipn start (P ++ a) = skipn (start - length P) a)
        by (rewrite skipn_app, skipn_all2 by lia; reflexivity).
      rewrite Esk in Ds.
      assert (Hst : startAt a (start - length P) = true).
      { unfold startAt.
        destruct (skipn (start - length P) a) as [|c t] eqn:Ec; [reflexivity|].
        destruct (isCont (byteval c)) eqn:Hc; [|reflexivity].
        rewrite (Decode_cont_head c t Hc) in Ds; inversion Ds; subst.
        rewrite IsSpace_RuneError in Hsp; discriminate. }
      pose proof (token_rune_at a (start - length P) Ha ltac:(lia) Hst) as Ht.
      rewrite Ds in Ht; cbn [fst] in Ht; congruence.
    + destruct HP as [-> | (P' & c & -> & Hc)]; [simpl in Hout; lia|].
      rewrite length_app in *; cbn [length] in *.
      rewrite <- app_assoc in Ds; cbn [app] in Ds.
      destruct (Nat.eq_dec start (length P')) as [-> | Hlt].
      * rewrite skipn_app, skipn_all, Nat.sub_diag in Ds; cbn [app skipn] in Ds.
        rewrite (Decode_ascii c a Hc) in Ds; inversion Ds; subst; lia.
      * pose proof (Decode_conts _ r size Ds (length P' - start)
                                 ltac:(lia)) as Hk.
        rewrite nth_skipn in Hk.
        replace (start + (length P' - start))%nat with (length P') in Hk by lia.
        rewrite app_nth2, Nat.sub_diag in Hk by lia; cbn [nth] in Hk.
        unfold isCont in Hk; apply andb_true_iff in Hk as [Hk _].
        apply Z.leb_le in Hk; lia.
  - rewrite IsSpace_RuneError in Hsp; discriminate.
Qed.

Lemma Join_snoc (ts : list gostring) (t sep : gostring) :
  ts <> [] ->
  strings.Join (ts ++ [t]) sep = (strings.Join ts sep ++ sep) ++ t.
Proof.
  induction ts as [|a ts IH]; [congruence|]; intros _.
  destruct ts as [|b ts]; [cbn [app strings.Join]; now rewrite app_assoc|].
  change (strings.Join ((a :: b :: ts) ++ [t]) sep)
    with (a ++ sep ++ strings.Join ((b :: ts) ++ [t]) sep).
  rewrite IH by discriminate.
  change (strings.Join (a :: b :: ts) sep)
    with (a ++ sep ++ strings.Join (b :: ts) sep).
  now rewrite <- !app_assoc.
Qed.

(** Tokens joined by single blanks, and a line feed, trim to the joined
    tokens. *)
Lemma Join_trim (ts : list gostring) :
  ts <> [] -> Forall (fun t => isToken t = true) ts ->
  strings.TrimSpace (strings.Join ts (str " ") ++ nl)
  = strings.Join ts (str " ").
Proof.
  intros Hne Hts.
  assert (Hhead : exists t rest, strings.Join ts (str " ") = t ++ rest
                                 /\ isToken t = true
                                 /\ (rest = [] \/ exists r, rest = " "%char :: r)).
  { destruct ts as [|t [|t2 ts]]; [congruence| |].
    - exists t, []; rewrite app_nil_r; repeat split; auto.
      now apply Forall_inv in Hts.
    - exists t; eexists; split; [reflexivity|]; split;
        [now apply Forall_inv in Hts | right; eexists; reflexivity]. }
  destruct Hhead as (t & rest & EJ & Ht & Hrest).
  pose proof (isToken_runes t Ht) as (Htne & _).
  apply TrimSpace_fixed.
  - rewrite EJ; intros E; apply app_eq_nil in E as [E _]; congruence.
  - rewrite EJ; destruct Hrest as [-> | [r ->]];
      [rewrite app_nil_r | rewrite Decode_ext_ascii by (assumption || reflexivity)];
      now apply token_head.
  - destruct (exists_last Hne) as (init & tn & ->).
    apply Forall_app in Hts as [_ Htn]; apply Forall_inv in Htn.
    destruct init as [|i0 init]; [exact (DecodeLast_token [] tn Htn (or_introl eq_refl))|].
    rewrite Join_snoc by discriminate.
    apply DecodeLast_token; [exact Htn|].
    right; exists (strings.Join (i0 :: init) (str " ")), " "%char; split;
      reflexivity.
Qed.

Lemma inputLoop_keeps (alive : nat) :
  forall inputs conn : list (gostring * option error),
    exists more, client.inputLoop alive inputs conn = conn ++ more.
Proof.
  induction alive as [|alive IH]; intros inputs conn;
    [exists []; now rewrite app_nil_r|].
  destruct inputs as [|[raw werr] rest]; [exists []; now rewrite app_nil_r|].
  cbn [client.inputLoop]; cbv zeta.
  destruct (streq (strings.TrimSpace raw) []); [apply IH|].
  destruct (streq (strings.TrimSpace raw) (str "exit"));
    [exists []; now rewrite app_nil_r|].
  destruct (IH rest (client.sendLine conn (strings.TrimSpace raw) werr))
    as [more ->].
  unfold client.sendLine; rewrite <- app_assoc; eexists; reflexivity.
Qed.

(** X25. The arguments of the client reach the server as they are:
    when the command line has arguments and each of them is a token,
    the first write of the client is the arguments joined by single
    blanks and a line feed, which is one line; the server trims it to
    the joined arguments, and the fields it then splits the line into
    are the arguments.  (The message is sent untrimmed and is not
    tested for [exit].) *)
Theorem client_arguments_reach_server (prog : gostring) (ts : list gostring)
        (werr0 : option error) (alive : nat)
        (inputs : list (gostring * option error)) :
  ts <> [] -> Forall (fun t => isToken t = true) ts ->
  (exists more,
      client.main (prog :: ts) None werr0 (S alive) inputs
      = (strings.Join ts (str " ") ++ nl, werr0) :: more)
  /\ oneLine (strings.Join ts (str " ") ++ nl) = true
  /\ strings.TrimSpace (strings.Join ts (str " ") ++ nl)
     = strings.Join ts (str " ")
  /\ strings.Fields (strings.TrimSpace (strings.Join ts (str " ") ++ nl)) = ts.
Proof.
  intros Hne Hts.
  pose proof (Join_trim ts Hne Hts) as Htrim.
  assert (HJ : strings.Join ts (str " ") <> []).
  { intros E; rewrite E in Htrim.
    pose proof (Fields_Join ts Hts) as HF; rewrite E in HF.
    destruct ts; [congruence | discriminate]. }
  split; [|split; [|split; [exact Htrim|]]].
  - unfold client.main; cbv zeta.
    replace (2 <=? length (prog :: ts))%nat with true
      by (destruct ts; [congruence | reflexivity]).
    cbn [skipn]; rewrite (streq_nil_false _ HJ); cbn [negb].
    destruct (inputLoop_keeps alive inputs
                (client.sendLine [] (strings.Join ts (str " ")) werr0))
      as [more ->].
    exists more; reflexivity.
  - apply oneLine_app, Join_noNL; [|reflexivity].
    eapply Forall_impl; [|exact Hts]; intros t; apply isToken_noNL.
  - rewrite Htrim; now apply Fields_Join.
Qed.

(** ** Lines with the same fields *)

Lemma indexLoop_fields :
  forall (n : nat) (s : gostring) (i0 : nat),
    (length s <= n)%nat ->
    (strings.indexLoop unicode.IsSpace false (runes s) i0 = -1
     /\ strings.fieldsLoop unicode.IsSpace (runes s) None = [])
    \/ exists k : nat,
        strings.indexLoop unicode.IsSpace false (runes s) i0 = Z.of_nat (i0 + k)
        /\ strings.fieldsLoop unicode.IsSpace (runes s) None
           = strings.fieldsLoop unicode.IsSpace (runes (skipn k s)) None.
Proof.
  induction n as [|n IH]; intros s i0 Hlen.
  - destruct s; [now left | simpl in Hlen; lia].
  - destruct s as [|c t]; [now left|].
    rewrite runes_cons; cbn [strings.indexLoop strings.fieldsLoop].
    destruct (utf8.DecodeRuneInString (c :: t)) as [r m] eqn:D.
    assert (Hm : (1 <= m <= length (c :: t))%nat)
      by (eapply Decode_size; [discriminate | exact D]).
    cbn [fst snd].
    destruct (unicode.IsSpace r) eqn:Fr; cbn [Bool.eqb].
    + rewrite length_firstn, Nat.min_l by lia.
      destruct (IH (skipn m (c :: t)) (i0 + m)%nat) as [[E1 E2] | (k & E1 & E2)].
      * rewrite length_skipn; cbn [length] in *; lia.
      * left; split; assumption.
      * right; exists (m + k)%nat; split.
        -- rewrite E1; f_equal; lia.
        -- rewrite E2, skipn_skipn; do 3 f_equal; lia.
    + right; exists 0%nat; split; [f_equal; lia|].
      cbn [skipn]; rewrite runes_cons, D; cbn [fst snd strings.fieldsLoop].
      now rewrite Fr.
Qed.

Lemma Fields_TrimLeft (s : gostring) :
  strings.Fields (strings.TrimLeftFunc s unicode.IsSpace) = strings.Fields s.
Proof.
  unfold strings.Fields, strings.FieldsFunc, strings.TrimLeftFunc,
    strings.indexFunc.
  destruct (indexLoop_fields (length s) s 0 (le_n _)) as [[E1 E2] | (k & E1 & E2)].
  - rewrite E1, E2; reflexivity.
  - rewrite E1, E2, Nat.add_0_l.
    destruct (Z.eqb_spec (Z.of_nat k) (-1)) as [H | _]; [lia|].
    now rewrite Nat2Z.id.
Qed.

Lemma fieldsLoop_spaces (sp : list (Z * gostring)) :
  forallb (fun rb => unicode.IsSpace (fst rb)) sp = true ->
  forall cur : option gostring,
    strings.fieldsLoop unicode.IsSpace sp cur
    = match cur with Some w => [w] | None => [] end.
Proof.
  induction sp as [|[r bs] sp IH]; intros H cur; [reflexivity|].
  cbn [forallb fst] in H; apply andb_true_iff in H as [Hr Hsp].
  cbn [strings.fieldsLoop]; rewrite Hr.
  destruct cur; now rewrite (IH Hsp).
Qed.

Lemma fieldsLoop_trailing (rs sp : list (Z * gostring)) :
  forallb (fun rb => unicode.IsSpace (fst rb)) sp = true ->
  forall cur : option gostring,
    strings.fieldsLoop unicode.IsSpace (rs ++ sp) cur
    = strings.fieldsLoop unicode.IsSpace rs cur.
Proof.
  intros Hsp; induction rs as [|[r bs] rs IH]; intros cur.
  - cbn [app]; rewrite (fieldsLoop_spaces sp Hsp); reflexivity.
  - cbn [app strings.fieldsLoop].
    destruct (unicode.IsSpace r); [destruct cur|]; now rewrite IH.
Qed.

(** A white-space rune found backwards is found forwards at the same
    place. *)
Lemma DecodeLast_forward (s rest : gostring) (r : Z) (size : nat) :
  s <> [] -> startAt (s ++ rest) (length s) = true ->
  utf8.DecodeLastRuneInString s = (r, size) ->
  unicode.IsSpace r = true ->
  utf8.DecodeRuneInString (skipn (length s - size) (s ++ rest)) = (r, size).
Proof.
  intros Hne Hst D Hsp.
  pose proof (DecodeLast_size s Hne) as Hsz; rewrite D in Hsz; cbn [snd] in Hsz.
  rewrite skipn_app_le by lia.
  assert (Hlen : length (skipn (length s - size) s) = size)
    by (rewrite length_skipn; lia).
  assert (Hx : skipn (length s - size) s <> [])
    by (intros E; rewrite E in Hlen; cbn [length] in Hlen; lia).
  rewrite Decode_ext_rest; [|exact Hx|].
  - destruct (DecodeLast_cases s r size Hne D)
      as [[-> Hlt] | [(Hge & start & Es & Ds) | (Hge & -> & ->)]].
    + rewrite (DecodeLast_ascii s Hne Hlt) in D; inversion D; subst r.
      rewrite skipn_last by assumption; now apply Decode_ascii.
    + replace (length s - size)%nat with start by lia; exact Ds.
    + rewrite IsSpace_RuneError in Hsp; discriminate.
  - unfold startAt in *.
    rewrite <- (skipn_app_le (length s - size) s rest) by lia.
    rewrite skipn_skipn, Hlen.
    replace (size + (length s - size))%nat with (length s) by lia.
    exact Hst.
Qed.

(** The backward scan of [TrimRightFunc] passes white space only. *)
Lemma lastIndexLoop_tail (y : gostring) :
  forall i skip : nat,
    (skip <= i)%nat -> (i <= length y)%nat -> startAt y (i - skip) = true ->
    forallb (fun rb => unicode.IsSpace (fst rb)) (runes (skipn (i - skip) y))
    = true ->
    (strings.lastIndexLoop unicode.IsSpace false y i skip = -1
     /\ forallb (fun rb => unicode.IsSpace (fst rb)) (runes y) = true)
    \/ exists (e size : nat),
        (0 < e <= length y)%nat
        /\ strings.lastIndexLoop unicode.IsSpace false y i skip
           = Z.of_nat (e - size)
        /\ utf8.DecodeLastRuneInString (firstn e y)
           = (fst (utf8.DecodeLastRuneInString (firstn e y)), size)
        /\ startAt y e = true
        /\ forallb (fun rb => unicode.IsSpace (fst rb)) (runes (skipn e y))
           = true.
Proof.
  induction i as [|i IH]; intros skip Hsk Hi Hst Hall.
  - left; split; [reflexivity|].
    replace skip with 0%nat in Hall by lia; exact Hall.
  - cbn [strings.lastIndexLoop]; destruct skip as [|k].
    + rewrite Nat.sub_0_r in Hst, Hall.
      assert (Hne : firstn (S i) y <> [])
        by (destruct y; [simpl in Hi; lia | discriminate]).
      assert (Hl : length (firstn (S i) y) = S i)
        by (rewrite length_firstn; lia).
      pose proof (DecodeLast_size _ Hne) as Hs; rewrite Hl in Hs.
      destruct (utf8.DecodeLastRuneInString (firstn (S i) y)) as [r size] eqn:D.
      cbn [snd] in Hs.
      destruct (unicode.IsSpace r) eqn:Hsp; cbn [Bool.eqb].
      * pose proof (space_starts _ (skipn (S i) y) r size Hne D Hsp) as H.
        rewrite firstn_skipn, Hl in H.
        pose proof (DecodeLast_forward _ (skipn (S i) y) r size Hne) as F.
        rewrite firstn_skipn, Hl in F; specialize (F Hst D Hsp).
        apply IH; [lia | lia | |];
          replace (i - (size - 1))%nat with (S i - size)%nat by lia;
          [exact H|].
        assert (Hx : skipn (S i - size) y <> []).
        { intros E; apply (f_equal (@length _)) in E.
          rewrite length_skipn in E; cbn [length] in E; lia. }
        rewrite (runes_nonempty _ Hx), F; cbn [fst snd forallb].
        rewrite Hsp, skipn_skipn.
        replace (size + (S i - size))%nat with (S i) by lia; exact Hall.
      * right; exists (S i), size; rewrite D; cbn [fst].
        repeat split; auto; lia.
    + apply IH; [lia | lia | exact Hst | exact Hall].
Qed.

Lemma Fields_TrimRight (y : gostring) :
  strings.Fields (strings.TrimRightFunc y unicode.IsSpace) = strings.Fields y.
Proof.
  unfold strings.Fields, strings.FieldsFunc, strings.TrimRightFunc,
    strings.lastIndexFunc.
  destruct (lastIndexLoop_tail y (length y) 0 ltac:(lia) ltac:(lia))
    as [[E Hall] | (e & size & He & E & D & Hst & Hall)].
  - unfold startAt; now rewrite Nat.sub_0_r, skipn_all.
  - now rewrite Nat.sub_0_r, skipn_all.
  - rewrite E; cbn [Z.leb andb Z.to_nat firstn].
    change (runes []) with (@nil (Z * gostring)).
    rewrite (fieldsLoop_spaces _ Hall); reflexivity.
  - rewrite E.
    assert (Hne : firstn e y <> [])
      by (destruct y, e; simpl in *; try lia; discriminate).
    assert (Hl : length (firstn e y) = e) by (rewrite length_firstn; lia).
    pose proof (trim_end_position
                  (firstn e y) (skipn e y)
                  (fst (utf8.DecodeLastRuneInString (firstn e y))) size Hne)
      as H.
    rewrite firstn_skipn, Hl in H.
    rewrite (H Hst D), Nat2Z.id.
    rewrite (runes_boundary (length y) y e (le_n _) ltac:(lia) Hst).
    now rewrite fieldsLoop_trailing.
Qed.

(** Trimming a line does not change its fields. *)
Lemma Fields_TrimSpace_eq (s : gostring) :
  strings.Fields (strings.TrimSpace s) = strings.Fields s.
Proof.
  unfold strings.TrimSpace, strings.TrimFunc.
  now rewrite Fields_TrimRight, Fields_TrimLeft.
Qed.

Lemma fieldsLoop_some_head (rs : list (Z * gostring)) :
  forall w0 : gostring,
    exists more fs,
      strings.fieldsLoop unicode.IsSpace rs (Some w0) = (w0 ++ more) :: fs.
Proof.
  induction rs as [|[r bs] rs IH]; intros w0; simpl.
  - exists [], []; now rewrite app_nil_r.
  - destruct (unicode.IsSpace r).
    + exists []; eexists; now rewrite app_nil_r.
    + destruct (IH (w0 ++ bs)) as (more & fs & E).
      exists (bs ++ more), fs.
      etransitivity; [exact E | now rewrite app_assoc].
Qed.

(** The first field of a trimmed line starts where the line starts. *)
Lemma Fields_head_byte (x : gostring) :
  x <> [] -> unicode.IsSpace (fst (utf8.DecodeRuneInString x)) = false ->
  exists c t t' fs, x = c :: t /\ strings.Fields x = (c :: t') :: fs.
Proof.
  intros Hne Hsp; destruct x as [|c t]; [congruence|].
  unfold strings.Fields, strings.FieldsFunc.
  rewrite runes_cons; cbn [strings.fieldsLoop]; rewrite Hsp.
  destruct (utf8.DecodeRuneInString (c :: t)) as [r w] eqn:D.
  pose proof (Decode_size (c :: t) r w ltac:(discriminate) D) as Hw.
  cbn [snd].
  destruct (fieldsLoop_some_head
              (runes (skipn w (c :: t))) (firstn w (c :: t)))
    as (more & fs & E).
  destruct w as [|w]; [lia|].
  exists c, t, (firstn w t ++ more), fs; split; [reflexivity | exact E].
Qed.

(** Whether a line is a command is seen on its first field. *)
Lemma line_kind (raw : gostring) :
  strings.Fields raw <> [] ->
  strings.TrimSpace raw <> []
  /\ strings.HasPrefix (strings.TrimSpace raw) (str "/")
     = strings.HasPrefix (hd [] (strings.Fields raw)) (str "/").
Proof.
  intros HF.
  assert (Hne : strings.TrimSpace raw <> []).
  { intros E; apply HF; rewrite <- Fields_TrimSpace_eq, E; reflexivity. }
  split; [exact Hne|].
  destruct (TrimSpace_trimmed raw) as [E | [HA _]]; [congruence|].
  destruct (Fields_head_byte _ Hne HA) as (c & t & t' & fs & Ex & EF).
  rewrite <- Fields_TrimSpace_eq, EF, Ex; reflexivity.
Qed.

Lemma handleCommand_fields (env : Env) (l1 l2 : gostring)
      (cur : option User.t) (remote : gostring) (d : DB) :
  strings.Fields l1 = strings.Fields l2 ->
  handleCommand env l1 cur remote d = handleCommand env l2 cur remote d.
Proof.
  intros H; unfold handleCommand; now rewrite H.
Qed.

Lemma replyFor_fields (l1 l2 : gostring) :
  strings.Fields l1 = strings.Fields l2 ->
  fieldVerb (hd [] (strings.Fields l1)) = true ->
  replyFor l1 = replyFor l2.
Proof.
  intros H; unfold replyFor, fieldVerb; rewrite H.
  destruct (strings.Fields l2) as [|t0 ts]; [reflexivity|]; cbn [hd].
  destruct (streq t0 (str "echo")); [reflexivity|].
  destruct (streq t0 (str "add")); [reflexivity|].
  destruct (streq t0 (str "mul")); [reflexivity | discriminate].
Qed.

(** X26. A command is handled according to its fields alone: two lines
    with the same fields, the first of which starts with [/], have the
    same effect on the state and end the pass the same way, however
    the fields are spaced. *)
Theorem commands_depend_on_fields (remote : gostring) (st : State)
        (raw1 raw2 : gostring) (env : Env) :
  strings.Fields raw1 = strings.Fields raw2 ->
  strings.HasPrefix (hd [] (strings.Fields raw1)) (str "/") = true ->
  body remote st raw1 env = body remote st raw2 env.
Proof.
  intros HF Hp.
  assert (H1 : strings.Fields raw1 <> [])
    by (intros E; rewrite E in Hp; discriminate).
  assert (H2 : strings.Fields raw2 <> []) by (rewrite <- HF; exact H1).
  destruct (line_kind raw1 H1) as [N1 P1], (line_kind raw2 H2) as [N2 P2].
  rewrite <- HF, Hp in P2; rewrite Hp in P1.
  unfold body.
  rewrite (streq_nil_false _ N1), (streq_nil_false _ N2), P1, P2.
  rewrite (handleCommand_fields env (strings.TrimSpace raw1)
                                (strings.TrimSpace raw2));
    [reflexivity | now rewrite !Fields_TrimSpace_eq].
Qed.

(** X27. The replies to [echo], [add] and [mul] are computed from the
    fields of the line alone: two lines with the same fields, the
    first of which is one of these verbs, get the same write and end
    the pass the same way (the texts stored may differ in their
    spacing). *)
Theorem verb_replies_depend_on_fields (remote : gostring) (st : State)
        (raw1 raw2 : gostring) (env : Env) :
  strings.Fields raw1 = strings.Fields raw2 ->
  fieldVerb (hd [] (strings.Fields raw1)) = true ->
  replyFor (strings.TrimSpace raw1) = replyFor (strings.TrimSpace raw2)
  /\ written (fst (body remote st raw1 env))
     = written (fst (body remote st raw2 env))
  /\ snd (body remote st raw1 env) = snd (body remote st raw2 env).
Proof.
  intros HF Hv.
  assert (H1 : strings.Fields raw1 <> [])
    by (intros E; rewrite E in Hv; discriminate).
  assert (H2 : strings.Fields raw2 <> []) by (rewrite <- HF; exact H1).
  assert (Hp : strings.HasPrefix (hd [] (strings.Fields raw1)) (str "/")
               = false).
  { revert Hv; unfold fieldVerb.
    destruct (strings.Fields raw1) as [|t0 ts]; [discriminate|]; cbn [hd].
    destruct (streq t0 (str "echo")) eqn:E1;
      [apply streq_eq in E1; subst; reflexivity|].
    destruct (streq t0 (str "add")) eqn:E2;
      [apply streq_eq in E2; subst; reflexivity|].
    destruct (streq t0 (str "mul")) eqn:E3;
      [apply streq_eq in E3; subst; reflexivity | discriminate]. }
  destruct (line_kind raw1 H1) as [N1 P1], (line_kind raw2 H2) as [N2 P2].
  rewrite <- HF, Hp in P2; rewrite Hp in P1.
  assert (HR : replyFor (strings.TrimSpace raw1)
               = replyFor (strings.TrimSpace raw2)).
  { apply replyFor_fields; rewrite !Fields_TrimSpace_eq; assumption. }
  split; [exact HR|].
  destruct (replyFor_total (strings.TrimSpace raw1) (Fields_TrimSpace raw1 N1))
    as [reply Hr].
  rewrite (body_payload remote st raw1 env reply N1 P1 Hr).
  rewrite HR in Hr.
  rewrite (body_payload remote st raw2 env reply N2 P2 Hr).
  split; reflexivity.
Qed.

(** ** Commands while the lookup of the store fails *)

(** X28. A failing lookup is not reported as such by the commands that
    look a name up.  While the lookup fails, a login command answers
    [no such user] whatever the table holds, and a register command
    goes on as if the name were free: it registers the name when the
    table has no entry for it, and otherwise leaves the refusal to the
    unique index, whose error it passes on instead of
    [name already taken].  The list command passes the fault on. *)
Theorem lookup_fault_outcomes (env : Env) (line : gostring)
        (cur : option User.t) (remote : gostring) (d : DB)
        (name pw : gostring) (args : list gostring) (e : error) :
  queryErr env = Some e ->
  (strings.Fields line = [str "/connect"; name; pw] ->
   handleCommand env line cur remote d
   = Ret ([], Some (str "no such user"), cur, d))
  /\ (strings.Fields line = [str "/setname"; name; pw] ->
      createErr env = None -> (length pw <= 72)%nat ->
      handleCommand env line cur remote d
      = if nameExists d name
        then Ret ([], Some gorm.ErrUniqueName, cur, d)
        else
          let u := User.Build (gorm.nextID (map User.ID (users d))) name
                              (bcryptHash (salt env) pw) (now env) in
          Ret (str "OK: registered and logged in as " ++ name, None, Some u,
               {| users := users d ++ [u]; messages := messages d |}))
  /\ (strings.Fields line = str "/list" :: args ->
      handleCommand env line cur remote d = Ret ([], Some e, cur, d)).
Proof.
  intros Hq; split; [|split].
  - intros HF; unfold handleCommand; rewrite HF.
    cbn [strings.TrimPrefix strings.HasPrefix str list_ascii_of_string
         Ascii.eqb Bool.eqb andb length skipn streq].
    unfold gorm.FirstUserByName; rewrite Hq; reflexivity.
  - intros HF Hc Hlen; unfold handleCommand; rewrite HF.
    cbn [strings.TrimPrefix strings.HasPrefix str list_ascii_of_string
         Ascii.eqb Bool.eqb andb length skipn streq].
    unfold gorm.FirstUserByName; rewrite Hq.
    unfold GenerateFromPassword.
    replace (72 <? length pw)%nat with false
      by (symmetry; apply Nat.ltb_ge; lia).
    unfold gorm.CreateUser, nameExists; rewrite Hc; cbn [User.Name].
    destruct (existsb _ (users d)); reflexivity.
  - intros HF; unfold handleCommand; rewrite HF.
    cbn [strings.TrimPrefix strings.HasPrefix str list_ascii_of_string
         Ascii.eqb Bool.eqb andb length skipn streq].
    unfold gorm.FindUsers; rewrite Hq; reflexivity.
Qed.

End Server.

(** * The statements on concrete input *)

Example clock_ex : clock 45296 = str "12:34".
Proof. vm_compute. reflexivity. Qed.

Example register_then_login :
  let reads := [(str "/setname bob secret" ++ nl, envAt 60 None);
                (str "/connect bob secret" ++ nl, envAt 120 None);
                (str "/connect bob wrong" ++ nl, envAt 180 None);
                (str "/list" ++ nl, envAt 240 None)] in
  map written
      (fst (fst (handleConn plainHash plainCheck clock (str "10.0.0.7:4000")
                            None noFault reads emptyDB)))
  = [[(str "OK: registered and logged in as bob" ++ nl, None)];
     [(str "OK: registered and logged in as bob" ++ nl, None);
      (str "OK: logged in as bob" ++ nl, None)];
     [(str "OK: registered and logged in as bob" ++ nl, None);
      (str "OK: logged in as bob" ++ nl, None);
      (str "ERR: invalid password" ++ nl, None)];
     [(str "OK: registered and logged in as bob" ++ nl, None);
      (str "OK: logged in as bob" ++ nl, None);
      (str "ERR: invalid password" ++ nl, None);
      (str "(no other users)" ++ nl, None)]].
Proof. vm_compute. reflexivity. Qed.

Example command_failures :
  let d := {| users := [User.Build 1 (str "bob") (str "salt$secret") 60];
              messages := [] |} in
  let locked := {| now := 300; queryErr := Some (str "database is locked");
                   createErr := None; salt := str "salt"; writeErr := None |} in
  let reads := [(str "/setname bob" ++ nl, envAt 60 None);
                (str "/setname bob other" ++ nl, envAt 120 None);
                (str "/connect ann secret" ++ nl, envAt 180 None);
                (str "/connect bob wrong" ++ nl, envAt 240 None);
                (str "/quit now" ++ nl, envAt 270 None);
                (str "/list" ++ nl, locked)] in
  let result := handleConn plainHash plainCheck clock (str "10.0.0.7:4000")
                           (Some (str "database is locked")) noFault reads d in
  map (fun s => (last (written s) ([], None), currentUser s, db s))
      (fst (fst result))
  = [((str "ERR: usage: /setname <name> <password>" ++ nl, None), None, d);
     ((str "ERR: name already taken" ++ nl, None), None, d);
     ((str "ERR: no such user" ++ nl, None), None, d);
     ((str "ERR: invalid password" ++ nl, None), None, d);
     ((str "ERR: unknown command: quit" ++ nl, None), None, d);
     ((str "ERR: database is locked" ++ nl, None), None, d)].
Proof. vm_compute. reflexivity. Qed.

(** C3, at the input on which the code departs from it: the write of the
    reply to the command [/who] fails, the loop goes on all the same, and
    the next line is read, stored and answered. *)
Theorem command_write_failure_ignored :
  let reads := [(str "/who" ++ nl, envAt 60 (Some (str "broken pipe")));
                (str "hello" ++ nl, envAt 120 None)] in
  let result := handleConn plainHash plainCheck clock (str "10.0.0.7:4000")
                           None noFault reads emptyDB in
  map written (fst (fst result))
  = [[(str "ERR: unknown command: who" ++ nl, Some (str "broken pipe"))];
     [(str "ERR: unknown command: who" ++ nl, Some (str "broken pipe"));
      (str "hello from server" ++ nl, None)]]
  /\ map (fun s => map Message.Text (messages (db s))) (fst (fst result))
     = [[]; [str "hello"]]
  /\ snd result = [].
Proof. vm_compute. repeat split; reflexivity. Qed.

Lemma dispatch_total_witness :
  strings.TrimSpace (str "  hello" ++ nl) <> []
  /\ exists t0 ts, strings.Fields (strings.TrimSpace (str "  hello" ++ nl)) = t0 :: ts.
Proof.
  assert (H : strings.TrimSpace (str "  hello" ++ nl) <> [])
    by (vm_compute; discriminate).
  split; [exact H|].
  exact (proj1 (dispatch_total plainHash plainCheck (str "  hello" ++ nl) H)).
Defined.

Lemma command_error_reported_witness :
  let st := {| db := emptyDB; currentUser := None;
               written := [(str "12:34 bob hello" ++ nl, None)] |} in
  let env := envAt 60 None in
  written (fst (body plainHash plainCheck (str "10.0.0.7:4000") st
                     (str "/who" ++ nl) env))
  = [(str "12:34 bob hello" ++ nl, None);
     (str "ERR: unknown command: who" ++ nl, None)].
Proof.
  intros st env.
  refine (proj1 (command_error_reported plainHash plainCheck
                   (str "10.0.0.7:4000") st (str "/who" ++ nl) env
                   [] (str "unknown command: who") None emptyDB _ _ _)).
  - vm_compute; discriminate.
  - vm_compute; reflexivity.
  - vm_compute; reflexivity.
Defined.

Lemma bytes_words_reply_witness :
  replyFor (str "bytes hello world") = Ret (str "11")
  /\ replyFor (str "words hello world") = Ret (str "2").
Proof.
  exact (bytes_words_reply (str "hello world")).
Defined.

Lemma session_never_reverts_witness :
  let reads := [(str "/setname bob secret" ++ nl, envAt 60 None);
                (str "/connect bob wrong" ++ nl, envAt 120 None);
                (str "hello" ++ nl, envAt 180 None)] in
  let start := startState clock None noFault emptyDB in
  let tr := fst (fst (handleConn plainHash plainCheck clock (str "10.0.0.7:4000")
                                 None noFault reads emptyDB)) in
  authenticated start = false
  /\ authenticated (nth 0 tr start) = true
  /\ authenticated (nth 2 tr start) = true.
Proof.
  intros reads start tr.
  split; [vm_compute; reflexivity|].
  split; [vm_compute; reflexivity|].
  refine (proj2 (session_never_reverts plainHash plainCheck clock
                   (str "10.0.0.7:4000") None noFault reads emptyDB)
                0%nat 2%nat (nth 0 tr start) (nth 2 tr start) _ _ _ _).
  - lia.
  - vm_compute; reflexivity.
  - vm_compute; reflexivity.
  - vm_compute; reflexivity.
Defined.

Lemma chat_record_frame_witness :
  let st := {| db := emptyDB; currentUser := None; written := [] |} in
  let st' := fst (body plainHash plainCheck (str "10.0.0.7:4000") st
                       (str "add 3 x" ++ nl) (envAt 60 None)) in
  messages (db st')
  = [Message.Build 1 None [] (str "10.0.0.7:4000") (str "add 3 x") 60]
  /\ written st' = [(str "ERR: add expects two integers" ++ nl, None)].
Proof.
  intros st st'; split.
  - refine (proj1 (proj1 (chat_record_frame plainHash plainCheck
                            (str "10.0.0.7:4000") st (str "add 3 x" ++ nl)
                            (envAt 60 None)) _ _ _)).
    + vm_compute; discriminate.
    + vm_compute; reflexivity.
    + reflexivity.
  - vm_compute; reflexivity.
Defined.

(** C6. History replay is not in the order of creation when the offset
    of the local zone changes between two records.  Two payload lines
    are stored on 2025-10-26 in a zone that leaves summer time that
    night: the first at 02:30 (+02:00), the second forty minutes later,
    at 02:10 (+01:00).  The texts stored for the two times compare the
    other way round, and the replay on the next connection shows the
    second line first. *)
Theorem history_replay_out_of_creation_order :
  let t1 := {| unixNano := 1761438600 * 10 ^ 9; zoneOffset := 120 |} in
  let t2 := {| unixNano := 1761441000 * 10 ^ 9; zoneOffset := 60 |} in
  let reads := [(str "first" ++ nl, envAt t1 None);
                (str "second" ++ nl, envAt t2 None)] in
  let start := startState clock None noFault emptyDB in
  let d := db (last (fst (fst (handleConn plainHash plainCheck clock
                                          (str "10.0.0.7:4000") None noFault
                                          reads emptyDB)))
                    start) in
  unixNano t1 < unixNano t2
  /\ map (fun m => (Message.Text m, Message.CreatedAt m)) (messages d)
     = [(str "first", t1); (str "second", t2)]
  /\ sqlite3.timestamp t1 = str "2025-10-26 02:30:00+02:00"
  /\ sqlite3.timestamp t2 = str "2025-10-26 02:10:00+01:00"
  /\ written (startState clock None noFault d)
     = [(str "02:10 10.0.0.7:4000 second" ++ nl, None);
        (str "02:30 10.0.0.7:4000 first" ++ nl, None)]
  /\ ~ StronglySorted createdLe (gorm.orderByCreatedAt (messages d)).
Proof.
  intros t1 t2 reads start d.
  split; [reflexivity|].
  split; [vm_compute; reflexivity|].
  split; [vm_compute; reflexivity|].
  split; [vm_compute; reflexivity|].
  split; [vm_compute; reflexivity|].
  assert (E : gorm.orderByCreatedAt (messages d)
              = [Message.Build 2 None [] (str "10.0.0.7:4000") (str "second") t2;
                 Message.Build 1 None [] (str "10.0.0.7:4000") (str "first") t1])
    by (vm_compute; reflexivity).
  rewrite E; intros H.
  inversion H as [|? ? _ HF]; inversion HF as [|? ? Hle _].
  unfold createdLe in Hle; vm_compute in Hle; exact (Hle eq_refl).
Qed.

Lemma second_register_rejected_witness :
  let d1 := {| users := [User.Build 1 (str "bob") (str "salt$secret") 60];
               messages := [] |} in
  handleCommand plainHash plainCheck (envAt 120 None) (str "/setname bob other")
                None (str "10.0.0.9:4100") d1
  = Ret ([], Some (str "name already taken"), None, d1).
Proof.
  intros d1.
  refine (proj1 (proj2 (second_register_rejected plainHash plainCheck
                          (envAt 60 None) (envAt 120 None)
                          (str "/setname bob secret") (str "/setname bob other")
                          None None (str "10.0.0.7:4000") (str "10.0.0.9:4100")
                          emptyDB d1 (str "bob") (str "secret") (str "other")
                          (str "OK: registered and logged in as bob")
                          (Some (User.Build 1 (str "bob") (str "salt$secret") 60))
                          _ _ _ _))).
  - vm_compute; reflexivity.
  - vm_compute; reflexivity.
  - vm_compute; reflexivity.
  - reflexivity.
Defined.

Lemma echo_reply_witness :
  strings.Fields (str "echo  a   b") = [str "echo"; str "a"; str "b"]
  /\ replyFor (str "echo  a   b") = Ret (str "a b").
Proof.
  assert (H : strings.Fields (str "echo  a   b") = [str "echo"; str "a"; str "b"])
    by (vm_compute; reflexivity).
  split; [exact H|].
  exact (proj1 (echo_reply (str "echo  a   b") [str "a"; str "b"] H)).
Defined.

Lemma add_mul_non_integer_witness :
  replyFor (str "add 3 x") = Ret (str "ERR: add expects two integers")
  /\ replyFor (str "mul 3 x") = Ret (str "ERR: mul expects two integers").
Proof.
  apply (add_mul_non_integer (str "3") (str "x")); [reflexivity | reflexivity|].
  right; reflexivity.
Defined.

Lemma add_mul_integers_witness :
  replyFor (str "add -7 +12") = Ret (str "5")
  /\ replyFor (str "mul -7 +12") = Ret (str "-84").
Proof.
  exact (add_mul_integers (str "-7") (str "+12") eq_refl eq_refl).
Defined.

Lemma add_mul_numerals_witness :
  replyFor (str "add 9223372036854775807 1") = Ret (str "-9223372036854775808")
  /\ replyFor (str "mul 4611686018427387904 2") = Ret (str "-9223372036854775808")
  /\ replyFor (str "add -40 2") = Ret (str "-38").
Proof.
  split; [|split].
  - exact (proj1 (proj2 (add_mul_numerals (2 ^ 63 - 1) 1 eq_refl eq_refl))).
  - exact (proj1 (proj2 (proj2 (add_mul_numerals (2 ^ 62) 2 eq_refl eq_refl)))).
  - exact (proj1 (proj2 (add_mul_numerals (-40) 2 eq_refl eq_refl))).
Defined.

Lemma register_outcome_witness :
  handleCommand plainHash plainCheck (envAt 60 None) (str "/setname bob secret")
                None (str "10.0.0.7:4000") emptyDB
  = Ret (str "OK: registered and logged in as bob", None,
         Some (User.Build 1 (str "bob") (str "salt$secret") 60),
         {| users := [User.Build 1 (str "bob") (str "salt$secret") 60];
            messages := [] |}).
Proof.
  refine (proj1 (proj1 (register_outcome plainHash plainCheck (envAt 60 None)
                          (str "/setname bob secret") None (str "10.0.0.7:4000")
                          emptyDB (str "bob") (str "secret") _ _ _) _ _)).
  - vm_compute; reflexivity.
  - reflexivity.
  - reflexivity.
  - reflexivity.
  - vm_compute; lia.
Defined.

Lemma register_then_login_binds_witness :
  let bob := User.Build 1 (str "bob") (str "salt$secret") 60 in
  let ann := User.Build 2 (str "ann") (str "salt$hush") 90 in
  let d2 := {| users := [bob; ann]; messages := [] |} in
  handleCommand plainHash plainCheck (envAt 120 None) (str "/connect bob secret")
                None (str "10.0.0.9:4100") d2
  = Ret (str "OK: logged in as bob", None, Some bob, d2).
Proof.
  intros bob ann d2.
  refine (proj2 (register_then_login_binds plainHash plainCheck
                   (envAt 60 None) (envAt 120 None)
                   (str "/setname bob secret") (str "/connect bob secret")
                   None None (str "10.0.0.7:4000") (str "10.0.0.9:4100")
                   emptyDB {| users := [bob]; messages := [] |} d2
                   (str "bob") (str "secret") (str "secret")
                   (str "OK: registered and logged in as bob") (Some bob) [ann]
                   _ _ _ _ _)).
  - vm_compute; reflexivity.
  - vm_compute; reflexivity.
  - reflexivity.
  - vm_compute; reflexivity.
  - reflexivity.
Defined.

Lemma list_outcome_witness :
  let bob := User.Build 1 (str "bob") (str "salt$secret") 60 in
  let ann := User.Build 2 (str "ann") (str "salt$hush") 90 in
  let eve := User.Build 3 (str "eve") (str "salt$apple") 95 in
  let d := {| users := [bob; ann; eve]; messages := [] |} in
  handleCommand plainHash plainCheck (envAt 120 None) (str "/list all")
                (Some ann) (str "10.0.0.9:4100") d
  = Ret (str "bob, eve", None, Some ann, d).
Proof.
  intros bob ann eve d.
  refine (proj1 (list_outcome plainHash plainCheck (envAt 120 None)
                   (str "/list all") (Some ann) (str "10.0.0.9:4100") d
                   [str "all"] _ _)).
  - vm_compute; reflexivity.
  - reflexivity.
Defined.

Lemma users_stay_unique_witness :
  let reads := [(str "/setname bob secret" ++ nl, envAt 60 None);
                (str "/setname bob other" ++ nl, envAt 90 None);
                (str "/setname ann hush" ++ nl, envAt 120 None)] in
  Forall (fun s => uniqueUsers (db s))
         (startState clock None noFault emptyDB
            :: fst (fst (handleConn plainHash plainCheck clock
                                    (str "10.0.0.7:4000") None noFault reads
                                    emptyDB))).
Proof.
  intros reads.
  apply (users_stay_unique plainHash plainCheck clock).
  split; constructor.
Defined.

Lemma references_stay_valid_witness :
  let reads := [(str "/setname bob secret" ++ nl, envAt 60 None);
                (str "hello" ++ nl, envAt 90 None)] in
  Forall refsValid
         (startState clock None noFault emptyDB
            :: fst (fst (handleConn plainHash plainCheck clock
                                    (str "10.0.0.7:4000") None noFault reads
                                    emptyDB))).
Proof.
  intros reads.
  apply (references_stay_valid plainHash plainCheck clock).
  intros m id [].
Defined.

Lemma tables_only_grow_witness :
  let reads := [(str "/setname bob secret" ++ nl, envAt 60 None);
                (str "hello" ++ nl, envAt 90 None);
                (str "add 1 2" ++ nl, envAt 95 None)] in
  let all := startState clock None noFault emptyDB
               :: fst (fst (handleConn plainHash plainCheck clock
                                       (str "10.0.0.7:4000") None noFault reads
                                       emptyDB)) in
  extends (nth 1 all (startState clock None noFault emptyDB))
          (nth 3 all (startState clock None noFault emptyDB)).
Proof.
  intros reads all.
  refine (tables_only_grow plainHash plainCheck clock (str "10.0.0.7:4000")
            None noFault reads emptyDB 1 3 _ _ _ _ _).
  - lia.
  - vm_compute; reflexivity.
  - vm_compute; reflexivity.
Defined.

Lemma history_stops_at_failed_write_witness :
  let st := {| db := {| users := [];
                        messages :=
                          [Message.Build 1 None [] (str "10.0.0.9:4100")
                                         (str "first") 45296;
                           Message.Build 2 (Some 1) (str "bob") (str "10.0.0.7:4000")
                                         (str "second") 45360;
                           Message.Build 3 None [] (str "10.0.0.9:4100")
                                         (str "third") 45400] |};
               currentUser := None; written := [] |} in
  let werr := fun k : nat => if (k =? 1)%nat then Some (str "broken pipe") else None in
  sendHistory clock None werr st
  = ({| db := db st; currentUser := None;
        written := [(str "12:34 10.0.0.9:4100 first" ++ nl, None);
                    (str "12:36 bob second" ++ nl, Some (str "broken pipe"))] |},
     Some (str "broken pipe")).
Proof.
  intros st werr.
  refine (history_stops_at_failed_write clock werr st 1 (str "broken pipe") _ _ _).
  - vm_compute; lia.
  - reflexivity.
  - intros j Hj; assert (j = 0)%nat as -> by lia; reflexivity.
Defined.

Lemma history_reflects_earlier_lines_witness :
  let reads := [(str "  hello there " ++ nl, envAt 45296 None);
                (str "/list" ++ nl, envAt 45300 None)] in
  let start := startState clock None noFault emptyDB in
  let tr := fst (fst (handleConn plainHash plainCheck clock (str "10.0.0.7:4000")
                                 None noFault reads emptyDB)) in
  exists m,
    In m (messages (db (nth 1 tr start)))
    /\ Message.Text m = strings.TrimSpace (str "  hello there " ++ nl)
    /\ Message.Addr m = str "10.0.0.7:4000"
    /\ Message.CreatedAt m = now (envAt 45296 None)
    /\ In (historyLine clock m, None)
          (written (startState clock None noFault (db (nth 1 tr start)))).
Proof.
  intros reads start tr.
  refine (history_reflects_earlier_lines
            plainHash plainCheck clock (str "10.0.0.7:4000") None noFault noFault
            reads emptyDB 0 1 (str "  hello there " ++ nl) (envAt 45296 None)
            (nth 0 tr start) (nth 1 tr start) _ _ _ _ _ _ _ _).
  - reflexivity.
  - vm_compute; reflexivity.
  - vm_compute; reflexivity.
  - lia.
  - vm_compute; discriminate.
  - vm_compute; reflexivity.
  - reflexivity.
  - reflexivity.
Defined.

Lemma loop_stops_on_failed_reply_only_witness :
  let reads := [(str "hello" ++ nl, envAt 60 None);
                (str "/who" ++ nl, envAt 90 None);
                (str "bye" ++ nl, envAt 120 None)] in
  let result := handleConn plainHash plainCheck clock (str "10.0.0.7:4000")
                           None noFault reads emptyDB in
  snd result = [] /\ length (fst (fst result)) = 3%nat.
Proof.
  intros reads result.
  refine (proj2 (proj2 (proj2 (loop_stops_on_failed_reply_only
                                 plainHash plainCheck clock (str "10.0.0.7:4000")
                                 None noFault reads emptyDB))) _).
  intros rd [<- | [<- | [<- | []]]]; reflexivity.
Defined.

Lemma every_write_is_one_line_witness :
  let d := {| users := [User.Build 1 (str "bob") (str "salt$secret") 60];
              messages := [Message.Build 1 None [] (str "10.0.0.7:4000")
                                         (str "hello there") 70] |} in
  let reads := [(str "/setname ann hush" ++ nl, envAt 90 None);
                (str "  echo  a   b " ++ nl, envAt 120 None);
                (str "/list" ++ nl, envAt 125 None);
                (str "/nope" ++ nl, envAt 130 None)] in
  Forall (fun s => cleanState clock s = true)
         (startState clock None noFault d
            :: fst (fst (handleConn plainHash plainCheck clock
                                    (str "10.0.0.9:4100") None noFault reads d))).
Proof.
  intros d reads.
  apply (every_write_is_one_line plainHash plainCheck clock);
    vm_compute; reflexivity.
Defined.

Lemma client_stops_at_exit_witness :
  client.inputLoop 5
    ([(str "hello" ++ nl, None)]
       ++ (str "  exit " ++ nl, None) :: [(str "more" ++ nl, None)]) []
  = client.inputLoop 5 [(str "hello" ++ nl, None)] [].
Proof.
  apply client_stops_at_exit.
  vm_compute; reflexivity.
Defined.

Lemma client_ignores_send_errors_witness :
  map fst (client.main [str "client"; str "hi"; str "all"] None
                       (Some (str "broken pipe")) 4
                       [(str "one" ++ nl, Some (str "broken pipe"));
                        (nl, None); (str " two " ++ nl, None)])
  = map fst (client.main [str "client"; str "hi"; str "all"] None None 4
                         [(str "one" ++ nl, None); (nl, None);
                          (str " two " ++ nl, None)]).
Proof.
  apply client_ignores_send_errors.
  reflexivity.
Defined.

Lemma server_reads_client_writes_witness :
  let inputs := [(str " /setname bob secret" ++ nl, None); (nl, None);
                 (str "add 2 3 " ++ nl, None); (str "exit" ++ nl, None);
                 (str "late" ++ nl, None)] in
  bufio.linesOf [] (concat (map fst (client.inputLoop 9 inputs [])))
  = map fst (client.inputLoop 9 inputs []).
Proof.
  intros inputs.
  apply server_reads_client_writes.
  vm_compute; reflexivity.
Defined.

Lemma server_keeps_database_sound_witness :
  let events := [Accepted (str "10.0.0.7:4000") None noFault;
                 Accepted (str "10.0.0.9:4100") None noFault;
                 LineRead 0 (str "/setname bob secret" ++ nl) (envAt 60 None);
                 LineRead 1 (str "/setname bob other" ++ nl) (envAt 61 None);
                 LineRead 0 (str "hello" ++ nl) (envAt 62 None);
                 LineRead 1 (str "/connect bob secret" ++ nl) (envAt 63 None);
                 ReadFailed 0;
                 LineRead 1 (str "add 2 3" ++ nl) (envAt 64 None)] in
  let s := main plainHash plainCheck clock emptyDB events in
  crashed s = false
  /\ uniqueUsers (store s)
  /\ authorsValid (store s)
  /\ Forall (fun c => refsValid (view s c)) (conns s).
Proof.
  intros events s.
  apply (server_keeps_database_sound plainHash plainCheck clock).
  - split; constructor.
  - intros m id [].
Defined.

Lemma server_writes_lines_witness :
  let events := [Accepted (str "10.0.0.7:4000") None noFault;
                 LineRead 0 (str "/setname bob secret" ++ nl) (envAt 60 None);
                 LineRead 0 (str " echo  a   b " ++ nl) (envAt 62 None);
                 Accepted (str "10.0.0.9:4100") None noFault;
                 LineRead 1 (str "/list" ++ nl) (envAt 63 None);
                 LineRead 1 (str "/nope" ++ nl) (envAt 64 None)] in
  let s := main plainHash plainCheck clock emptyDB events in
  cleanDB clock (store s) = true
  /\ Forall (fun c => cleanState clock (view s c) = true) (conns s).
Proof.
  intros events s.
  apply (server_writes_lines plainHash plainCheck clock);
    vm_compute; reflexivity.
Defined.

Lemma stored_lines_are_replayed_witness :
  let c := {| origin := str "10.0.0.7:4000"; user := None; sent := [];
              returned := false |} in
  let raw := str "  hello there " ++ nl in
  let s := main plainHash plainCheck clock emptyDB
                ([Accepted (str "10.0.0.7:4000") None noFault]
                   ++ LineRead 0 raw (envAt 45296 None)
                   :: [LineRead 0 (str "/list" ++ nl) (envAt 45300 None);
                       ReadFailed 0]
                   ++ [Accepted (str "10.0.0.9:4100") None noFault]) in
  exists m cn,
    In m (messages (store s))
    /\ Message.Text m = strings.TrimSpace raw
    /\ Message.Addr m = origin c
    /\ Message.CreatedAt m = now (envAt 45296 None)
    /\ nth_error (conns s) (length (conns s) - 1) = Some cn
    /\ origin cn = str "10.0.0.9:4100"
    /\ In (historyLine clock m, None) (sent cn).
Proof.
  intros c raw s.
  refine (stored_lines_are_replayed
            plainHash plainCheck clock emptyDB
            [Accepted (str "10.0.0.7:4000") None noFault]
            [LineRead 0 (str "/list" ++ nl) (envAt 45300 None); ReadFailed 0]
            0 c raw (envAt 45296 None) (str "10.0.0.9:4100") noFault
            _ _ _ _ _ _).
  - reflexivity.
  - reflexivity.
  - vm_compute; discriminate.
  - vm_compute; reflexivity.
  - reflexivity.
  - reflexivity.
Defined.

Lemma client_arguments_reach_server_witness :
  let ts := [str "add"; str "2"; str "3"] in
  (exists more,
      client.main (str "client" :: ts) None None 3 [(str "exit" ++ nl, None)]
      = (strings.Join ts (str " ") ++ nl, None) :: more)
  /\ oneLine (strings.Join ts (str " ") ++ nl) = true
  /\ strings.TrimSpace (strings.Join ts (str " ") ++ nl)
     = strings.Join ts (str " ")
  /\ strings.Fields (strings.TrimSpace (strings.Join ts (str " ") ++ nl)) = ts.
Proof.
  intros ts.
  apply client_arguments_reach_server.
  - discriminate.
  - repeat constructor.
Defined.

Lemma commands_depend_on_fields_witness :
  let st := {| db := emptyDB; currentUser := None; written := [] |} in
  body plainHash plainCheck (str "10.0.0.7:4000") st
       (str "  /setname    bob  secret   " ++ nl) (envAt 60 None)
  = body plainHash plainCheck (str "10.0.0.7:4000") st
         (str "/setname bob secret" ++ nl) (envAt 60 None).
Proof.
  intros st.
  apply (commands_depend_on_fields plainHash plainCheck);
    vm_compute; reflexivity.
Defined.

Lemma verb_replies_depend_on_fields_witness :
  let st := {| db := emptyDB; currentUser := None; written := [] |} in
  let raw1 := str " add   2    40 " ++ nl in
  let raw2 := str "add 2 40" ++ nl in
  replyFor (strings.TrimSpace raw1) = replyFor (strings.TrimSpace raw2)
  /\ written (fst (body plainHash plainCheck (str "10.0.0.7:4000") st raw1
                        (envAt 60 None)))
     = written (fst (body plainHash plainCheck (str "10.0.0.7:4000") st raw2
                          (envAt 60 None)))
  /\ snd (body plainHash plainCheck (str "10.0.0.7:4000") st raw1
               (envAt 60 None))
     = snd (body plainHash plainCheck (str "10.0.0.7:4000") st raw2
                 (envAt 60 None)).
Proof.
  intros st raw1 raw2.
  apply (verb_replies_depend_on_fields plainHash plainCheck);
    vm_compute; reflexivity.
Defined.

Lemma lookup_fault_outcomes_witness :
  let bob := User.Build 1 (str "bob") (str "salt$secret") 60 in
  let d := {| users := [bob]; messages := [] |} in
  let env := {| now := 90; queryErr := Some (str "database is locked");
                createErr := None; salt := str "salt"; writeErr := None |} in
  handleCommand plainHash plainCheck env (str "/connect bob secret") None
                (str "10.0.0.7:4000") d
  = Ret ([], Some (str "no such user"), None, d).
Proof.
  intros bob d env.
  refine (proj1 (lookup_fault_outcomes plainHash plainCheck env
                   (str "/connect bob secret") None (str "10.0.0.7:4000") d
                   (str "bob") (str "secret") [] (str "database is locked")
                   _) _).
  - reflexivity.
  - vm_compute; reflexivity.
Defined.
